(** * tapo_sync: the synchronisation engines and their coordinator

    A shallow embedding of [tapo_sync/audio_sync.py], [tapo_sync/screen_sync.py],
    [tapo_sync/tapo_controller.py] and [tapo_sync/sync_manager.py].

    Conventions of the embedding
    - Python [int] is [Z]; Python [float] (and the numpy scalars) is a real
      number [R]: arithmetic is exact, rounding of binary64 / float32 values
      is not represented, and neither are NaN and the infinities.
    - A method that mutates [self] is a function from the old object to the
      new one; a method that may raise returns a [Result] next to the object
      as it was left when the exception escaped.
    - [asyncio] tasks live in the event loop, a list of task states indexed
      by creation order; an engine refers to its task by index.
    - What the outside world answers during one coordinator call (device
      reachable, discovery result, whether an awaited loop exits cleanly) is
      an explicit [Env] argument; what an engine loop meets at each
      iteration (frame, clock reading, outcome of the push) is a list of
      tick inputs. The spectral transform and the screen capture are inputs:
      the audio loop is given the magnitude spectrum of each frame, the
      screen loop the average colour of each captured frame.

    The definitions come first, module by module as in the source; the
    properties follow. *)

From Stdlib Require Import ZArith Reals Lra Lia.
From Stdlib Require PrimFloat Uint63.
From stdpp Require Import base list strings pretty.

Open Scope R_scope.

(** ** Exceptions, results and a small state-and-exception monad *)

Inductive Exn : Type :=
| ValueError (msg : string)
| RuntimeError (msg : string)
| IndexError
| ArithmeticError   (* ZeroDivisionError, OverflowError *)
| OSError
| DeviceError   (* whatever the device client raises on a failed request *)
| LoopError.    (* the exception of a background loop, re-raised by [await task] *)

Inductive Result (A : Type) : Type :=
| Ok (a : A)
| Raise (e : Exn).
Arguments Ok {A} a.
Arguments Raise {A} e.

Definition M (S A : Type) : Type := S -> Result A * S.

Global Instance M_ret {S} : MRet (M S) := fun A a s => (Ok a, s).
Global Instance M_bind {S} : MBind (M S) := fun A B k m s =>
  match m s with
  | (Ok a, s') => k a s'
  | (Raise e, s') => (Raise e, s')
  end.

Definition raise {S A} (e : Exn) : M S A := fun s => (Raise e, s).
Definition gets {S A} (f : S -> A) : M S A := fun s => (Ok (f s), s).
Definition modify {S} (f : S -> S) : M S unit := fun s => (Ok tt, f s).
(** [try: m except Exception: pass] *)
Definition try_pass {S} (m : M S unit) : M S unit :=
  fun s => (Ok tt, snd (m s)).
(** Run a computation on a component of the state. *)
Definition zoom {S T A} (get : S -> T) (set : T -> S -> S) (m : M T A) : M S A :=
  fun s => let (r, t) := m (get s) in (r, set t s).
(** A constructor's result inside a method. *)
Definition lift {S A} (r : Result A) : M S A := fun s => (r, s).

(** ** Numeric helpers (Python / numpy primitives over the reals) *)

(** [int(x)] on a float: truncation toward zero. *)
Definition int_of_float (x : R) : Z :=
  if Rle_dec 0 x then Int_part x else (- Int_part (- x))%Z.

(** [x % m] on floats, for a positive modulus: the result is in [[0, m)]. *)
Definition float_mod (x m : R) : R := x - m * IZR (Int_part (x / m)).

(** [np.clip(x, lo, hi)] *)
Definition clip (x lo hi : R) : R := Rmin (Rmax x lo) hi.

(** [x ** y] for a base [x >= 0]: [0 ** 0 = 1], [0 ** y = 0] for [y > 0],
    and no finite value for [0 ** y] with [y < 0]. *)
Definition float_pow (x y : R) : Result R :=
  if Req_dec_T x 0
  then (if Req_dec_T y 0 then Ok 1
        else if Rlt_dec 0 y then Ok 0 else Raise ArithmeticError)
  else Ok (Rpower x y).

(** The channel arithmetic of [apply_gamma_correction] on IEEE binary64
    numbers, for [gamma = 1.0] (where [x ** 1.0] is [x]):
    [255 * (c / 255)], to be compared with [c]. *)
Definition binary64_of_channel (c : Z) : PrimFloat.float :=
  PrimFloat.of_uint63 (Uint63.of_Z c).
Definition gamma_one_binary64 (c : Z) : PrimFloat.float :=
  PrimFloat.mul (binary64_of_channel 255)
    (PrimFloat.div (binary64_of_channel c) (binary64_of_channel 255)).
Definition gamma_one_exact (c : Z) : bool :=
  PrimFloat.eqb (gamma_one_binary64 c) (binary64_of_channel c).

(** A list slice [l[a:b]] for [0 <= a <= b]. *)
Definition slice {A} (a b : nat) (l : list A) : list A := take (b - a) (drop a l).

(** [np.mean] of a non-empty sequence. *)
Definition mean (l : list R) : R := fold_right Rplus 0 l / INR (length l).

Fixpoint insert_sorted (x : R) (l : list R) : list R :=
  match l with
  | [] => [x]
  | y :: l' => if Rle_dec x y then x :: l else y :: insert_sorted x l'
  end.

(** [np.sort] *)
Definition np_sort (l : list R) : list R := fold_right insert_sorted [] l.

(** [np.median]: the middle element, or the mean of the two middle ones. *)
Definition np_median (l : list R) : R :=
  let s := np_sort l in
  let n := length s in
  if Nat.even n
  then (nth (n / 2 - 1) s 0 + nth (n / 2) s 0) / 2
  else nth (n / 2) s 0.

(** [np.percentile(arr, 90)], linear interpolation between the two order
    statistics around the virtual index [0.9 * (n - 1)]. *)
Definition np_percentile90 (l : list R) : R :=
  let s := np_sort l in
  let n := length s in
  let lo := (9 * (n - 1) / 10)%nat in
  let hi := Nat.min (lo + 1) (n - 1) in
  let g := INR (9 * (n - 1) mod 10) / 10 in
  nth lo s 0 + (nth hi s 0 - nth lo s 0) * g.

(** ** The [asyncio] event loop *)

Inductive TaskState : Type :=
| Pending     (* not [done()]: the loop is still running *)
| Finished    (* done, the coroutine returned *)
| Failed.     (* done, the coroutine raised *)

Global Instance TaskState_eq_dec : EqDecision TaskState.
Proof. solve_decision. Defined.

Abbreviation EventLoop := (list TaskState).

(** [asyncio.create_task(coro)] *)
Definition create_task (loop : EventLoop) : nat * EventLoop :=
  (length loop, loop ++ [Pending]).

(** [task.done()] *)
Definition done (loop : EventLoop) (t : nat) : bool :=
  match loop !! t with
  | Some Pending => false
  | _ => true
  end.

(** [await task]. A pending task is run to its end: [exit_ok] tells whether
    its coroutine returns or raises. A task that raised re-raises each time
    it is awaited. *)
Definition await_task (exit_ok : bool) (t : nat) : M EventLoop unit :=
  fun loop =>
    match loop !! t with
    | Some Pending =>
        if exit_ok then (Ok tt, <[t := Finished]> loop)
        else (Raise LoopError, <[t := Failed]> loop)
    | Some Failed => (Raise LoopError, loop)
    | _ => (Ok tt, loop)
    end.

(** The arguments of a call of [TapoController.set_color] issued by an
    engine loop. *)
Record Push : Type := {
  push_hue : Z;
  push_saturation : Z;
  push_brightness : Z;
}.

(** ** [audio_sync.py] *)

Module AudioSync.

Definition DEFAULT_BANDS : list Z :=
  [50; 100; 250; 500; 1000; 2000; 4000; 6000; 10000; 20000]%Z.

(** [config.AudioSettings] *)
Record AudioSettings : Type := {
  device_id : Z;
  chunk : Z;
  num_bands : Z;
  update_interval : R;
  history_len : Z;
}.

Definition default_settings : AudioSettings :=
  {| device_id := 14; chunk := 1024; num_bands := 10;
     update_interval := 0.05; history_len := 300 |}.

(** *** class AdaptiveEnergy *)

(** [_band_hist] is a list of [deque(maxlen=maxlen)], oldest sample first. *)
Record AdaptiveEnergy : Type := {
  band_hist : list (list R);
  maxlen : nat;
}.

(** [AdaptiveEnergy.__init__]; [deque] rejects a negative [maxlen]. *)
Definition new_AdaptiveEnergy (num_bands maxlen : Z) : Result AdaptiveEnergy :=
  if ((0 <? num_bands) && (maxlen <? 0))%Z
  then Raise (ValueError "maxlen must be non-negative")
  else Ok {| band_hist := replicate (Z.to_nat num_bands) [];
             maxlen := Z.to_nat maxlen |}.

(** [deque.append] on a bounded deque: a full deque drops its oldest item. *)
Definition deque_append (maxlen : nat) (h : list R) (x : R) : list R :=
  if (length h <? maxlen)%nat then h ++ [x] else tail (h ++ [x]).

(** Lines 42-53: the value emitted for one band once its history [h]
    (already holding the new sample) has at least 20 entries. *)
Definition normalize_band (h : list R) (energy : R) : R :=
  let med := np_median h in
  let p90 := np_percentile90 h in
  let norm_val :=
    if Rle_dec p90 med then 0
    else clip ((energy - med) / (p90 - med + 1e-9)) 0 2 in
  tanh norm_val.

(** The [for i, energy in enumerate(band_energies)] loop, from index [i]
    with [normalized] built so far. [self._band_hist[i]] raises
    [IndexError] past the last band; the histories updated before that
    stay updated. *)
Fixpoint update_loop (i : nat) (band_energies : list R)
    (normalized : list R) (self : AdaptiveEnergy)
    : Result (list R) * AdaptiveEnergy :=
  match band_energies with
  | [] => (Ok normalized, self)
  | energy :: rest =>
      match band_hist self !! i with
      | None => (Raise IndexError, self)
      | Some h =>
          let h' := deque_append (maxlen self) h energy in
          let self' := {| band_hist := <[i := h']> (band_hist self);
                          maxlen := maxlen self |} in
          if (length h' <? 20)%nat
          then update_loop (S i) rest (normalized ++ [0]) self'
          else update_loop (S i) rest
                 (normalized ++ [normalize_band h' energy]) self'
      end
  end.

Definition update_and_normalize (band_energies : list R)
    : M AdaptiveEnergy (list R) :=
  update_loop 0 band_energies [].

(** *** class AudioSyncEngine *)

(** [_stop_event] is the [asyncio.Event] ([Some true] once set), [_task]
    the index of the engine's task in the event loop. The audio stream
    handles [_stream] and [_pyaudio] are not represented. *)
Record Engine : Type := {
  settings : AudioSettings;
  stop_event : option bool;
  task : option nat;
  energy_norm : AdaptiveEnergy;
}.

Definition set_stop_event (v : option bool) (self : Engine) : Engine :=
  {| settings := settings self; stop_event := v; task := task self;
     energy_norm := energy_norm self |}.
Definition set_task (v : option nat) (self : Engine) : Engine :=
  {| settings := settings self; stop_event := stop_event self; task := v;
     energy_norm := energy_norm self |}.
Definition set_energy_norm (v : AdaptiveEnergy) (self : Engine) : Engine :=
  {| settings := settings self; stop_event := stop_event self;
     task := task self; energy_norm := v |}.

(** [AudioSyncEngine.__init__]; [pyaudio] is [false] when neither
    [pyaudiowpatch] nor [pyaudio] could be imported. *)
Definition new_Engine (pyaudio : bool) (settings : AudioSettings)
    : Result Engine :=
  match new_AdaptiveEnergy (num_bands settings) (history_len settings) with
  | Raise e => Raise e
  | Ok norm =>
      if negb pyaudio
      then Raise (RuntimeError
        "PyAudio is required for audio sync. Install pyaudio or pyaudiowpatch.")
      else if negb (num_bands settings =? Z.of_nat (length DEFAULT_BANDS))%Z
      then Raise (ValueError "Only 10-band audio analysis is supported.")
      else Ok {| settings := settings; stop_event := None; task := None;
                 energy_norm := norm |}
  end.

(** [self._task and not self._task.done()] *)
Definition running (self : Engine) (loop : EventLoop) : bool :=
  match task self with
  | Some t => negb (done loop t)
  | None => false
  end.

Definition start : M (Engine * EventLoop) unit :=
  fun '(self, loop) =>
    if running self loop then (Ok tt, (self, loop))
    else
      let self := set_stop_event (Some false) self in
      let (t, loop) := create_task loop in
      (Ok tt, (set_task (Some t) self, loop)).

(** [exit_ok t] : the loop of task [t], once told to stop, exits without
    raising. *)
Definition stop (exit_ok : nat -> bool) : M (Engine * EventLoop) unit :=
  fun '(self, loop) =>
    match task self with
    | None => (Ok tt, (self, loop))
    | Some t =>
        let self :=
          match stop_event self with
          | Some _ => set_stop_event (Some true) self
          | None => self
          end in
        match await_task (exit_ok t) t loop with
        | (Ok _, loop) => (Ok tt, (set_task None self, loop))
        | (Raise e, loop) => (Raise e, (self, loop))
        end
    end.

(** The body of the band loop of [_analyze_frame] for one band; [mag] is
    the magnitude spectrum [np.abs(fft(frame)[: n // 2]) / n]. *)
Definition band_energy (freq_min freq_max n rate : Z) (mag : list R) : R :=
  let bin_max := int_of_float (IZR (freq_max * n) / IZR rate) in
  let bin_min := int_of_float (IZR (freq_min * n) / IZR rate) in
  let bin_max := Z.min bin_max (Z.of_nat (length mag) - 1) in
  let bin_min := Z.max bin_min 0 in
  if (bin_max >? bin_min)%Z
  then mean (slice (Z.to_nat bin_min) (Z.to_nat bin_max) mag)
  else 0.

(** [for i, freq_max in enumerate(DEFAULT_BANDS)], [freq_min] being the
    previous bound (0 for the first band). *)
Fixpoint band_energies_from (freq_min : Z) (bands : list Z) (n rate : Z)
    (mag : list R) : list R :=
  match bands with
  | [] => []
  | freq_max :: rest =>
      band_energy freq_min freq_max n rate mag
        :: band_energies_from freq_max rest n rate mag
  end.

(** [_analyze_frame], on a frame of [n] samples with spectrum [mag]. *)
Definition analyze_frame (n : Z) (mag : list R) (rate : Z)
    : M Engine (list R) :=
  if (n =? 0)%Z
  then gets (fun self => replicate (Z.to_nat (num_bands (settings self))) 0)
  else if (rate =? 0)%Z then raise ArithmeticError
  else zoom energy_norm set_energy_norm
         (update_and_normalize (band_energies_from 0 DEFAULT_BANDS n rate mag)).

(** What one iteration of the [while] loop of [_run] meets: a failed
    [stream.read], or a frame, the clock value [now] read after the
    analysis and whether a [set_color] issued now would succeed. *)
Inductive TickInput : Type :=
| ReadError
| Frame (n : Z) (mag : list R) (now : R) (push_ok : bool).

(** The local variables of [_run] that outlive an iteration, with the
    pushes issued so far (oldest first), each with the clock value [now]
    of its iteration. *)
Record RunState : Type := {
  engine : Engine;
  last_send : R;
  pushes : list (R * Push);
}.

Definition set_engine (e : Engine) (st : RunState) : RunState :=
  {| engine := e; last_send := last_send st; pushes := pushes st |}.
Definition set_last_send (t : R) (st : RunState) : RunState :=
  {| engine := engine st; last_send := t; pushes := pushes st |}.
Definition add_push (p : R * Push) (st : RunState) : RunState :=
  {| engine := engine st; last_send := last_send st;
     pushes := pushes st ++ [p] |}.

(** Lines 149-159: the colour derived from the normalised bands. *)
Definition color_of_bands (band_norms : list R) : Z * Z * Z :=
  let overall_energy := mean band_norms in
  let bass_energy := mean (slice 0 3 band_norms) in
  let mid_energy := mean (slice 3 6 band_norms) in
  let treble_energy := mean (slice 6 10 band_norms) in
  let hue :=
    int_of_float (float_mod (bass_energy * 0 + treble_energy * 240) 360) in
  let saturation := int_of_float (50 + mid_energy * 50) in
  let saturation := Z.max 30 (Z.min saturation 100) in
  let brightness := int_of_float (20 + overall_energy * 80) in
  let brightness := Z.max 10 (Z.min brightness 100) in
  (hue, saturation, brightness).

(** One iteration of the [while] loop of [_run] (lines 140-166). A failed
    read sleeps and [continue]s; a [set_color] that raises ends the loop. *)
Definition tick (rate : Z) (inp : TickInput) : M RunState unit :=
  match inp with
  | ReadError => mret tt
  | Frame n mag now push_ok =>
      band_norms ← zoom engine set_engine (analyze_frame n mag rate);
      let '(hue, saturation, brightness) := color_of_bands band_norms in
      last ← gets last_send;
      interval ← gets (fun st => update_interval (settings (engine st)));
      if Rgt_dec (now - last) interval
      then
        modify (add_push (now, {| push_hue := hue;
                                  push_saturation := saturation;
                                  push_brightness := brightness |}));;
        (if push_ok then mret tt else raise DeviceError);;
        modify (set_last_send now)
      else mret tt
  end.

(** The [while] loop of [_run], one input per iteration until the stop
    event is seen. *)
Fixpoint run_loop (rate : Z) (ticks : list TickInput) : M RunState unit :=
  match ticks with
  | [] => mret tt
  | inp :: rest => tick rate inp;; run_loop rate rest
  end.

(** [_run]: [opened] is the sample rate of the stream, or [None] when
    [_open_audio_stream] raises; [t0] is the clock when the loop starts. *)
Definition run (opened : option Z) (t0 : R) (ticks : list TickInput)
    (self : Engine) : Result unit * RunState :=
  let st := {| engine := self; last_send := t0; pushes := [] |} in
  match opened with
  | None => (Raise OSError, st)
  | Some rate => run_loop rate ticks st
  end.

(** *** The reference algorithm of [update_and_normalize]

    Written after the words of the specification (section 4.1), one band at
    a time, to be compared with the loop above. *)

(** [clamp(x, lo, hi)] *)
Definition spec_clamp (x lo hi : R) : R := Rmax lo (Rmin x hi).

(** Step 1: append to the bounded history, evicting the oldest sample past
    the capacity. *)
Definition spec_append (capacity : nat) (history : list R) (x : R) : list R :=
  let h := history ++ [x] in
  if (capacity <? length h)%nat then tail h else h.

(** Steps 2 to 5, on the history that holds the new sample. *)
Definition spec_emit (history : list R) (energy : R) : R :=
  if (length history <? 20)%nat then 0
  else
    let median := np_median history in
    let p90 := np_percentile90 history in
    if Rle_dec p90 median then 0
    else tanh (spec_clamp ((energy - median) / (p90 - median + 1e-9)) 0 2).


(** A sequence of calls of [update_and_normalize], oldest first, with the
    result of each. *)
Fixpoint feed (calls : list (list R)) (st : AdaptiveEnergy)
    : list (Result (list R)) * AdaptiveEnergy :=
  match calls with
  | [] => ([], st)
  | raw :: rest =>
      let (r, st) := update_and_normalize raw st in
      let (rs, st) := feed rest st in
      (r :: rs, st)
  end.

(** An engine as its constructor leaves it: ten bands. *)
Definition ten_bands (e : Engine) : Prop :=
  num_bands (settings e) = 10%Z /\
  length (band_hist (energy_norm e)) = 10%nat.

(** *** The rate limiter of [_run] *)

(** Consecutive pushes are more than [interval] apart. *)
Fixpoint spaced (interval : R) (ps : list (R * Push)) : Prop :=
  match ps with
  | p1 :: rest =>
      match rest with
      | p2 :: _ => fst p2 - fst p1 > interval
      | [] => True
      end ∧ spaced interval rest
  | [] => True
  end.

(** The clock value of the last push, [t0] before the first one. *)
Definition last_push_time (t0 : R) (ps : list (R * Push)) : R :=
  match last ps with
  | Some p => fst p
  | None => t0
  end.

(** The loop invariant of [_run]: the pushes are spaced, and [last_send] is
    the clock value of the last push ([t0] before the first one). *)
Definition limiter_inv (interval t0 : R) (st : RunState) : Prop :=
  update_interval (settings (engine st)) = interval ∧
  spaced interval (pushes st) ∧
  last_send st = last_push_time t0 (pushes st).

(** *** The colour of a push *)

(** The colour pushed for band values [bn]. *)
Definition push_of_bands (bn : list R) : Push :=
  let '(hue, saturation, brightness) := color_of_bands bn in
  {| push_hue := hue; push_saturation := saturation;
     push_brightness := brightness |}.

(** The histories of the engine are too short, and will stay so for the
    next [k] frames or for ever, for the normalizer to emit anything. *)
Definition warming_up (k : nat) (e : Engine) : Prop :=
  ten_bands e /\
  (Forall (fun h => (length h + k <= 19)%nat) (band_hist (energy_norm e)) \/
   ((maxlen (energy_norm e) <= 19)%nat /\
    Forall (fun h => (length h <= maxlen (energy_norm e))%nat)
           (band_hist (energy_norm e)))).

(** What [np.abs] guarantees of the spectrum of a frame. *)
Definition nonneg_frame (inp : TickInput) : Prop :=
  match inp with
  | ReadError => True
  | Frame _ mag _ _ => Forall (fun v => 0 <= v) mag
  end.

(** The histories hold no negative energy. *)
Definition nonneg_history (e : Engine) : Prop :=
  Forall (Forall (fun v => 0 <= v)) (band_hist (energy_norm e)).


End AudioSync.

(** ** [screen_sync.py] *)

Module ScreenSync.

(** [config.ScreenSettings] *)
Record ScreenSettings : Type := {
  refresh_rate : Z;
  smoothing_factor : R;
  gamma_correction : R;
  saturation_boost : R;
  min_brightness : Z;
  max_brightness : Z;
  power_factor : R;
  monitor_index : Z;
}.

Definition default_settings : ScreenSettings :=
  {| refresh_rate := 60; smoothing_factor := 0.4; gamma_correction := 1.2;
     saturation_boost := 1.5; min_brightness := 10; max_brightness := 80;
     power_factor := 1.8; monitor_index := 1 |}.

Definition lerp (start end_ factor : R) : R :=
  start + (end_ - start) * factor.

Definition lerp_hue (start end_ factor : R) : R :=
  let diff := end_ - start in
  let (start, end_) :=
    if Rgt_dec (Rabs diff) 180
    then (if Rgt_dec end_ start then (start + 360, end_)
          else (start, end_ + 360))
    else (start, end_) in
  let result := lerp start end_ factor in
  float_mod result 360.

(** One channel of [apply_gamma_correction]: [int(255 * ((c / 255) ** gamma))].
    A channel is a pixel average, never negative. *)
Definition gamma_channel (gamma : R) (c : N) : Result Z :=
  match float_pow (IZR (Z.of_N c) / 255) gamma with
  | Ok p => Ok (int_of_float (255 * p))
  | Raise e => Raise e
  end.

Definition apply_gamma_correction (color : N * N * N) (gamma : R)
    : Result (Z * Z * Z) :=
  let '(r, g, b) := color in
  match gamma_channel gamma r, gamma_channel gamma g, gamma_channel gamma b with
  | Ok r', Ok g', Ok b' => Ok (r', g', b')
  | Raise e, _, _ => Raise e
  | _, Raise e, _ => Raise e
  | _, _, Raise e => Raise e
  end.

(** [colorsys.rgb_to_hsv] of the Python standard library. *)
Definition rgb_to_hsv (r g b : R) : R * R * R :=
  let maxc := Rmax (Rmax r g) b in
  let minc := Rmin (Rmin r g) b in
  let rangec := maxc - minc in
  let v := maxc in
  if Req_dec_T minc maxc then (0, 0, v)
  else
    let s := rangec / maxc in
    let rc := (maxc - r) / rangec in
    let gc := (maxc - g) / rangec in
    let bc := (maxc - b) / rangec in
    let h :=
      if Req_dec_T r maxc then bc - gc
      else if Req_dec_T g maxc then 2 + rc - bc
      else 4 + gc - rc in
    (float_mod (h / 6) 1, s, v).

(** *** class ScreenSyncEngine *)

Record Engine : Type := {
  settings : ScreenSettings;
  stop_event : option bool;
  task : option nat;
  user_brightness : Z;
  current_hue : R;
  current_sat : R;
  current_brightness : R;
}.

Definition set_stop_event (v : option bool) (self : Engine) : Engine :=
  {| settings := settings self; stop_event := v; task := task self;
     user_brightness := user_brightness self;
     current_hue := current_hue self; current_sat := current_sat self;
     current_brightness := current_brightness self |}.
Definition set_task (v : option nat) (self : Engine) : Engine :=
  {| settings := settings self; stop_event := stop_event self; task := v;
     user_brightness := user_brightness self;
     current_hue := current_hue self; current_sat := current_sat self;
     current_brightness := current_brightness self |}.
Definition set_current (h s b : R) (self : Engine) : Engine :=
  {| settings := settings self; stop_event := stop_event self;
     task := task self; user_brightness := user_brightness self;
     current_hue := h; current_sat := s; current_brightness := b |}.

(** [ScreenSyncEngine.__init__] *)
Definition new_Engine (settings : ScreenSettings) : Engine :=
  {| settings := settings; stop_event := None; task := None;
     user_brightness := 80;
     current_hue := 0; current_sat := 50; current_brightness := 60 |}.

Definition set_user_brightness (value : Z) (self : Engine) : Engine :=
  {| settings := settings self; stop_event := stop_event self;
     task := task self;
     user_brightness := Z.max 1 (Z.min 100 value);
     current_hue := current_hue self; current_sat := current_sat self;
     current_brightness := current_brightness self |}.

(** [self._task and not self._task.done()] *)
Definition running (self : Engine) (loop : EventLoop) : bool :=
  match task self with
  | Some t => negb (done loop t)
  | None => false
  end.

Definition start : M (Engine * EventLoop) unit :=
  fun '(self, loop) =>
    if running self loop then (Ok tt, (self, loop))
    else
      let self := set_stop_event (Some false) self in
      let (t, loop) := create_task loop in
      (Ok tt, (set_task (Some t) self, loop)).

Definition stop (exit_ok : nat -> bool) : M (Engine * EventLoop) unit :=
  fun '(self, loop) =>
    match task self with
    | None => (Ok tt, (self, loop))
    | Some t =>
        let self :=
          match stop_event self with
          | Some _ => set_stop_event (Some true) self
          | None => self
          end in
        match await_task (exit_ok t) t loop with
        | (Ok _, loop) => (Ok tt, (set_task None self, loop))
        | (Raise e, loop) => (Raise e, (self, loop))
        end
    end.

(** [_get_weighted_avg_color], from the colour [avg_color] returned by
    [_get_average_screen_color] for the captured frame. *)
Definition get_weighted_avg_color (avg_color : N * N * N) (self : Engine)
    : Result (Z * Z * Z) :=
  match apply_gamma_correction avg_color (gamma_correction (settings self)) with
  | Raise e => Raise e
  | Ok (cr, cg, cb) =>
      let '(h, s, v) :=
        rgb_to_hsv (IZR cr / 255) (IZR cg / 255) (IZR cb / 255) in
      let s := Rmin (s * saturation_boost (settings self)) 1 in
      let brightness := int_of_float (IZR (user_brightness self) * v) in
      let brightness :=
        Z.max (min_brightness (settings self))
              (Z.min brightness (max_brightness (settings self))) in
      let hue := int_of_float (h * 360) in
      let saturation := Z.max 10 (int_of_float (s * 100)) in
      Ok (hue, saturation, brightness)
  end.

Definition update_colors (avg_color : N * N * N) : M Engine (Z * Z * Z) :=
  fun self =>
    match get_weighted_avg_color avg_color self with
    | Raise e => (Raise e, self)
    | Ok (target_hue, target_sat, target_brightness) =>
        let f := smoothing_factor (settings self) in
        let h := lerp_hue (current_hue self) (IZR target_hue) f in
        let s := lerp (current_sat self) (IZR target_sat) f in
        let b := lerp (current_brightness self) (IZR target_brightness) f in
        (Ok (int_of_float h, int_of_float s, int_of_float b),
         set_current h s b self)
    end.

(** What one iteration of the [while] loop of [_run] meets: the average
    colour of the captured frame, a brightness the user may have set since
    the previous iteration, and whether [set_color] succeeds. *)
Record TickInput : Type := {
  avg_color : N * N * N;
  user_set : option Z;
  push_ok : bool;
}.

Record RunState : Type := {
  engine : Engine;
  pushes : list Push;
}.

Definition tick (inp : TickInput) : M RunState unit :=
  fun st =>
    let self :=
      match user_set inp with
      | Some value => set_user_brightness value (engine st)
      | None => engine st
      end in
    match update_colors (avg_color inp) self with
    | (Raise e, self) => (Raise e, {| engine := self; pushes := pushes st |})
    | (Ok (hue, sat, brightness), self) =>
        let st := {| engine := self;
                     pushes := pushes st ++
                       [{| push_hue := hue;
                           push_saturation := sat;
                           push_brightness := brightness |}] |} in
        if push_ok inp then (Ok tt, st) else (Raise DeviceError, st)
    end.

Fixpoint run_loop (ticks : list TickInput) : M RunState unit :=
  match ticks with
  | [] => mret tt
  | inp :: rest => tick inp;; run_loop rest
  end.

(** [_run]; [1.0 / refresh_rate] raises for a zero rate. *)
Definition run (ticks : list TickInput) (self : Engine)
    : Result unit * RunState :=
  let st := {| engine := self; pushes := [] |} in
  if (refresh_rate (settings self) =? 0)%Z then (Raise ArithmeticError, st)
  else run_loop ticks st.

(** *** The brightness bounds *)

(** The smoothed brightness of an engine lies within the bounds of its
    settings. *)
Definition brightness_inv (ss : ScreenSettings) (e : Engine) : Prop :=
  settings e = ss /\
  IZR (min_brightness ss) <= current_brightness e <= IZR (max_brightness ss).

Definition within_bounds (ss : ScreenSettings) (p : Push) : Prop :=
  (min_brightness ss <= push_brightness p <= max_brightness ss)%Z.

(** *** Hue and saturation *)

(** The smoothed saturation of an engine lies in [[10, 100]]. *)
Definition saturation_inv (ss : ScreenSettings) (e : Engine) : Prop :=
  settings e = ss /\ 10 <= current_sat e <= 100.

Definition hue_saturation_ok (p : Push) : Prop :=
  (0 <= push_hue p <= 359)%Z /\ (10 <= push_saturation p <= 100)%Z.

(** The same frame at every iteration, the user leaving the brightness
    alone and every push succeeding. *)
Definition still_frame (avg : N * N * N) : TickInput :=
  {| avg_color := avg; user_set := None; push_ok := true |}.

(** The smoothed colour an engine starts from, as pushed. *)
Definition initial_colour : Push :=
  {| push_hue := 0; push_saturation := 50; push_brightness := 60 |}.

(** The smoothed colour of the engine is still the initial one. *)
Definition frozen (ss : ScreenSettings) (e : Engine) : Prop :=
  settings e = ss /\ current_hue e = 0 /\ current_sat e = 50 /\
  current_brightness e = 60.


End ScreenSync.

(** ** [tapo_controller.py] *)

(** Requests that leave the program during a coordinator call. *)
Inductive Request : Type :=
| Discover               (* [discover_device_ip]: the address scan *)
| Connect (ip : string)  (* [ApiClient.l530(ip)] *)
| PowerOn                (* [device.on()] *)
| PowerOff.              (* [device.off()] *)

(** What the outside world answers during one coordinator call. *)
Record Env : Type := {
  discovered : option string;   (* the result of [discover_device_ip] *)
  connect_ok : bool;
  on_ok : bool;
  off_ok : bool;
  exit_ok : nat -> bool;        (* task [t], told to stop, exits cleanly *)
}.

Module Tapo.

(** [_device] is the handle returned by [l530], here the address it was
    opened for. *)
Record TapoController : Type := {
  client : bool;
  device : option string;
  device_ip : option string;
}.

Definition new_TapoController : TapoController :=
  {| client := false; device := None; device_ip := None |}.

Definition connect (env : Env) (ip : string)
    : M (TapoController * list Request) unit :=
  fun '(self, reqs) =>
    if bool_decide (is_Some (device self) ∧ device_ip self = Some ip)
    then (Ok tt, (self, reqs))
    else
      let self := {| client := true; device := device self;
                     device_ip := device_ip self |} in
      let reqs := reqs ++ [Connect ip] in
      if connect_ok env
      then (Ok tt, ({| client := true; device := Some ip;
                       device_ip := Some ip |}, reqs))
      else (Raise DeviceError, (self, reqs)).

Definition ensure_on (env : Env) : M (TapoController * list Request) unit :=
  fun '(self, reqs) =>
    match device self with
    | None => (Raise (RuntimeError "Device not connected."), (self, reqs))
    | Some _ =>
        let reqs := reqs ++ [PowerOn] in
        if on_ok env then (Ok tt, (self, reqs))
        else (Raise DeviceError, (self, reqs))
    end.

Definition ensure_off (env : Env) : M (TapoController * list Request) unit :=
  fun '(self, reqs) =>
    match device self with
    | None => (Ok tt, (self, reqs))
    | Some _ =>
        let reqs := reqs ++ [PowerOff] in
        if off_ok env then (Ok tt, (self, reqs))
        else (Raise DeviceError, (self, reqs))
    end.

End Tapo.

(** *** [discover_device_ip], the scan itself

    The coordinator below takes the result of the scan from its
    environment; here is the scan. *)

Module Discovery.

(** [f"{scan_base}.{i}"] *)
Definition address (scan_base : string) (i : Z) : string :=
  (scan_base +:+ "." +:+ pretty i)%string.

(** The [for] loop over the candidates [i]: [probe ip] tells whether the
    three requests of the [try] block succeed for the address [ip]. The
    result comes with the addresses probed, in order. *)
Fixpoint scan (probe : string -> bool) (scan_base : string)
    (candidates : list Z) : option string * list string :=
  match candidates with
  | [] => (None, [])
  | i :: rest =>
      let ip := address scan_base i in
      if probe ip then (Some ip, [ip])
      else
        let (r, probed) := scan probe scan_base rest in
        (r, ip :: probed)
  end.

(** [range(start, end + 1)] *)
Definition discover_device_ip (probe : string -> bool) (scan_base : string)
    (start end_ : Z) : option string * list string :=
  scan probe scan_base (seqZ start (end_ + 1 - start)).

End Discovery.

(** ** [sync_manager.py] *)

Module SyncManager.

Inductive SyncMode : Type := AUDIO | SCREEN.

Record SyncCoordinator : Type := {
  controller : Tapo.TapoController;
  audio_engine : option AudioSync.Engine;
  screen_engine : option ScreenSync.Engine;
  active_mode : option SyncMode;
}.

(** The coordinator with what it shares with the rest of the process: the
    event loop its engines' tasks run in, and the requests sent out. *)
Record Sys : Type := {
  coord : SyncCoordinator;
  loop : EventLoop;
  requests : list Request;
}.

Definition set_audio_engine (v : option AudioSync.Engine) (s : Sys) : Sys :=
  {| coord := {| controller := controller (coord s); audio_engine := v;
                 screen_engine := screen_engine (coord s);
                 active_mode := active_mode (coord s) |};
     loop := loop s; requests := requests s |}.
Definition set_screen_engine (v : option ScreenSync.Engine) (s : Sys) : Sys :=
  {| coord := {| controller := controller (coord s);
                 audio_engine := audio_engine (coord s);
                 screen_engine := v;
                 active_mode := active_mode (coord s) |};
     loop := loop s; requests := requests s |}.
Definition set_active_mode (v : option SyncMode) (s : Sys) : Sys :=
  {| coord := {| controller := controller (coord s);
                 audio_engine := audio_engine (coord s);
                 screen_engine := screen_engine (coord s);
                 active_mode := v |};
     loop := loop s; requests := requests s |}.

(** The controller and the requests, as the state of a controller method. *)
Definition get_ctl (s : Sys) : Tapo.TapoController * list Request :=
  (controller (coord s), requests s).
Definition set_ctl (v : Tapo.TapoController * list Request) (s : Sys) : Sys :=
  {| coord := {| controller := fst v;
                 audio_engine := audio_engine (coord s);
                 screen_engine := screen_engine (coord s);
                 active_mode := active_mode (coord s) |};
     loop := loop s; requests := snd v |}.

(** An engine held in a slot and the event loop, as the state of an engine
    method called through the slot. *)
Definition on_audio (e : AudioSync.Engine)
    (m : M (AudioSync.Engine * EventLoop) unit) : M Sys unit :=
  fun s =>
    let '(r, (e', loop')) := m (e, loop s) in
    (r, {| coord := coord (set_audio_engine (Some e') s); loop := loop';
           requests := requests s |}).
Definition on_screen (e : ScreenSync.Engine)
    (m : M (ScreenSync.Engine * EventLoop) unit) : M Sys unit :=
  fun s =>
    let '(r, (e', loop')) := m (e, loop s) in
    (r, {| coord := coord (set_screen_engine (Some e') s); loop := loop';
           requests := requests s |}).

(** [SyncCoordinator.__init__] in a fresh event loop. *)
Definition initial : Sys :=
  {| coord := {| controller := Tapo.new_TapoController;
                 audio_engine := None; screen_engine := None;
                 active_mode := None |};
     loop := []; requests := [] |}.

(** Python truth value of an [Optional[str]]: [None] and the empty string
    are false. *)
Definition truthy (ip : option string) : option string :=
  match ip with
  | Some s => if bool_decide (s = ""%string) then None else Some s
  | None => None
  end.

(** Lines 72-74: [if self._audio_engine: ...] *)
Definition stop_audio (env : Env) : M Sys unit :=
  ae ← gets (fun s => audio_engine (coord s));
  match ae with
  | Some e => on_audio e (AudioSync.stop (exit_ok env));;
              modify (set_audio_engine None)
  | None => mret tt
  end.

(** Lines 75-77: [if self._screen_engine: ...] *)
Definition stop_screen (env : Env) : M Sys unit :=
  se ← gets (fun s => screen_engine (coord s));
  match se with
  | Some e => on_screen e (ScreenSync.stop (exit_ok env));;
              modify (set_screen_engine None)
  | None => mret tt
  end.

Definition stop (env : Env) : M Sys unit :=
  stop_audio env;;
  stop_screen env;;
  try_pass (zoom get_ctl set_ctl (Tapo.ensure_off env));;
  modify (set_active_mode None).

Definition discover_device_ip (env : Env) : M Sys (option string) :=
  fun s => (Ok (discovered env),
            {| coord := coord s; loop := loop s;
               requests := requests s ++ [Discover] |}).

(** Lines 40-48: the branch [mode == SyncMode.AUDIO]; [pyaudio] tells
    whether the audio backend could be imported. *)
Definition start_audio (pyaudio : bool) (env : Env)
    (device_ip : option string)
    (audio_settings : AudioSync.AudioSettings) : M Sys unit :=
  match truthy device_ip with
  | None => raise (ValueError "Device IP is required for audio sync.")
  | Some ip =>
      zoom get_ctl set_ctl (Tapo.connect env ip);;
      zoom get_ctl set_ctl (Tapo.ensure_on env);;
      e ← lift (AudioSync.new_Engine pyaudio audio_settings);
      modify (set_audio_engine (Some e));;
      on_audio e AudioSync.start;;
      modify (set_active_mode (Some AUDIO))
  end.

(** Lines 51-67: the branch [mode == SyncMode.SCREEN]. *)
Definition start_screen (env : Env) (device_ip : option string)
    (screen_settings : ScreenSync.ScreenSettings)
    (screen_brightness : option Z) : M Sys unit :=
  ip ← match truthy device_ip with
       | Some ip => mret (Some ip)
       | None => discover_device_ip env
       end;
  match truthy ip with
  | None => raise (RuntimeError "Device not found. Enter its IP and try again.")
  | Some ip =>
      zoom get_ctl set_ctl (Tapo.connect env ip);;
      zoom get_ctl set_ctl (Tapo.ensure_on env);;
      let e := ScreenSync.new_Engine screen_settings in
      let e := match screen_brightness with
               | Some v => ScreenSync.set_user_brightness v e
               | None => e
               end in
      modify (set_screen_engine (Some e));;
      on_screen e ScreenSync.start;;
      modify (set_active_mode (Some SCREEN))
  end.

(** The last [raise ValueError("Unsupported sync mode.")] is not reached
    for a [mode] of the enumeration. *)
Definition start (pyaudio : bool) (env : Env) (mode : SyncMode)
    (device_ip : option string)
    (audio_settings : AudioSync.AudioSettings)
    (screen_settings : ScreenSync.ScreenSettings)
    (screen_brightness : option Z) : M Sys unit :=
  stop env;;
  match mode with
  | AUDIO => start_audio pyaudio env device_ip audio_settings
  | SCREEN => start_screen env device_ip screen_settings screen_brightness
  end.

Definition set_screen_brightness (value : Z) (s : Sys) : Sys :=
  match screen_engine (coord s) with
  | Some e => set_screen_engine (Some (ScreenSync.set_user_brightness value e)) s
  | None => s
  end.

End SyncManager.

(** ** Driving the coordinator *)

Module Driver.
Import SyncManager.

(** A call of the coordinator's public interface. *)
Inductive Call : Type :=
| CallStart (mode : SyncMode) (device_ip : option string)
    (audio_settings : AudioSync.AudioSettings)
    (screen_settings : ScreenSync.ScreenSettings)
    (screen_brightness : option Z)
| CallStop.

(** What happens to a coordinator over time: a call, awaited to its end in
    the environment [env], or, between two calls, the background loop of
    task [t] ending on its own with an exception. *)
Inductive Event : Type :=
| Invoke (env : Env) (c : Call)
| LoopDies (t : nat).

Definition exec_call (pyaudio : bool) (env : Env) (c : Call) : M Sys unit :=
  match c with
  | CallStart mode ip a s b => start pyaudio env mode ip a s b
  | CallStop => stop env
  end.

Definition loop_dies (t : nat) (s : Sys) : Sys :=
  match loop s !! t with
  | Some Pending => {| coord := coord s; loop := <[t := Failed]> (loop s);
                       requests := requests s |}
  | _ => s
  end.

Definition exec_event (pyaudio : bool) (ev : Event) (s : Sys) : Sys :=
  match ev with
  | Invoke env c => snd (exec_call pyaudio env c s)
  | LoopDies t => loop_dies t s
  end.

(** The state after a history of events, oldest first. *)
Definition run_events (pyaudio : bool) (evs : list Event) (s : Sys) : Sys :=
  fold_left (fun s ev => exec_event pyaudio ev s) evs s.

(** The number of background loops still running in the event loop: every
    loop is the [_run] of one engine instance. *)
Definition running_engines (s : Sys) : nat :=
  length (filter (fun t => t = Pending) (loop s)).

Definition audio_running (s : Sys) : bool :=
  match audio_engine (coord s) with
  | Some e => AudioSync.running e (loop s)
  | None => false
  end.

Definition screen_running (s : Sys) : bool :=
  match screen_engine (coord s) with
  | Some e => ScreenSync.running e (loop s)
  | None => false
  end.

(** The task of the engine held in each slot. *)
Definition audio_task (s : Sys) : option nat :=
  audio_engine (coord s) ≫= AudioSync.task.
Definition screen_task (s : Sys) : option nat :=
  screen_engine (coord s) ≫= ScreenSync.task.

(** No loop runs unattended: a running loop is the task of an engine the
    coordinator holds. *)
Definition attended (s : Sys) : Prop :=
  ∀ t, loop s !! t = Some Pending →
       audio_task s = Some t ∨ screen_task s = Some t.

(** Nothing runs and nothing is recorded. *)
Definition idle (s : Sys) : Prop :=
  audio_engine (coord s) = None ∧ screen_engine (coord s) = None ∧
  active_mode (coord s) = None ∧ ∀ t, loop s !! t ≠ Some Pending.

(** What is promised once a call of [start] or [stop] has returned. *)
Definition consistent (s : Sys) : Prop :=
  (running_engines s <= 1)%nat ∧
  (active_mode (coord s) ≠ None ↔ running_engines s = 1%nat) ∧
  (active_mode (coord s) = Some AUDIO ↔ audio_running s = true) ∧
  (active_mode (coord s) = Some SCREEN ↔ screen_running s = true).

(** A loop that runs in [s'] ran already in [s] and still belongs to the
    engine it belonged to. *)
Definition inherits (s s' : Sys) : Prop :=
  ∀ t, loop s' !! t = Some Pending ->
       loop s !! t = Some Pending ∧
       (audio_task s = Some t -> audio_task s' = Some t) ∧
       (screen_task s = Some t -> screen_task s' = Some t).

(** The slots, the mode and the event loop are those of [s]. *)
Definition same_engines (s s' : Sys) : Prop :=
  loop s' = loop s ∧ audio_engine (coord s') = audio_engine (coord s) ∧
  screen_engine (coord s') = screen_engine (coord s) ∧
  active_mode (coord s') = active_mode (coord s).

(** The requests sent between [s] and [s'] hold no address scan. *)
Definition no_discovery (s s' : Sys) : Prop :=
  ∃ rq, requests s' = requests s ++ rq ∧ Discover ∉ rq.

(** The request of the best-effort power-off of [stop]. *)
Definition power_off_request (s : Sys) : list Request :=
  match Tapo.device (controller (coord s)) with
  | Some _ => [PowerOff]
  | None => []
  end.

(** The address [start] connects to in the screen mode: the one given, or
    else the one discovered. *)
Definition resolved_address (env : Env) (device_ip : option string)
    : option string :=
  match truthy device_ip with
  | Some a => Some a
  | None => truthy (discovered env)
  end.


End Driver.

Import SyncManager Driver.

(** ** Concrete inputs *)

Module Sample.

(** An environment in which every request succeeds and every loop exits
    cleanly. *)
Definition env_ok : Env :=
  {| discovered := Some "192.168.1.23"%string; connect_ok := true;
     on_ok := true; off_ok := true; exit_ok := fun _ => true |}.

(** The same, but a loop told to stop ends with an exception. *)
Definition env_loop_fails : Env :=
  {| discovered := Some "192.168.1.23"%string; connect_ok := true;
     on_ok := true; off_ok := true; exit_ok := fun _ => false |}.

Definition start_audio_call (ip : option string) : Call :=
  CallStart AUDIO ip AudioSync.default_settings ScreenSync.default_settings
    None.

Definition start_screen_call (ip : option string) : Call :=
  CallStart SCREEN ip AudioSync.default_settings ScreenSync.default_settings
    (Some 70%Z).

(** An audio session, a switch to the screen mode, and a stop. *)
Definition session : list Event :=
  [Invoke env_ok (start_audio_call (Some "192.168.1.23"%string));
   Invoke env_ok (start_screen_call None);
   Invoke env_ok CallStop].

(** [AdaptiveEnergy(1, 300)] and nineteen calls of it. *)
Definition one_band : AudioSync.AdaptiveEnergy :=
  {| AudioSync.band_hist := [[]]; AudioSync.maxlen := 300 |}.

Definition prior_calls : list (list R) :=
  replicate 16 [0] ++ replicate 3 [10].

(** The default screen settings with the brightness capped at 50. *)
Definition dim_settings : ScreenSync.ScreenSettings :=
  {| ScreenSync.refresh_rate := 60; ScreenSync.smoothing_factor := 0.4;
     ScreenSync.gamma_correction := 1.2; ScreenSync.saturation_boost := 1.5;
     ScreenSync.min_brightness := 10; ScreenSync.max_brightness := 50;
     ScreenSync.power_factor := 1.8; ScreenSync.monitor_index := 1 |}.

(** The default screen settings with a smoothing factor above 1. *)
Definition overshoot_settings : ScreenSync.ScreenSettings :=
  {| ScreenSync.refresh_rate := 60; ScreenSync.smoothing_factor := 1.5;
     ScreenSync.gamma_correction := 1.2; ScreenSync.saturation_boost := 1.5;
     ScreenSync.min_brightness := 10; ScreenSync.max_brightness := 80;
     ScreenSync.power_factor := 1.8; ScreenSync.monitor_index := 1 |}.

Definition white_frame : ScreenSync.TickInput :=
  {| ScreenSync.avg_color := (255, 255, 255)%N; ScreenSync.user_set := None;
     ScreenSync.push_ok := true |}.

Definition black_frame : ScreenSync.TickInput :=
  {| ScreenSync.avg_color := (0, 0, 0)%N; ScreenSync.user_set := None;
     ScreenSync.push_ok := true |}.

(** A started audio engine with the default settings. *)
Definition audio_engine0 : AudioSync.Engine :=
  {| AudioSync.settings := AudioSync.default_settings;
     AudioSync.stop_event := Some false;
     AudioSync.task := Some 0%nat;
     AudioSync.energy_norm :=
       {| AudioSync.band_hist := replicate 10 [];
          AudioSync.maxlen := 300 |} |}.

(** An environment in which nothing answers: no address is discovered and
    no connection succeeds. *)
Definition env_unreachable : Env :=
  {| discovered := None; connect_ok := false; on_ok := true; off_ok := true;
     exit_ok := fun _ => true |}.

Definition lamp_ip : string := "192.168.1.23".

(** A controller connected to [lamp_ip]. *)
Definition connected : Tapo.TapoController :=
  {| Tapo.client := true; Tapo.device := Some lamp_ip;
     Tapo.device_ip := Some lamp_ip |}.

(** The default screen settings without smoothing. *)
Definition unsmoothed_settings : ScreenSync.ScreenSettings :=
  {| ScreenSync.refresh_rate := 60; ScreenSync.smoothing_factor := 0;
     ScreenSync.gamma_correction := 1.2; ScreenSync.saturation_boost := 1.5;
     ScreenSync.min_brightness := 10; ScreenSync.max_brightness := 80;
     ScreenSync.power_factor := 1.8; ScreenSync.monitor_index := 1 |}.

(** A one-band normalizer that keeps two samples. *)
Definition short_band : AudioSync.AdaptiveEnergy :=
  {| AudioSync.band_hist := [[]]; AudioSync.maxlen := 2 |}.


(** A started screen engine with the default settings. *)
Definition screen_engine0 : ScreenSync.Engine :=
  ScreenSync.set_task (Some 0%nat)
    (ScreenSync.set_stop_event (Some false)
       (ScreenSync.new_Engine ScreenSync.default_settings)).

End Sample.

(** * Properties *)

(** Evaluation of the model on concrete inputs; the real numbers in the
    records are carried along, not computed with. *)
Ltac evaluate :=
  cbv -[IZR Rdiv Rmult Rplus Rinv Rminus Ropp Rle_dec Rlt_dec Rgt_dec
        Req_dec_T Rpower tanh Int_part Rabs Rmin Rmax INR].

(** ** Engine life cycle *)

Lemma spawn_changes_loop (l : EventLoop) : l ++ [Pending] <> l.
Proof.
  intros H. apply (f_equal length) in H. rewrite length_app in H.
  cbn in H. lia.
Qed.

(** C9, amended. For both engines: [start] is a no-op (it returns with the
    engine and the event loop as they are, no second loop is created)
    exactly when the loop of the engine is running, that is, when the
    engine holds a task that is not done; [stop] is a no-op exactly when the
    engine holds no task (it was never started, or it was stopped). These
    two states are not all there is: an engine whose loop has ended on its
    own still holds its task, which is done. Such an engine is not running;
    [start] gives it a new loop, the last task of the event loop, and
    [stop] awaits the ended task: it raises the exception the loop ended
    with, if any, and otherwise returns with the task forgotten. *)
Theorem engine_start_stop_noop
    (ea : AudioSync.Engine) (es : ScreenSync.Engine) (loop : EventLoop)
    (exit_ok : nat -> bool) :
  (AudioSync.start (ea, loop) = (Ok tt, (ea, loop)) <->
   AudioSync.running ea loop = true) /\
  (AudioSync.stop exit_ok (ea, loop) = (Ok tt, (ea, loop)) <->
   AudioSync.task ea = None) /\
  (ScreenSync.start (es, loop) = (Ok tt, (es, loop)) <->
   ScreenSync.running es loop = true) /\
  (ScreenSync.stop exit_ok (es, loop) = (Ok tt, (es, loop)) <->
   ScreenSync.task es = None) /\
  (forall t, AudioSync.task ea = Some t -> done loop t = true ->
     AudioSync.running ea loop = false /\
     AudioSync.start (ea, loop) =
       (Ok tt, (AudioSync.set_task (Some (length loop))
                  (AudioSync.set_stop_event (Some false) ea),
                loop ++ [Pending])) /\
     (loop !! t = Some Failed ->
      fst (AudioSync.stop exit_ok (ea, loop)) = Raise LoopError) /\
     (loop !! t <> Some Failed ->
      exists ea', AudioSync.stop exit_ok (ea, loop) = (Ok tt, (ea', loop)) /\
                  AudioSync.task ea' = None)) /\
  (forall t, ScreenSync.task es = Some t -> done loop t = true ->
     ScreenSync.running es loop = false /\
     ScreenSync.start (es, loop) =
       (Ok tt, (ScreenSync.set_task (Some (length loop))
                  (ScreenSync.set_stop_event (Some false) es),
                loop ++ [Pending])) /\
     (loop !! t = Some Failed ->
      fst (ScreenSync.stop exit_ok (es, loop)) = Raise LoopError) /\
     (loop !! t <> Some Failed ->
      exists es', ScreenSync.stop exit_ok (es, loop) = (Ok tt, (es', loop)) /\
                  ScreenSync.task es' = None)).
Proof.
  split; [|split; [|split; [|split; [|split]]]].
  - unfold AudioSync.start. split.
    + destruct (AudioSync.running ea loop); [reflexivity|].
      cbn. intros H. exfalso. apply (spawn_changes_loop loop). congruence.
    + intros ->. reflexivity.
  - unfold AudioSync.stop, await_task. split.
    + destruct (AudioSync.task ea) as [t|] eqn:Ht; [|reflexivity].
      intros H. exfalso.
      destruct (loop !! t) as [[]|]; [destruct (exit_ok t)| | |];
        try discriminate;
        apply (f_equal (fun p => AudioSync.task (fst (snd p)))) in H;
        cbn in H; congruence.
    + intros ->. reflexivity.
  - unfold ScreenSync.start. split.
    + destruct (ScreenSync.running es loop); [reflexivity|].
      cbn. intros H. exfalso. apply (spawn_changes_loop loop). congruence.
    + intros ->. reflexivity.
  - unfold ScreenSync.stop, await_task. split.
    + destruct (ScreenSync.task es) as [t|] eqn:Ht; [|reflexivity].
      intros H. exfalso.
      destruct (loop !! t) as [[]|]; [destruct (exit_ok t)| | |];
        try discriminate;
        apply (f_equal (fun p => ScreenSync.task (fst (snd p)))) in H;
        cbn in H; congruence.
    + intros ->. reflexivity.
  - intros t Ht Hd.
    assert (AudioSync.running ea loop = false) as Hr
      by (unfold AudioSync.running; rewrite Ht, Hd; reflexivity).
    split; [exact Hr|].
    split; [unfold AudioSync.start; rewrite Hr; reflexivity|].
    unfold AudioSync.stop, await_task, done in *. rewrite Ht. split.
    + intros ->. reflexivity.
    + intros Hf. destruct (loop !! t) as [[]|]; try discriminate;
        try contradiction; eexists; split; reflexivity.
  - intros t Ht Hd.
    assert (ScreenSync.running es loop = false) as Hr
      by (unfold ScreenSync.running; rewrite Ht, Hd; reflexivity).
    split; [exact Hr|].
    split; [unfold ScreenSync.start; rewrite Hr; reflexivity|].
    unfold ScreenSync.stop, await_task, done in *. rewrite Ht. split.
    + intros ->. reflexivity.
    + intros Hf. destruct (loop !! t) as [[]|]; try discriminate;
        try contradiction; eexists; split; reflexivity.
Qed.

(** ** The coordinator *)

Section Coordinator.

Lemma no_pending_count (l : EventLoop) :
  (∀ t, l !! t ≠ Some Pending) -> length (filter (fun t => t = Pending) l) = 0%nat.
Proof.
  intros H. induction l as [|x l IH]; [reflexivity|].
  rewrite filter_cons. destruct (decide (x = Pending)) as [->|Hx].
  - exfalso. exact (H 0%nat eq_refl).
  - apply IH. intros t. exact (H (S t)).
Qed.

Lemma await_task_pending ok t l r l' :
  await_task ok t l = (r, l') ->
  (∀ u, l' !! u = Some Pending -> l !! u = Some Pending ∧ u ≠ t).
Proof.
  unfold await_task. intros H u Hu.
  destruct (l !! t) as [[]|] eqn:Ht; try destruct ok; simplify_eq;
    try (split; [assumption | intros ->; congruence]).
  all: destruct (decide (u = t)) as [->|Hne];
    [ rewrite list_lookup_insert_eq in Hu by (eapply lookup_lt_Some; eauto);
      discriminate
    | rewrite list_lookup_insert_ne in Hu by congruence; auto ].
Qed.

(** [stop] of an audio engine: no loop is created, the engine's own loop is
    no longer running, and a [stop] that returns leaves the engine without
    a task while a [stop] that raises leaves it its task. *)
Lemma audio_stop_spec ok e l r e' l' :
  AudioSync.stop ok (e, l) = (r, (e', l')) ->
  (∀ u, l' !! u = Some Pending ->
        l !! u = Some Pending ∧ AudioSync.task e ≠ Some u) ∧
  (r = Ok tt -> AudioSync.task e' = None) ∧
  (r ≠ Ok tt -> AudioSync.task e' = AudioSync.task e).
Proof.
  unfold AudioSync.stop. destruct (AudioSync.task e) as [t|] eqn:Ht.
  - destruct (await_task (ok t) t l) as [[[]|x] l1] eqn:Ha; intros H;
      simplify_eq; (split; [|split]).
    + intros u Hu. destruct (await_task_pending _ _ _ _ _ Ha u Hu).
      split; [assumption | congruence].
    + reflexivity.
    + congruence.
    + intros u Hu. destruct (await_task_pending _ _ _ _ _ Ha u Hu).
      split; [assumption | congruence].
    + discriminate.
    + intros _. destruct (AudioSync.stop_event e); assumption.
  - intros H; simplify_eq. repeat split; auto; congruence.
Qed.

Lemma screen_stop_spec ok e l r e' l' :
  ScreenSync.stop ok (e, l) = (r, (e', l')) ->
  (∀ u, l' !! u = Some Pending ->
        l !! u = Some Pending ∧ ScreenSync.task e ≠ Some u) ∧
  (r = Ok tt -> ScreenSync.task e' = None) ∧
  (r ≠ Ok tt -> ScreenSync.task e' = ScreenSync.task e).
Proof.
  unfold ScreenSync.stop. destruct (ScreenSync.task e) as [t|] eqn:Ht.
  - destruct (await_task (ok t) t l) as [[[]|x] l1] eqn:Ha; intros H;
      simplify_eq; (split; [|split]).
    + intros u Hu. destruct (await_task_pending _ _ _ _ _ Ha u Hu).
      split; [assumption | congruence].
    + reflexivity.
    + congruence.
    + intros u Hu. destruct (await_task_pending _ _ _ _ _ Ha u Hu).
      split; [assumption | congruence].
    + discriminate.
    + intros _. destruct (ScreenSync.stop_event e); assumption.
  - intros H; simplify_eq. repeat split; auto; congruence.
Qed.

Lemma bind_inv {S A B} (m : M S A) (k : A -> M S B) s r s' :
  (m ≫= k) s = (r, s') ->
  (∃ a s1, m s = (Ok a, s1) ∧ k a s1 = (r, s')) ∨
  (∃ e, m s = (Raise e, s') ∧ r = Raise e).
Proof.
  unfold mbind, M_bind. destruct (m s) as [[a|e] s1]; intros H.
  - left. eauto.
  - right. simplify_eq. eauto.
Qed.

Lemma inherits_refl s : inherits s s.
Proof. intros t Ht. auto. Qed.

Lemma inherits_trans s1 s2 s3 :
  inherits s1 s2 -> inherits s2 s3 -> inherits s1 s3.
Proof.
  intros H12 H23 t Ht. destruct (H23 t Ht) as (H2 & Ha2 & Hs2).
  destruct (H12 t H2) as (H1 & Ha1 & Hs1). auto.
Qed.

Lemma inherits_attended s s' : inherits s s' -> attended s -> attended s'.
Proof.
  intros Hi Ha t Ht. destruct (Hi t Ht) as (H & Hau & Hsc).
  destruct (Ha t H); auto.
Qed.

Lemma stop_audio_spec env s r s1 :
  stop_audio env s = (r, s1) ->
  inherits s s1 ∧
  controller (coord s1) = controller (coord s) ∧
  requests s1 = requests s ∧
  screen_engine (coord s1) = screen_engine (coord s) ∧
  active_mode (coord s1) = active_mode (coord s) ∧
  (r = Ok tt ->
     audio_engine (coord s1) = None ∧
     ∀ t, loop s1 !! t = Some Pending -> audio_task s ≠ Some t).
Proof.
  unfold stop_audio. intros H.
  apply bind_inv in H as [(ae & s0 & H0 & H)|(e & H0 & _)];
    [|discriminate]. unfold gets in H0. simplify_eq.
  destruct (audio_engine (coord s0)) as [ea|] eqn:Hae.
  - assert (∃ ra ea' la, AudioSync.stop (exit_ok env) (ea, loop s0) = (ra, (ea', la)))
      as (ra & ea' & la & Ha)
      by (destruct (AudioSync.stop (exit_ok env) (ea, loop s0)) as [ra [ea' la]]; eauto).
    destruct (audio_stop_spec _ _ _ _ _ _ Ha) as (Pa & Ta & Ta').
    unfold on_audio in H. 
    apply bind_inv in H as [([] & s2 & H1 & H)|(e & H1 & ->)];
      rewrite Ha in H1; unfold modify in *; simplify_eq; cbn.
    + split; [|repeat split; auto].
      * intros t Ht. cbn in Ht. destruct (Pa t Ht) as [Hp Hn].
        unfold audio_task, screen_task. rewrite Hae. cbn.
        split; [assumption|]. split; [congruence|auto].
      * intros t Ht Hx. cbn in Ht. destruct (Pa t Ht) as [Hp Hn].
        unfold audio_task in Hx. rewrite Hae in Hx. cbn in Hx. congruence.
    + split; [|repeat split; auto; discriminate].
      intros t Ht. cbn in Ht. destruct (Pa t Ht) as [Hp Hn].
      unfold audio_task, screen_task. rewrite Hae. cbn.
      split; [assumption|]. split; [|auto].
      rewrite Ta' by discriminate. auto.
  - cbv in H. simplify_eq. split; [apply inherits_refl|].
    repeat split; auto. unfold audio_task. rewrite Hae. discriminate.
Qed.

Lemma stop_screen_spec env s r s1 :
  stop_screen env s = (r, s1) ->
  inherits s s1 ∧
  controller (coord s1) = controller (coord s) ∧
  requests s1 = requests s ∧
  audio_engine (coord s1) = audio_engine (coord s) ∧
  active_mode (coord s1) = active_mode (coord s) ∧
  (r = Ok tt ->
     screen_engine (coord s1) = None ∧
     ∀ t, loop s1 !! t = Some Pending -> screen_task s ≠ Some t).
Proof.
  unfold stop_screen. intros H.
  apply bind_inv in H as [(ae & s0 & H0 & H)|(e & H0 & _)];
    [|discriminate]. unfold gets in H0. simplify_eq.
  destruct (screen_engine (coord s0)) as [ea|] eqn:Hae.
  - assert (∃ ra ea' la, ScreenSync.stop (exit_ok env) (ea, loop s0) = (ra, (ea', la)))
      as (ra & ea' & la & Ha)
      by (destruct (ScreenSync.stop (exit_ok env) (ea, loop s0)) as [ra [ea' la]]; eauto).
    destruct (screen_stop_spec _ _ _ _ _ _ Ha) as (Pa & Ta & Ta').
    unfold on_screen in H. 
    apply bind_inv in H as [([] & s2 & H1 & H)|(e & H1 & ->)];
      rewrite Ha in H1; unfold modify in *; simplify_eq; cbn.
    + split; [|repeat split; auto].
      * intros t Ht. cbn in Ht. destruct (Pa t Ht) as [Hp Hn].
        unfold audio_task, screen_task. rewrite Hae. cbn.
        split; [assumption|]. split; [auto|congruence].
      * intros t Ht Hx. cbn in Ht. destruct (Pa t Ht) as [Hp Hn].
        unfold screen_task in Hx. rewrite Hae in Hx. cbn in Hx. congruence.
    + split; [|repeat split; auto; discriminate].
      intros t Ht. cbn in Ht. destruct (Pa t Ht) as [Hp Hn].
      unfold audio_task, screen_task. rewrite Hae. cbn.
      split; [assumption|]. split; [auto|].
      rewrite Ta' by discriminate. auto.
  - cbv in H. simplify_eq. split; [apply inherits_refl|].
    repeat split; auto. unfold screen_task. rewrite Hae. discriminate.
Qed.


Lemma stop_spec env s r s' :
  stop env s = (r, s') ->
  inherits s s' ∧
  controller (coord s') = controller (coord s) ∧
  (requests s' = requests s ∨ requests s' = requests s ++ [PowerOff]) ∧
  (r = Ok tt ->
     audio_engine (coord s') = None ∧ screen_engine (coord s') = None ∧
     active_mode (coord s') = None ∧
     requests s' = requests s ++ power_off_request s ∧
     ∀ t, loop s' !! t = Some Pending ->
          audio_task s ≠ Some t ∧ screen_task s ≠ Some t).
Proof.
  unfold stop. intros H.
  apply bind_inv in H as [([] & s1 & H1 & H)|(e & H1 & ->)].
  2:{ destruct (stop_audio_spec _ _ _ _ H1) as (Hi & Hc & Hr & _).
      split; [assumption|]. split; [assumption|].
      split; [left; assumption|]. intros ?; discriminate. }
  destruct (stop_audio_spec _ _ _ _ H1) as (Hi1 & Hc1 & Hr1 & Hs1 & Hm1 & Ho1).
  destruct (Ho1 eq_refl) as [Ha1 Hp1].
  apply bind_inv in H as [([] & s2 & H2 & H)|(e & H2 & ->)].
  2:{ destruct (stop_screen_spec _ _ _ _ H2) as (Hi & Hc & Hr & _).
      split; [eapply inherits_trans; eauto|]. split; [congruence|].
      split; [left; congruence|]. intros ?; discriminate. }
  destruct (stop_screen_spec _ _ _ _ H2) as (Hi2 & Hc2 & Hr2 & Hs2 & Hm2 & Ho2).
  destruct (Ho2 eq_refl) as [Ha2 Hp2].
  apply bind_inv in H as [([] & s3 & H3 & H)|(e & H3 & ->)];
    [|unfold try_pass in H3; discriminate].
  unfold modify in H. simplify_eq.
  unfold try_pass, zoom, get_ctl, Tapo.ensure_off in H3.
  assert (loop s3 = loop s2 ∧ audio_engine (coord s3) = None ∧
          screen_engine (coord s3) = None ∧
          controller (coord s3) = controller (coord s2) ∧
          requests s3 = requests s2 ++ power_off_request s2) as (Hl3 & Ha3 & Hs3 & Hc3 & Hr3).
  { unfold power_off_request.
    destruct (Tapo.device (controller (coord s2))); [destruct (off_ok env)|];
      simplify_eq; cbn; rewrite ?app_nil_r; repeat split; congruence. }
  cbn. split.
  - apply inherits_trans with s2; [apply inherits_trans with s1; assumption|].
    intros t Ht. cbn in Ht. rewrite Hl3 in Ht.
    unfold audio_task, screen_task. rewrite Hs2, Ha1, Ha2. cbn.
    split; [assumption|]. split; intros ?; discriminate.
  - split; [congruence|].
    assert (power_off_request s2 = power_off_request s) as Hpo
      by (unfold power_off_request; rewrite Hc2, Hc1; reflexivity).
    split.
    { rewrite Hr3, Hr2, Hr1, Hpo. unfold power_off_request.
      destruct (Tapo.device (controller (coord s))); rewrite ?app_nil_r; auto. }
    intros _. split; [assumption|]. split; [assumption|].
    split; [reflexivity|]. split.
    { rewrite Hr3, Hr2, Hr1, Hpo. reflexivity. }
    intros t Ht. cbn in Ht. rewrite Hl3 in Ht. split.
    + destruct (Hi2 t Ht) as (Hp & _). apply Hp1. assumption.
    + destruct (Hi2 t Ht) as (Hp & _ & Hsc). intros Hx.
      apply (Hp2 t Ht). unfold screen_task in *. congruence.
Qed.

Lemma stop_ok_idle env s s' :
  attended s -> stop env s = (Ok tt, s') -> idle s'.
Proof.
  intros Hatt H. destruct (stop_spec _ _ _ _ H) as (Hi & _ & _ & Hok).
  destruct (Hok eq_refl) as (Ha & Hs & Hm & _ & Hp).
  repeat split; auto. intros t Ht.
  destruct (Hp t Ht) as [Hna Hns]. destruct (Hi t Ht) as (Hpt & _).
  destruct (Hatt t Hpt); contradiction.
Qed.

Lemma stop_idle env s :
  audio_engine (coord s) = None -> screen_engine (coord s) = None ->
  stop env s =
    (Ok tt, {| coord := {| controller := controller (coord s);
                           audio_engine := None; screen_engine := None;
                           active_mode := None |};
               loop := loop s;
               requests := requests s ++ power_off_request s |}).
Proof.
  destruct s as [[ctl ae se am] l rq]. cbn. intros -> ->.
  unfold stop, stop_audio, stop_screen, power_off_request.
  cbv [mbind M_bind mret M_ret gets modify try_pass zoom]. cbn.
  unfold Tapo.ensure_off. cbn.
  destruct (Tapo.device ctl); [destruct (off_ok env)|]; cbn;
    rewrite ?app_nil_r; reflexivity.
Qed.


Lemma no_discovery_refl s : no_discovery s s.
Proof. exists []. rewrite app_nil_r. split; [reflexivity|]. apply not_elem_of_nil. Qed.

Lemma no_discovery_trans s1 s2 s3 :
  no_discovery s1 s2 -> no_discovery s2 s3 -> no_discovery s1 s3.
Proof.
  intros (r1 & H1 & N1) (r2 & H2 & N2). exists (r1 ++ r2).
  rewrite H2, H1, app_assoc. split; [reflexivity|].
  rewrite elem_of_app. tauto.
Qed.


Lemma connect_spec env ip s r s' :
  zoom get_ctl set_ctl (Tapo.connect env ip) s = (r, s') ->
  same_engines s s' ∧ no_discovery s s'.
Proof.
  unfold zoom, get_ctl, Tapo.connect.
  destruct (bool_decide _); [|destruct (connect_ok env)];
    intros H; simplify_eq; cbn; (split; [repeat split|]).
  - exists []. cbn. rewrite app_nil_r. split; [reflexivity|apply not_elem_of_nil].
  - exists [Connect ip]. split; [reflexivity|]. rewrite list_elem_of_singleton. discriminate.
  - exists [Connect ip]. split; [reflexivity|]. rewrite list_elem_of_singleton. discriminate.
Qed.

Lemma ensure_on_spec env s r s' :
  zoom get_ctl set_ctl (Tapo.ensure_on env) s = (r, s') ->
  same_engines s s' ∧ no_discovery s s'.
Proof.
  unfold zoom, get_ctl, Tapo.ensure_on.
  destruct (Tapo.device _); [destruct (on_ok env)|];
    intros H; simplify_eq; cbn; (split; [repeat split|]).
  - exists [PowerOn]. split; [reflexivity|]. rewrite list_elem_of_singleton. discriminate.
  - exists [PowerOn]. split; [reflexivity|]. rewrite list_elem_of_singleton. discriminate.
  - exists []. cbn. rewrite app_nil_r. split; [reflexivity|apply not_elem_of_nil].
Qed.

Lemma same_engines_idle s s' : same_engines s s' -> idle s -> idle s'.
Proof.
  intros (Hl & Ha & Hs & Hm) (Ia & Is & Im & Ip).
  repeat split; try congruence; rewrite Hl; exact Ip.
Qed.

Lemma new_audio_engine_task pyaudio a e :
  AudioSync.new_Engine pyaudio a = Ok e -> AudioSync.task e = None.
Proof.
  unfold AudioSync.new_Engine.
  destruct (AudioSync.new_AdaptiveEnergy _ _); [|discriminate].
  destruct (negb pyaudio); [discriminate|].
  destruct (negb _); [discriminate|]. intros H; simplify_eq. reflexivity.
Qed.

Lemma count_after_spawn (l : EventLoop) :
  (∀ t, l !! t ≠ Some Pending) ->
  length (filter (fun t => t = Pending) (l ++ [Pending])) = 1%nat.
Proof.
  intros H. rewrite filter_app, length_app, no_pending_count by assumption.
  reflexivity.
Qed.

Lemma done_after_spawn (l : EventLoop) : done (l ++ [Pending]) (length l) = false.
Proof.
  unfold done. rewrite lookup_app_r by lia. rewrite Nat.sub_diag. reflexivity.
Qed.

Lemma attended_after_spawn (l : EventLoop) t :
  (∀ t, l !! t ≠ Some Pending) ->
  (l ++ [Pending]) !! t = Some Pending -> t = length l.
Proof.
  intros H Ht. destruct (decide (t < length l)%nat) as [Hlt|Hge].
  - rewrite lookup_app_l in Ht by assumption. destruct (H t Ht).
  - apply lookup_lt_Some in Ht. rewrite length_app in Ht. cbn in Ht. lia.
Qed.

Lemma start_audio_spec pyaudio env ip a s r s' :
  idle s ->
  start_audio pyaudio env ip a s = (r, s') ->
  no_discovery s s' ∧
  (r = Ok tt -> consistent s' ∧ attended s' ∧
                active_mode (coord s') = Some AUDIO) ∧
  (r ≠ Ok tt -> idle s').
Proof.
  intros Hidle. unfold start_audio. destruct (truthy ip) as [ip'|].
  2:{ unfold raise. intros H; simplify_eq.
      split; [apply no_discovery_refl|]. split; [discriminate|auto]. }
  intros H.
  apply bind_inv in H as [([] & s1 & H1 & H)|(e & H1 & ->)].
  2:{ destruct (connect_spec _ _ _ _ _ H1) as [Hs Hn].
      split; [assumption|]. split; [discriminate|].
      intros _. eapply same_engines_idle; eauto. }
  destruct (connect_spec _ _ _ _ _ H1) as [Hs1 Hn1].
  assert (idle s1) as Hidle1 by (eapply same_engines_idle; eauto).
  apply bind_inv in H as [([] & s2 & H2 & H)|(e & H2 & ->)].
  2:{ destruct (ensure_on_spec _ _ _ _ H2) as [Hs Hn].
      split; [eapply no_discovery_trans; eauto|]. split; [discriminate|].
      intros _. eapply same_engines_idle; eauto. }
  destruct (ensure_on_spec _ _ _ _ H2) as [Hs2 Hn2].
  assert (idle s2) as Hidle2 by (eapply same_engines_idle; eauto).
  assert (no_discovery s s2) as Hn by (eapply no_discovery_trans; eauto).
  clear H1 H2 Hs1 Hs2 Hn1 Hn2 Hidle1.
  apply bind_inv in H as [(e & s3 & H3 & H)|(x & H3 & ->)];
    unfold lift in H3; simplify_eq.
  2:{ split; [assumption|]. split; [discriminate|auto]. }
  rename s3 into s2.
  pose proof (new_audio_engine_task _ _ _ H0) as Htask.
  destruct Hidle2 as (Ia & Is & Im & Ip).
  unfold mbind, M_bind, modify, on_audio, AudioSync.start, AudioSync.running in H.
  rewrite Htask in H. cbn in H. simplify_eq.
  split.
  { destruct Hn as (rq & Hr & Hd). exists rq. cbn. auto. }
  split; [|intros Hx; exfalso; apply Hx; reflexivity].
  intros _. split; [|split; [|reflexivity]].
  - unfold consistent, running_engines, audio_running, screen_running. cbn.
    rewrite count_after_spawn by assumption. rewrite Is.
    unfold AudioSync.running. cbn. rewrite done_after_spawn. cbn.
    repeat split; auto; try discriminate.
  - intros t Ht. cbn in Ht. left. unfold audio_task. cbn.
    f_equal. symmetry. apply attended_after_spawn; assumption.
Qed.

Lemma discover_spec env s ip s' :
  discover_device_ip env s = (ip, s') -> same_engines s s'.
Proof. unfold discover_device_ip. intros H; simplify_eq. repeat split. Qed.

Lemma start_screen_spec env ip ss sb s r s' :
  idle s ->
  start_screen env ip ss sb s = (r, s') ->
  (r = Ok tt -> consistent s' ∧ attended s' ∧
                active_mode (coord s') = Some SCREEN) ∧
  (r ≠ Ok tt -> idle s').
Proof.
  intros Hidle. unfold start_screen. intros H.
  apply bind_inv in H as [(ip1 & s0 & H0 & H)|(e & H0 & ->)].
  2:{ destruct (truthy ip); [discriminate|].
      unfold discover_device_ip in H0. discriminate. }
  assert (idle s0) as Hidle0.
  { destruct (truthy ip).
    - cbv in H0. simplify_eq. assumption.
    - eapply same_engines_idle; [eapply discover_spec; eauto|assumption]. }
  clear H0 Hidle. destruct (truthy ip1) as [ip'|].
  2:{ unfold raise in H. simplify_eq. split; [discriminate|auto]. }
  apply bind_inv in H as [([] & s1 & H1 & H)|(e & H1 & ->)].
  2:{ destruct (connect_spec _ _ _ _ _ H1) as [Hs Hn].
      split; [discriminate|]. intros _. eapply same_engines_idle; eauto. }
  destruct (connect_spec _ _ _ _ _ H1) as [Hs1 Hn1].
  assert (idle s1) as Hidle1 by (eapply same_engines_idle; eauto).
  apply bind_inv in H as [([] & s2 & H2 & H)|(e & H2 & ->)].
  2:{ destruct (ensure_on_spec _ _ _ _ H2) as [Hs Hn].
      split; [discriminate|]. intros _. eapply same_engines_idle; eauto. }
  destruct (ensure_on_spec _ _ _ _ H2) as [Hs2 Hn2].
  assert (idle s2) as Hidle2 by (eapply same_engines_idle; eauto).
  clear H1 H2 Hs1 Hs2 Hn1 Hn2 Hidle1 Hidle0.
  destruct Hidle2 as (Ia & Is & Im & Ip).
  set (e := match sb with
            | Some v => ScreenSync.set_user_brightness v (ScreenSync.new_Engine ss)
            | None => ScreenSync.new_Engine ss
            end) in H.
  assert (ScreenSync.task e = None) as Htask by (subst e; destruct sb; reflexivity).
  unfold mbind, M_bind, modify, on_screen, ScreenSync.start, ScreenSync.running in H.
  rewrite Htask in H. cbn in H. simplify_eq.
  split; [|intros Hx; exfalso; apply Hx; reflexivity].
  intros _. split; [|split; [|reflexivity]].
  - unfold consistent, running_engines, audio_running, screen_running. cbn.
    rewrite count_after_spawn by assumption. rewrite Ia.
    unfold ScreenSync.running. cbn. rewrite done_after_spawn. cbn.
    repeat split; auto; try discriminate.
  - intros t Ht. cbn in Ht. right. unfold screen_task. cbn.
    f_equal. symmetry. apply attended_after_spawn; assumption.
Qed.

Lemma idle_attended s : idle s -> attended s.
Proof. intros (_ & _ & _ & Ip) t Ht. destruct (Ip t Ht). Qed.

Lemma idle_consistent s : idle s -> consistent s.
Proof.
  intros (Ia & Is & Im & Ip).
  unfold consistent, running_engines, audio_running, screen_running.
  rewrite no_pending_count, Ia, Is, Im by assumption.
  repeat split; auto; try discriminate; try congruence.
Qed.

Lemma exec_call_spec pyaudio env c s r s' :
  attended s ->
  exec_call pyaudio env c s = (r, s') ->
  attended s' ∧ (r = Ok tt -> consistent s').
Proof.
  intros Hatt. destruct c as [mode ip a ss sb|]; cbn [exec_call].
  - unfold start. intros H.
    apply bind_inv in H as [([] & s1 & H1 & H)|(e & H1 & ->)].
    + pose proof (stop_ok_idle _ _ _ Hatt H1) as Hidle.
      destruct mode.
      * destruct (start_audio_spec _ _ _ _ _ _ _ Hidle H) as (_ & Hok & Herr).
        destruct r as [[]|x].
        -- destruct (Hok eq_refl) as (Hc & Ha & _). auto.
        -- split; [|discriminate]. apply idle_attended, Herr. discriminate.
      * destruct (start_screen_spec _ _ _ _ _ _ _ Hidle H) as (Hok & Herr).
        destruct r as [[]|x].
        -- destruct (Hok eq_refl) as (Hc & Ha & _). auto.
        -- split; [|discriminate]. apply idle_attended, Herr. discriminate.
    + destruct (stop_spec _ _ _ _ H1) as (Hi & _).
      split; [|discriminate]. eapply inherits_attended; eauto.
  - intros H. destruct (stop_spec _ _ _ _ H) as (Hi & _).
    split; [eapply inherits_attended; eauto|].
    intros ->. apply idle_consistent. eapply stop_ok_idle; eauto.
Qed.

Lemma loop_dies_attended t s : attended s -> attended (loop_dies t s).
Proof.
  intros Hatt. unfold loop_dies.
  destruct (loop s !! t) as [[]|] eqn:Ht; try assumption.
  intros u Hu. cbn in Hu. unfold audio_task, screen_task. cbn.
  destruct (decide (u = t)) as [->|Hne].
  - rewrite list_lookup_insert_eq in Hu by (eapply lookup_lt_Some; eauto).
    discriminate.
  - rewrite list_lookup_insert_ne in Hu by congruence. apply (Hatt u Hu).
Qed.

Lemma run_events_attended pyaudio evs s :
  attended s -> attended (run_events pyaudio evs s).
Proof.
  revert s. induction evs as [|ev evs IH]; intros s Hatt; [assumption|].
  cbn. apply IH. destruct ev as [env c|t]; cbn.
  - destruct (exec_call pyaudio env c s) as [r s'] eqn:H.
    apply (exec_call_spec _ _ _ _ _ _ Hatt H).
  - apply loop_dies_attended. assumption.
Qed.

Lemma initial_attended : attended initial.
Proof. intros t Ht. cbn in Ht. discriminate. Qed.

End Coordinator.

(** C1, amended. Whatever calls of [start] (in either mode) and [stop]
    were made before, and whatever happened to the background loops
    meanwhile, once a call of [start] or [stop] has returned: at most one
    engine loop runs in the event loop; the recorded mode is set exactly
    when one loop runs, and it is then the loop of the engine of that mode
    held by the coordinator. A [stop] that follows a [stop] that returned
    returns as well and leaves the coordinator and the event loop as they
    are, but it is no no-op: once a device has been connected (the handle is
    never dropped), it sends the power-off request again. *)
Theorem coordinator_invariant
    (pyaudio : bool) (evs : list Event) (env : Env) (c : Call) (s' : Sys) :
  exec_call pyaudio env c (run_events pyaudio evs initial) = (Ok tt, s') ->
  consistent s' /\
  (c = CallStop ->
   forall env2, exists s2,
     stop env2 s' = (Ok tt, s2) /\ coord s2 = coord s' /\ loop s2 = loop s' /\
     requests s2 = requests s' ++ power_off_request s').
Proof.
  intros H.
  pose proof (run_events_attended pyaudio evs _ initial_attended) as Hatt.
  destruct (exec_call_spec _ _ _ _ _ _ Hatt H) as [Hatt' Hc].
  split; [auto|]. intros -> env2. cbn in H.
  destruct (stop_spec _ _ _ _ H) as (_ & _ & _ & Hok).
  destruct (Hok eq_refl) as (Ha & Hs & Hm & _).
  eexists. split; [apply stop_idle; assumption|]. cbn.
  repeat split. destruct s' as [[ctl ae se am] l rq]. cbn in *. congruence.
Qed.

(** A witness for C1: the state after a whole session and one more [stop]. *)
Lemma coordinator_invariant_witness :
  exists s',
    exec_call true Sample.env_ok CallStop
      (run_events true Sample.session initial) = (Ok tt, s') /\
    consistent s' /\ running_engines s' = 0%nat.
Proof.
  eexists. split; [evaluate; reflexivity|].
  split; [|reflexivity].
  refine (proj1 (coordinator_invariant true Sample.session Sample.env_ok
                   CallStop _ _)).
  evaluate. reflexivity.
Defined.

(** C1, as stated, fails at the second [stop]: after an audio session and
    the [stop] that ends it, a second [stop] sends the power-off request
    once more. *)
Lemma second_stop_counterexample :
  exists s1 s2,
    exec_call true Sample.env_ok CallStop
      (run_events true
         [Invoke Sample.env_ok
            (Sample.start_audio_call (Some "192.168.1.23"%string))] initial)
    = (Ok tt, s1) /\
    stop Sample.env_ok s1 = (Ok tt, s2) /\
    requests s1 = [Connect "192.168.1.23"; PowerOn; PowerOff] /\
    requests s2 = [Connect "192.168.1.23"; PowerOn; PowerOff; PowerOff] /\
    s2 <> s1.
Proof.
  do 2 eexists.
  split; [evaluate; reflexivity|]. split; [evaluate; reflexivity|].
  split; [reflexivity|]. split; [reflexivity|].
  intros H. apply (f_equal (fun s => length (requests s))) in H.
  cbn in H. discriminate.
Qed.



(** Outside C1 and C8, which speak of calls that return: a loop that ends
    with an exception makes [stop] raise, now and at every later call, with
    the mode still recorded and no loop running. *)
Lemma failed_loop_blocks_stop :
  let s := run_events true
             [Invoke Sample.env_ok
                (Sample.start_audio_call (Some "192.168.1.23"%string))]
             initial in
  exists s1 s2,
    stop Sample.env_loop_fails s = (Raise LoopError, s1) /\
    active_mode (coord s1) = Some AUDIO /\ running_engines s1 = 0%nat /\
    stop Sample.env_ok s1 = (Raise LoopError, s2) /\ s2 = s1.
Proof.
  intros s. subst s. do 2 eexists.
  split; [evaluate; reflexivity|]. split; [reflexivity|].
  split; [reflexivity|]. split; [evaluate; reflexivity|]. reflexivity.
Qed.

(** A witness for C9: a started audio engine, and a fresh screen engine. *)
Lemma engine_start_stop_noop_witness :
  let ea := AudioSync.set_task (Some 0%nat)
              {| AudioSync.settings := AudioSync.default_settings;
                 AudioSync.stop_event := Some false;
                 AudioSync.task := None;
                 AudioSync.energy_norm :=
                   {| AudioSync.band_hist := replicate 10 [];
                      AudioSync.maxlen := 300 |} |} in
  let es := ScreenSync.new_Engine ScreenSync.default_settings in
  AudioSync.start (ea, [Pending]) = (Ok tt, (ea, [Pending])) /\
  ScreenSync.stop (fun _ => true) (es, [Pending]) = (Ok tt, (es, [Pending])).
Proof.
  intros ea es.
  destruct (engine_start_stop_noop ea es [Pending] (fun _ => true))
    as (Ha & _ & _ & Hs & _).
  split; [apply (proj2 Ha); reflexivity | apply (proj2 Hs); reflexivity].
Defined.

(** C9, as stated, fails on an engine whose loop has ended on its own (the
    audio loop does when the stream cannot be opened, either loop when a
    push raises): the task is then done, with an exception, and still held.
    Such an engine is not running, and yet [stop] is no no-op, it raises; it
    holds a task, and yet [start] is no no-op, it creates a second task. *)
Lemma ended_loop_counterexample :
  fst (AudioSync.run None 0 [] Sample.audio_engine0) = Raise OSError /\
  AudioSync.running Sample.audio_engine0 [Failed] = false /\
  fst (AudioSync.stop (fun _ => true) (Sample.audio_engine0, [Failed]))
    = Raise LoopError /\
  ScreenSync.running Sample.screen_engine0 [Failed] = false /\
  fst (ScreenSync.stop (fun _ => true) (Sample.screen_engine0, [Failed]))
    = Raise LoopError /\
  AudioSync.task Sample.audio_engine0 = Some 0%nat /\
  AudioSync.start (Sample.audio_engine0, [Failed])
    = (Ok tt, (AudioSync.set_task (Some 1%nat)
                 (AudioSync.set_stop_event (Some false) Sample.audio_engine0),
               [Failed; Pending])) /\
  ScreenSync.task Sample.screen_engine0 = Some 0%nat /\
  ScreenSync.start (Sample.screen_engine0, [Failed])
    = (Ok tt, (ScreenSync.set_task (Some 1%nat)
                 (ScreenSync.set_stop_event (Some false)
                    Sample.screen_engine0),
               [Failed; Pending])).
Proof.
  repeat split; evaluate; reflexivity.
Qed.

(** ** The rate limiter of the audio loop *)

Section RateLimiter.
Import AudioSync.

Lemma spaced_snoc interval ps p :
  spaced interval ps ->
  (ps <> [] -> fst p - last_push_time 0 ps > interval) ->
  spaced interval (ps ++ [p]).
Proof.
  induction ps as [|p1 ps IH]; intros Hs Hl; [cbn; auto|].
  destruct ps as [|p2 ps].
  - cbn. split; [|auto]. apply Hl. discriminate.
  - destruct Hs as [H12 Hs]. split; [exact H12|].
    apply IH; [exact Hs|]. intros _.
    assert (last_push_time 0 (p1 :: p2 :: ps) = last_push_time 0 (p2 :: ps)) as <-
      by reflexivity.
    apply Hl. discriminate.
Qed.

Lemma last_push_time_snoc t0 ps p : last_push_time t0 (ps ++ [p]) = fst p.
Proof. unfold last_push_time. rewrite last_snoc. reflexivity. Qed.

Lemma last_push_time_nonempty t0 t1 ps :
  ps <> [] -> last_push_time t0 ps = last_push_time t1 ps.
Proof.
  unfold last_push_time. destruct (last ps) eqn:H; [reflexivity|].
  apply last_None in H. contradiction.
Qed.

Lemma analyze_frame_settings n mag rate e r e' :
  analyze_frame n mag rate e = (r, e') -> settings e' = settings e.
Proof.
  unfold analyze_frame. destruct (n =? 0)%Z.
  { unfold gets. intros H; simplify_eq. reflexivity. }
  destruct (rate =? 0)%Z.
  { unfold raise. intros H; simplify_eq. reflexivity. }
  unfold zoom. destruct (update_and_normalize _ _) as [r1 en].
  intros H; simplify_eq. reflexivity.
Qed.

Lemma tick_spec rate inp st r st' :
  tick rate inp st = (r, st') ->
  settings (engine st') = settings (engine st) ∧
  ((pushes st' = pushes st ∧ last_send st' = last_send st) ∨
   (∃ n mag now ok p,
      inp = Frame n mag now ok ∧
      now - last_send st > update_interval (settings (engine st)) ∧
      pushes st' = pushes st ++ [(now, p)] ∧
      (r = Ok tt -> last_send st' = now))).
Proof.
  destruct inp as [|n mag now ok]; cbn [tick].
  { intros H. cbv in H. simplify_eq. auto. }
  intros H.
  apply bind_inv in H as [(bn & s1 & H1 & H)|(e & H1 & ->)].
  2:{ unfold zoom in H1.
      destruct (analyze_frame n mag rate (engine st)) as [r1 e1] eqn:Ha.
      simplify_eq. cbn. split; [eapply analyze_frame_settings; eauto|auto]. }
  unfold zoom in H1.
  destruct (analyze_frame n mag rate (engine st)) as [r1 e1] eqn:Ha.
  apply analyze_frame_settings in Ha. simplify_eq.
  destruct (color_of_bands bn) as [[hue sat] bri].
  unfold mbind, M_bind, gets in H. cbn in H.
  destruct (Rgt_dec (now - last_send st) (update_interval (settings e1))) as [Hgt|Hle].
  - unfold modify in H. cbn in H. rewrite Ha in Hgt.
    destruct ok; cbn in H; simplify_eq; cbn; (split; [assumption|]);
      right; do 5 eexists; (split; [reflexivity|]); (split; [assumption|]);
      (split; [reflexivity|]); [reflexivity | discriminate].
  - cbv in H. simplify_eq. cbn. auto.
Qed.


Lemma run_loop_spec interval t0 rate ticks st r st' :
  limiter_inv interval t0 st ->
  run_loop rate ticks st = (r, st') ->
  spaced interval (pushes st') ∧ (r = Ok tt -> limiter_inv interval t0 st').
Proof.
  revert st. induction ticks as [|inp ticks IH]; intros st Hinv H.
  { cbv in H. simplify_eq. split; [apply Hinv|auto]. }
  cbn [run_loop] in H.
  assert (∀ r1 st1, tick rate inp st = (r1, st1) ->
            spaced interval (pushes st1) ∧
            (r1 = Ok tt -> limiter_inv interval t0 st1)) as Hstep.
  { intros r1 st1 H1. destruct Hinv as (Hi & Hsp & Hls).
    destruct (tick_spec _ _ _ _ _ H1) as [Hset [[Hp Hl]|Hpush]].
    - rewrite Hp. split; [assumption|]. intros _.
      unfold limiter_inv. rewrite Hset, Hp, Hl. repeat split; assumption.
    - destruct Hpush as (n & mag & now & ok & p & -> & Hgt & Hp & Hl).
      assert (spaced interval (pushes st1)) as Hsp1.
      { rewrite Hp. apply spaced_snoc; [assumption|]. intros Hne. cbn.
        rewrite (last_push_time_nonempty 0 t0) by assumption.
        rewrite <- Hls, <- Hi. exact Hgt. }
      split; [assumption|]. intros Hok.
      unfold limiter_inv. rewrite Hset. split; [assumption|].
      split; [assumption|]. rewrite (Hl Hok), Hp, last_push_time_snoc.
      reflexivity. }
  apply bind_inv in H as [([] & s1 & H1 & H)|(e & H1 & ->)].
  - destruct (Hstep _ _ H1) as [_ Hinv1]. apply (IH s1); auto.
  - destruct (Hstep _ _ H1) as [Hsp _]. split; [assumption|discriminate].
Qed.

(** C6. In the loop of the audio engine, the clock values of two consecutive
    pushes differ by more than the configured minimum interval, whatever the
    frames, the clock readings and the way the loop ends; and an iteration
    at which the time elapsed since the last push (since the start of the
    loop, before the first push) does not exceed the interval issues no
    push. *)
Theorem audio_push_rate_limited
    (opened : option Z) (t0 : R) (ticks : list TickInput) (e : Engine) :
  let interval := update_interval (settings e) in
  spaced interval (pushes (snd (run opened t0 ticks e))) /\
  (forall rate st n mag now ok,
     run (Some rate) t0 ticks e = (Ok tt, st) ->
     now - last_push_time t0 (pushes st) <= interval ->
     pushes (snd (tick rate (Frame n mag now ok) st)) = pushes st).
Proof.
  intros interval.
  assert (limiter_inv interval t0
            {| engine := e; last_send := t0; pushes := [] |}) as Hinit.
  { repeat split. }
  split.
  - unfold run. destruct opened as [rate|]; [|exact I].
    destruct (run_loop rate ticks _) as [r st] eqn:H.
    destruct (run_loop_spec _ _ _ _ _ _ _ Hinit H) as [Hs _]. exact Hs.
  - intros rate st n mag now ok H Hle. unfold run in H.
    destruct (run_loop_spec _ _ _ _ _ _ _ Hinit H) as [_ Hinv].
    destruct (Hinv eq_refl) as (Hi & _ & Hls).
    destruct (tick rate (Frame n mag now ok) st) as [r1 st1] eqn:H1.
    destruct (tick_spec _ _ _ _ _ H1) as [_ [[Hp _]|Hpush]]; [exact Hp|].
    destruct Hpush as (n' & mag' & now' & ok' & p & Heq & Hgt & _).
    simplify_eq. rewrite Hi, Hls in Hgt. lra.
Qed.
End RateLimiter.

(** ** Arithmetic of the numeric primitives *)

Section Numeric.

Lemma Int_part_IZR z : Int_part (IZR z) = z.
Proof. symmetry. apply Int_part_spec. lra. Qed.

Lemma Int_part_bounds x : IZR (Int_part x) <= x < IZR (Int_part x) + 1.
Proof. destruct (base_Int_part x). lra. Qed.

Lemma Int_part_unique x z : IZR z <= x < IZR z + 1 -> Int_part x = z.
Proof. intros H. symmetry. apply Int_part_spec. lra. Qed.

Lemma Int_part_le (a : Z) x : IZR a <= x -> (a <= Int_part x)%Z.
Proof.
  intros H. pose proof (Int_part_bounds x) as [_ H2].
  assert (IZR a < IZR (Int_part x + 1)) as Hlt by (rewrite plus_IZR; lra).
  apply lt_IZR in Hlt. lia.
Qed.

Lemma Int_part_ge (b : Z) x : x <= IZR b -> (Int_part x <= b)%Z.
Proof.
  intros H. pose proof (Int_part_bounds x) as [H1 _].
  apply le_IZR. lra.
Qed.

Lemma int_of_float_IZR z : int_of_float (IZR z) = z.
Proof.
  unfold int_of_float. destruct (Rle_dec 0 (IZR z)).
  - apply Int_part_IZR.
  - rewrite <- opp_IZR, Int_part_IZR. lia.
Qed.

Lemma int_of_float_nonneg x :
  0 <= x -> IZR (int_of_float x) <= x < IZR (int_of_float x) + 1.
Proof.
  intros H. unfold int_of_float. destruct (Rle_dec 0 x); [|contradiction].
  apply Int_part_bounds.
Qed.

(** Truncation toward zero keeps a value that lies between two integers
    between them. *)
Lemma int_of_float_between (a b : Z) x :
  IZR a <= x <= IZR b -> (a <= int_of_float x <= b)%Z.
Proof.
  intros [Ha Hb]. unfold int_of_float. destruct (Rle_dec 0 x) as [H0|H0].
  - split; [apply Int_part_le | apply Int_part_ge]; assumption.
  - assert (- x <= IZR (- a)) as Ha' by (rewrite opp_IZR; lra).
    assert (IZR (- b) <= - x) as Hb' by (rewrite opp_IZR; lra).
    apply Int_part_ge in Ha'. apply Int_part_le in Hb'. lia.
Qed.

Lemma float_mod_range x m : 0 < m -> 0 <= float_mod x m < m.
Proof.
  intros Hm. unfold float_mod.
  pose proof (Int_part_bounds (x / m)) as [H1 H2].
  assert (x = m * (x / m)) as Hx by (field; lra).
  split.
  - assert (m * IZR (Int_part (x / m)) <= m * (x / m)) by (apply Rmult_le_compat_l; lra).
    lra.
  - assert (m * (x / m) < m * (IZR (Int_part (x / m)) + 1)) by (apply Rmult_lt_compat_l; lra).
    lra.
Qed.

Lemma float_mod_small x m : 0 <= x < m -> float_mod x m = x.
Proof.
  intros [H0 Hm]. unfold float_mod.
  rewrite (Int_part_unique (x / m) 0).
  - lra.
  - split.
    + apply Rmult_le_pos; [lra|]. left. apply Rinv_0_lt_compat. lra.
    + apply (Rmult_lt_reg_r m); [lra|]. unfold Rdiv.
      rewrite Rmult_assoc, Rinv_l by lra. lra.
Qed.

Lemma float_mod_period x m : 0 < m -> float_mod (x + m) m = float_mod x m.
Proof.
  intros Hm. unfold float_mod.
  rewrite (Int_part_unique ((x + m) / m) (Int_part (x / m) + 1)).
  - rewrite plus_IZR. lra.
  - pose proof (Int_part_bounds (x / m)) as [H1 H2].
    assert ((x + m) / m = x / m + 1) as -> by (field; lra).
    rewrite plus_IZR. lra.
Qed.

Lemma cosh_pos x : 0 < cosh x.
Proof. unfold cosh. pose proof (exp_pos x). pose proof (exp_pos (- x)). lra. Qed.

Lemma tanh_range x : -1 < tanh x < 1.
Proof.
  unfold tanh. pose proof (cosh_pos x) as Hc.
  pose proof (exp_pos x). pose proof (exp_pos (- x)).
  split.
  - apply (Rmult_lt_reg_r (cosh x)); [assumption|].
    unfold Rdiv. rewrite Rmult_assoc, Rinv_l by lra.
    unfold sinh, cosh. lra.
  - apply (Rmult_lt_reg_r (cosh x)); [assumption|].
    unfold Rdiv. rewrite Rmult_assoc, Rinv_l by lra.
    unfold sinh, cosh. lra.
Qed.

Lemma tanh_0 : tanh 0 = 0.
Proof. unfold tanh. rewrite sinh_0. lra. Qed.

Lemma tanh_le x y : x <= y -> tanh x <= tanh y.
Proof.
  intros Hxy. unfold tanh.
  pose proof (cosh_pos x) as Hcx. pose proof (cosh_pos y) as Hcy.
  apply (Rmult_le_reg_r (cosh x * cosh y)); [apply Rmult_lt_0_compat; assumption|].
  replace (sinh x / cosh x * (cosh x * cosh y)) with (sinh x * cosh y) by (field; lra).
  replace (sinh y / cosh y * (cosh x * cosh y)) with (sinh y * cosh x) by (field; lra).
  unfold sinh, cosh.
  assert (exp x * exp (- y) <= exp y * exp (- x)) as H.
  { rewrite <- !exp_plus. destruct Hxy as [Hlt| ->]; [|lra].
    left. apply exp_increasing. lra. }
  lra.
Qed.

Lemma tanh_pos x : 0 < x -> 0 < tanh x.
Proof.
  intros Hx. unfold tanh. apply Rdiv_lt_0_compat; [|apply cosh_pos].
  rewrite <- sinh_0. apply sinh_lt. assumption.
Qed.

Lemma clip_range x lo hi : lo <= hi -> lo <= clip x lo hi <= hi.
Proof.
  intros H. unfold clip, Rmin, Rmax.
  destruct (Rle_dec x lo); destruct (Rle_dec _ hi); lra.
Qed.

End Numeric.

(** ** A bound on [tanh 2] *)

Section Tanh2.

Lemma exp_32 : exp (1 / 32) <= 32 / 31.
Proof.
  pose proof (exp_ineq1_le (- (1 / 32))) as H.
  rewrite exp_Ropp in H. pose proof (exp_pos (1 / 32)) as Hp.
  apply (Rmult_le_reg_r (/ exp (1 / 32))); [apply Rinv_0_lt_compat; assumption|].
  rewrite Rinv_r by lra. lra.
Qed.

Lemma exp_double x b c : exp x <= b -> b * b <= c -> exp (x + x) <= c.
Proof.
  intros Hb Hc. rewrite exp_plus. pose proof (exp_pos x). nra.
Qed.

Lemma exp_4 : exp 4 < 59.
Proof.
  pose proof exp_32 as H0.
  assert (exp (1 / 16) <= 1.0656) as H1.
  { replace (1 / 16) with (1 / 32 + 1 / 32) by lra. eapply exp_double; [exact H0|lra]. }
  assert (exp (1 / 8) <= 1.1356) as H2.
  { replace (1 / 8) with (1 / 16 + 1 / 16) by lra. eapply exp_double; [exact H1|lra]. }
  assert (exp (1 / 4) <= 1.2896) as H3.
  { replace (1 / 4) with (1 / 8 + 1 / 8) by lra. eapply exp_double; [exact H2|lra]. }
  assert (exp (1 / 2) <= 1.6631) as H4.
  { replace (1 / 2) with (1 / 4 + 1 / 4) by lra. eapply exp_double; [exact H3|lra]. }
  assert (exp 1 <= 2.766) as H5.
  { replace 1 with (1 / 2 + 1 / 2) by lra. eapply exp_double; [exact H4|lra]. }
  assert (exp 2 <= 7.651) as H6.
  { replace 2 with (1 + 1) by lra. eapply exp_double; [exact H5|lra]. }
  assert (exp 4 <= 58.54) as H7.
  { replace 4 with (2 + 2) by lra. eapply exp_double; [exact H6|lra]. }
  lra.
Qed.

Lemma tanh_2_bound : tanh 2 * 240 < 232.
Proof.
  unfold tanh, sinh, cosh. rewrite exp_Ropp.
  pose proof (exp_pos 2) as Hp. pose proof exp_4 as H4.
  replace 4 with (2 + 2) in H4 by lra. rewrite exp_plus in H4.
  set (u := exp 2) in *.
  replace ((u - / u) / 2 / ((u + / u) / 2)) with ((u * u - 1) / (u * u + 1))
    by (field; split; nra).
  apply (Rmult_lt_reg_r (u * u + 1)); [nra|].
  replace ((u * u - 1) / (u * u + 1) * 240 * (u * u + 1)) with ((u * u - 1) * 240)
    by (field; nra).
  nra.
Qed.

Lemma tanh_2_lt_1 : tanh 2 < 1.
Proof. apply tanh_range. Qed.

End Tanh2.

(** ** The adaptive normalizer *)

Section Normalizer.
Import AudioSync.

Lemma deque_append_spec m h x : deque_append m h x = spec_append m h x.
Proof.
  unfold deque_append, spec_append. cbn zeta. rewrite length_app.
  cbn [length].
  destruct (Nat.ltb_spec (length h) m);
    destruct (Nat.ltb_spec m (length h + 1)%nat);
    try reflexivity; lia.
Qed.

Lemma clip_spec_clamp x lo hi : lo <= hi -> clip x lo hi = spec_clamp x lo hi.
Proof.
  intros H. unfold clip, spec_clamp, Rmin, Rmax.
  repeat (destruct (Rle_dec _ _)); lra.
Qed.

Lemma emit_spec h energy :
  (if (length h <? 20)%nat then 0 else normalize_band h energy) = spec_emit h energy.
Proof.
  unfold spec_emit, normalize_band. destruct (length h <? 20)%nat; [reflexivity|].
  cbn zeta. destruct (Rle_dec _ _); [apply tanh_0|].
  rewrite clip_spec_clamp by lra. reflexivity.
Qed.



End Normalizer.

Section Normalizer2.
Import AudioSync.

Lemma normalize_band_range h e : 0 <= normalize_band h e <= tanh 2.
Proof.
  unfold normalize_band. cbn zeta.
  set (nv := if Rle_dec _ _ then 0 else _).
  assert (0 <= nv <= 2) as [H0 H2].
  { subst nv. destruct (Rle_dec _ _); [lra|]. apply clip_range. lra. }
  split; [rewrite <- tanh_0|]; apply tanh_le; assumption.
Qed.

Lemma update_loop_Forall (P : R -> Prop) es :
  P 0 -> (forall h e, P (normalize_band h e)) ->
  forall i acc st out st',
    Forall P acc ->
    update_loop i es acc st = (Ok out, st') -> Forall P out.
Proof.
  intros P0 Pn. induction es as [|e es IH]; intros i acc st out st' Hacc H.
  - cbn in H. simplify_eq. assumption.
  - cbn [update_loop] in H. destruct (band_hist st !! i) as [h|]; [|discriminate].
    destruct (length _ <? 20)%nat; eapply IH; try exact H;
      apply Forall_app; split; auto.
Qed.

Lemma update_loop_bands es : forall i acc st r st',
  update_loop i es acc st = (r, st') ->
  length (band_hist st') = length (band_hist st) /\ maxlen st' = maxlen st.
Proof.
  induction es as [|e es IH]; intros i acc st r st' H.
  - cbn in H. simplify_eq. auto.
  - cbn [update_loop] in H. destruct (band_hist st !! i) as [h|].
    2:{ simplify_eq. auto. }
    destruct (length _ <? 20)%nat; apply IH in H; cbn in H;
      rewrite length_insert in H; exact H.
Qed.

Lemma update_loop_length es : forall i acc st out st',
  update_loop i es acc st = (Ok out, st') ->
  length out = (length acc + length es)%nat.
Proof.
  induction es as [|e es IH]; intros i acc st out st' H.
  - cbn in H. simplify_eq. cbn. lia.
  - cbn [update_loop] in H. destruct (band_hist st !! i) as [h|]; [|discriminate].
    destruct (length _ <? 20)%nat; apply IH in H; rewrite length_app in H;
      cbn in *; lia.
Qed.

Lemma update_loop_ok es : forall i acc st,
  (i + length es <= length (band_hist st))%nat ->
  exists out st', update_loop i es acc st = (Ok out, st').
Proof.
  induction es as [|e es IH]; intros i acc st Hlen.
  - cbn. eauto.
  - cbn [update_loop]. cbn in Hlen.
    destruct (lookup_lt_is_Some_2 (band_hist st) i) as [h Hh]; [lia|].
    rewrite Hh. destruct (length _ <? 20)%nat; apply IH; cbn;
      rewrite length_insert; lia.
Qed.

Lemma update_loop_prefix es : forall i acc st out st',
  update_loop i es acc st = (Ok out, st') -> exists tl, out = acc ++ tl.
Proof.
  induction es as [|e es IH]; intros i acc st out st' H.
  - cbn in H. simplify_eq. exists []. rewrite app_nil_r. reflexivity.
  - cbn [update_loop] in H. destruct (band_hist st !! i) as [h|]; [|discriminate].
    destruct (length _ <? 20)%nat; apply IH in H as [tl ->];
      rewrite <- app_assoc; eauto.
Qed.

(** What the loop emits for the energy at position [j]. *)
Lemma update_loop_lookup es : forall i acc st out st' j e,
  update_loop i es acc st = (Ok out, st') ->
  es !! j = Some e ->
  exists h, band_hist st !! (i + j)%nat = Some h /\
            out !! (length acc + j)%nat
            = Some (spec_emit (spec_append (maxlen st) h e) e).
Proof.
  induction es as [|e0 es IH]; intros i acc st out st' j e H Hj; [discriminate|].
  cbn [update_loop] in H. destruct (band_hist st !! i) as [h|] eqn:Hh; [|discriminate].
  rewrite deque_append_spec in H.
  set (h' := spec_append (maxlen st) h e0) in *.
  assert (update_loop (S i) es (acc ++ [spec_emit h' e0])
            {| band_hist := <[i:=h']> (band_hist st); maxlen := maxlen st |}
          = (Ok out, st')) as H'.
  { rewrite <- emit_spec. destruct (length h' <? 20)%nat; exact H. }
  clear H. destruct j as [|j].
  - cbn in Hj. simplify_eq. exists h. rewrite !Nat.add_0_r. split; [assumption|].
    apply update_loop_prefix in H' as [tl ->].
    rewrite <- app_assoc. rewrite lookup_app_r by lia.
    rewrite Nat.sub_diag. reflexivity.
  - cbn in Hj. destruct (IH _ _ _ _ _ _ _ H' Hj) as (h1 & Hh1 & Hout).
    cbn in Hh1, Hout. exists h1. split.
    + rewrite list_lookup_insert_ne in Hh1 by lia.
      replace (i + S j)%nat with (S (i + j)) by lia. exact Hh1.
    + rewrite length_app in Hout. cbn in Hout.
      replace (length acc + S j)%nat with (length acc + 1 + j)%nat by lia.
      exact Hout.
Qed.

Lemma spec_append_length m h e :
  (length (spec_append m h e) <= length h + 1)%nat.
Proof.
  unfold spec_append. cbn zeta. destruct (m <? _)%nat.
  - destruct (h ++ [e]) as [|x l] eqn:Hl; cbn; [lia|].
    apply (f_equal length) in Hl. rewrite length_app in Hl. cbn in Hl. lia.
  - rewrite length_app. cbn. lia.
Qed.

Lemma feed_Forall (P : R -> Prop) calls :
  P 0 -> (forall h e, P (normalize_band h e)) ->
  forall st,
    Forall (fun r => forall out, r = Ok out -> Forall P out) (fst (feed calls st)).
Proof.
  intros P0 Pn. induction calls as [|raw calls IH]; intros st; [constructor|].
  cbn [feed]. destruct (update_and_normalize raw st) as [r st1] eqn:H1.
  specialize (IH st1). destruct (feed calls st1) as [rs st2]. cbn in *.
  constructor; [|assumption]. intros out ->.
  eapply (update_loop_Forall P); eauto. 
Qed.

(** C3, amended. Whatever the sequence of calls and the energies, every
    value emitted lies strictly between -1 and 1; and a band whose history
    holds fewer than 19 samples before a call (fewer than 20 once the new
    one is appended) emits 0. *)
Theorem normalizer_range_and_cold_start
    (calls : list (list R)) (st0 : AdaptiveEnergy) :
  Forall (fun r => forall out, r = Ok out -> Forall (fun v => -1 < v < 1) out)
         (fst (feed calls st0)) /\
  (forall st raw out st' i h,
     update_and_normalize raw st = (Ok out, st') ->
     band_hist st !! i = Some h -> (length h < 19)%nat ->
     (i < length raw)%nat ->
     out !! i = Some 0).
Proof.
  split.
  - apply feed_Forall; [lra|]. intros h e. apply tanh_range.
  - intros st raw out st' i h H Hh Hlen Hi.
    destruct (lookup_lt_is_Some_2 raw i Hi) as [e He].
    destruct (update_loop_lookup _ _ _ _ _ _ _ _ H He) as (h1 & Hh1 & Hout).
    cbn in Hh1, Hout. simplify_eq. rewrite Hout. f_equal.
    unfold spec_emit. pose proof (spec_append_length (maxlen st) h e).
    destruct (Nat.ltb_spec (length (spec_append (maxlen st) h e)) 20);
      [reflexivity|lia].
Qed.
End Normalizer2.

Section ColdStart.
Import AudioSync.

Lemma sorted_sample :
  np_sort (replicate 16 0 ++ replicate 4 10) = replicate 16 0 ++ replicate 4 10.
Proof.
  cbv [replicate app np_sort fold_right].
  repeat (cbn [insert_sorted];
          destruct (Rle_dec _ _) as [_|Hn]; [|exfalso; apply Hn; lra]).
  reflexivity.
Qed.

Lemma normalize_sample :
  0 < normalize_band (replicate 16 0 ++ replicate 4 10) 10.
Proof.
  unfold normalize_band, np_median, np_percentile90. rewrite sorted_sample.
  cbv [replicate app length Nat.even Nat.div Nat.divmod Nat.sub nth fst
       Nat.modulo Nat.mul Nat.add Nat.min snd INR].
  destruct (Rle_dec _ _) as [Hle|_]; [exfalso; lra|].
  apply tanh_pos.
  assert (0 < (10 - (0 + 0) / 2) / (10 + (10 - 10) * ((0 + 1) / 10) - (0 + 0) / 2 + 1e-9)) as Hx
    by (apply Rdiv_lt_0_compat; lra).
  revert Hx. generalize ((10 - (0 + 0) / 2) / (10 + (10 - 10) * ((0 + 1) / 10) - (0 + 0) / 2 + 1e-9)).
  intros x Hx. unfold clip, Rmin, Rmax.
  repeat destruct (Rle_dec _ _); lra.
Qed.

(** C3, as stated, fails at the twentieth call: the band has 19 prior
    samples, fewer than 20, and the value emitted is not 0. *)
Lemma cold_start_counterexample :
  AudioSync.new_AdaptiveEnergy 1 300 = Ok Sample.one_band /\
  exists st h out st',
    feed Sample.prior_calls Sample.one_band = (replicate 19 (Ok [0]), st) /\
    band_hist st !! 0%nat = Some h /\ (length h < 20)%nat /\
    update_and_normalize [10] st = (Ok out, st') /\
    out !! 0%nat <> Some 0.
Proof.
  split; [reflexivity|].
  exists {| band_hist := [replicate 16 0 ++ replicate 3 10]; maxlen := 300 |},
         (replicate 16 0 ++ replicate 3 10),
         [normalize_band (replicate 16 0 ++ replicate 4 10) 10],
         {| band_hist := [replicate 16 0 ++ replicate 4 10]; maxlen := 300 |}.
  split; [|split; [|split; [|split]]].
  - cbv -[IZR]. reflexivity.
  - reflexivity.
  - cbn. lia.
  - cbv -[IZR normalize_band]. reflexivity.
  - cbn [lookup list_lookup]. intros H. injection H as H.
    pose proof normalize_sample as Hp. cbv [replicate app] in Hp.
    rewrite H in Hp. lra.
Qed.
End ColdStart.

(** ** The hue of the audio engine *)

Section Hue.
Import AudioSync.

Lemma sum_bounds (a b : R) (l : list R) :
  Forall (fun v => a <= v <= b) l ->
  INR (length l) * a <= fold_right Rplus 0 l <= INR (length l) * b.
Proof.
  induction 1 as [|x l Hx Hl IH].
  - cbn. lra.
  - cbn [fold_right]. change (length (x :: l)) with (S (length l)).
    rewrite S_INR. lra.
Qed.

Lemma mean_bounds (a b : R) (l : list R) :
  l <> [] -> Forall (fun v => a <= v <= b) l -> a <= mean l <= b.
Proof.
  intros Hne Hl. unfold mean. pose proof (sum_bounds a b l Hl) as [H1 H2].
  assert (0 < INR (length l)) as Hn.
  { apply lt_0_INR. destruct l; [contradiction|cbn; lia]. }
  split.
  - apply (Rmult_le_reg_r (INR (length l))); [assumption|].
    unfold Rdiv. rewrite Rmult_assoc, Rinv_l by lra. lra.
  - apply (Rmult_le_reg_r (INR (length l))); [assumption|].
    unfold Rdiv. rewrite Rmult_assoc, Rinv_l by lra. lra.
Qed.

Lemma int_of_float_below (b : Z) x :
  0 <= x < IZR b -> (0 <= int_of_float x < b)%Z.
Proof.
  intros [H0 Hb]. pose proof (int_of_float_nonneg x H0) as [H1 H2]. split.
  - assert (IZR (-1) < IZR (int_of_float x)) as H by lra.
    apply lt_IZR in H. lia.
  - apply lt_IZR. lra.
Qed.

(** The hue derived from ten band values in [[0, tanh 2]]. *)
Lemma hue_of_bands (band_norms : list R) :
  length band_norms = 10%nat ->
  Forall (fun v => 0 <= v <= tanh 2) band_norms ->
  let treble := mean (slice 6 10 band_norms) in
  let bass := mean (slice 0 3 band_norms) in
  0 <= treble < 1 /\
  float_mod (bass * 0 + treble * 240) 360 = treble * 240 /\
  (0 <= fst (fst (color_of_bands band_norms)) <= 231)%Z.
Proof.
  intros Hlen Hall treble bass.
  assert (0 <= treble <= tanh 2) as [Ht0 Ht2].
  { subst treble. apply mean_bounds.
    - do 10 (destruct band_norms as [|? band_norms]; [discriminate|]). discriminate.
    - unfold slice. apply Forall_take, Forall_drop. assumption. }
  pose proof tanh_2_bound as Hb. pose proof tanh_2_lt_1 as H1.
  assert (float_mod (bass * 0 + treble * 240) 360 = treble * 240) as Hmod.
  { replace (bass * 0 + treble * 240) with (treble * 240) by lra.
    apply float_mod_small. lra. }
  split; [lra|]. split; [exact Hmod|].
  unfold color_of_bands. cbn [fst]. fold treble bass. rewrite Hmod.
  assert (0 <= int_of_float (treble * 240) < 232)%Z
    by (apply int_of_float_below; lra).
  lia.
Qed.


Lemma new_Engine_ten_bands pyaudio a e :
  new_Engine pyaudio a = Ok e -> ten_bands e.
Proof.
  unfold new_Engine, new_AdaptiveEnergy.
  destruct ((0 <? num_bands a)%Z && _); [discriminate|].
  destruct (negb pyaudio); [discriminate|].
  destruct (num_bands a =? _)%Z eqn:Hn; [|discriminate].
  cbn. intros H; simplify_eq. apply Z.eqb_eq in Hn. cbn in Hn.
  split; cbn; [assumption|]. rewrite length_replicate, Hn. reflexivity.
Qed.

Lemma band_energies_from_length bands : forall freq_min n rate mag,
  length (band_energies_from freq_min bands n rate mag) = length bands.
Proof.
  induction bands as [|b bands IH]; intros; cbn; [reflexivity|].
  rewrite IH. reflexivity.
Qed.

Lemma analyze_frame_spec n mag rate e r e' :
  ten_bands e ->
  analyze_frame n mag rate e = (r, e') ->
  ten_bands e' /\
  (forall bn, r = Ok bn ->
     length bn = 10%nat /\ Forall (fun v => 0 <= v <= tanh 2) bn).
Proof.
  intros [Hnb Hlen]. unfold analyze_frame. destruct (n =? 0)%Z.
  { unfold gets. intros H; simplify_eq. split; [split; assumption|].
    intros bn Hbn. simplify_eq. rewrite Hnb. split; [reflexivity|].
    apply Forall_replicate. pose proof (tanh_range 2).
    split; [lra|]. rewrite <- tanh_0. apply tanh_le. lra. }
  destruct (rate =? 0)%Z.
  { unfold raise. intros H; simplify_eq. split; [split; assumption|].
    intros bn Hbn. discriminate. }
  unfold zoom, update_and_normalize.
  destruct (update_loop _ _ _ _) as [r1 en] eqn:Hu. intros H; simplify_eq.
  pose proof (update_loop_bands _ _ _ _ _ _ Hu) as [Hl _].
  split; [split; cbn; [assumption|congruence]|].
  intros bn ->. split.
  - apply update_loop_length in Hu. rewrite Hu, band_energies_from_length.
    reflexivity.
  - eapply (update_loop_Forall (fun v => 0 <= v <= tanh 2)); [| |constructor|exact Hu].
    + pose proof (tanh_range 2). split; [lra|].
      rewrite <- tanh_0. apply tanh_le. lra.
    + apply normalize_band_range.
Qed.

Lemma tick_hue rate inp st r st' :
  ten_bands (engine st) ->
  Forall (fun p => (0 <= push_hue (snd p) <= 231)%Z) (pushes st) ->
  tick rate inp st = (r, st') ->
  ten_bands (engine st') /\
  Forall (fun p => (0 <= push_hue (snd p) <= 231)%Z) (pushes st').
Proof.
  intros Hten Hall. destruct inp as [|n mag now ok]; cbn [tick].
  { intros H. cbv in H. simplify_eq. auto. }
  intros H.
  unfold mbind, M_bind, zoom in H.
  destruct (analyze_frame n mag rate (engine st)) as [r1 e1] eqn:Ha.
  destruct (analyze_frame_spec _ _ _ _ _ _ Hten Ha) as [Hten1 Hbn].
  destruct r1 as [bn|x]; [|simplify_eq; auto].
  destruct (Hbn bn eq_refl) as [Hlen Hrange].
  pose proof (hue_of_bands bn Hlen Hrange) as (_ & _ & Hhue).
  destruct (color_of_bands bn) as [[hue sat] bri]. cbn [fst] in Hhue.
  unfold gets in H. cbn in H.
  destruct (Rgt_dec _ _).
  - unfold modify in H. cbn in H.
    destruct ok; cbn in H; simplify_eq; cbn; (split; [assumption|]);
      apply Forall_app; (split; [assumption|]); repeat constructor; cbn; lia.
  - cbv in H. simplify_eq. cbn. auto.
Qed.

Lemma run_loop_hue rate ticks : forall st r st',
  ten_bands (engine st) ->
  Forall (fun p => (0 <= push_hue (snd p) <= 231)%Z) (pushes st) ->
  run_loop rate ticks st = (r, st') ->
  Forall (fun p => (0 <= push_hue (snd p) <= 231)%Z) (pushes st').
Proof.
  induction ticks as [|inp ticks IH]; intros st r st' Hten Hall H.
  { cbv in H. simplify_eq. assumption. }
  cbn [run_loop] in H. unfold mbind, M_bind in H.
  destruct (tick rate inp st) as [r1 st1] eqn:H1.
  destruct (tick_hue _ _ _ _ _ Hten Hall H1) as [Hten1 Hall1].
  destruct r1 as [[]|x]; [eapply IH; eauto|simplify_eq; assumption].
Qed.

(** C10. Every value the normalizer emits lies in [[0, tanh 2]], below 1;
    so the treble mean of ten such values is below 1, the modulo 360 of the
    hue formula changes nothing, and the hue is an integer from 0 to 231.
    Every push of the audio loop of a constructed engine carries such a
    hue, whatever the frames. *)
Theorem audio_hue_range :
  tanh 2 < 1 /\
  (forall raw st out st',
     update_and_normalize raw st = (Ok out, st') ->
     Forall (fun v => 0 <= v <= tanh 2) out) /\
  (forall band_norms,
     length band_norms = 10%nat ->
     Forall (fun v => 0 <= v <= tanh 2) band_norms ->
     let treble := mean (slice 6 10 band_norms) in
     let bass := mean (slice 0 3 band_norms) in
     0 <= treble < 1 /\
     float_mod (bass * 0 + treble * 240) 360 = treble * 240 /\
     (0 <= fst (fst (color_of_bands band_norms)) <= 231)%Z) /\
  (forall pyaudio settings e opened t0 ticks,
     new_Engine pyaudio settings = Ok e ->
     Forall (fun p => (0 <= push_hue (snd p) <= 231)%Z)
            (pushes (snd (run opened t0 ticks e)))).
Proof.
  split; [exact tanh_2_lt_1|]. split; [|split].
  - intros raw st out st' H.
    eapply (update_loop_Forall (fun v => 0 <= v <= tanh 2)); [| |constructor|exact H].
    + pose proof (tanh_range 2). split; [lra|].
      rewrite <- tanh_0. apply tanh_le. lra.
    + apply normalize_band_range.
  - exact hue_of_bands.
  - intros pyaudio a e opened t0 ticks He.
    apply new_Engine_ten_bands in He.
    unfold run. destruct opened as [rate|]; [|constructor].
    destruct (run_loop rate ticks _) as [r st] eqn:H. cbn.
    eapply run_loop_hue; [| |exact H]; [exact He|constructor].
Qed.
End Hue.

(** ** The screen engine *)

Section Screen.
Import ScreenSync.

Lemma lerp_hue_350_10 : lerp_hue 350 10 0.5 = 0.
Proof.
  unfold lerp_hue. cbn zeta.
  destruct (Rgt_dec (Rabs (10 - 350)) 180) as [_|Hn].
  2:{ exfalso. apply Hn. rewrite Rabs_left by lra. lra. }
  destruct (Rgt_dec 10 350) as [Hgt|_]; [exfalso; lra|].
  unfold lerp, float_mod.
  rewrite (Int_part_unique _ 1) by lra. lra.
Qed.

(** C4. [lerp_hue(350, 10, 0.5)] is 0, the middle of the short way round
    through 0/360, and not 180. In general the result lies in [[0, 360)];
    when the two hues are more than 180 apart the smaller endpoint is moved
    up by 360 before the linear interpolation and the result is reduced
    modulo 360; for hues of [[0, 360)] this is the interpolation along the
    shorter arc, whose signed length [d] has [|d| < 180]. *)
Theorem lerp_hue_shortest_path :
  lerp_hue 350 10 0.5 = 0 /\
  lerp_hue 350 10 0.5 <> 180 /\
  (forall start end_ factor,
     0 <= lerp_hue start end_ factor < 360) /\
  (forall start end_ factor,
     Rabs (end_ - start) > 180 ->
     lerp_hue start end_ factor =
       float_mod (if Rgt_dec end_ start
                  then lerp (start + 360) end_ factor
                  else lerp start (end_ + 360) factor) 360) /\
  (forall start end_ factor,
     0 <= start < 360 -> 0 <= end_ < 360 ->
     Rabs (end_ - start) > 180 ->
     exists d,
       (d = end_ - start - 360 \/ d = end_ - start + 360) /\
       Rabs d < 180 /\
       lerp_hue start end_ factor = float_mod (start + d * factor) 360).
Proof.
  split; [exact lerp_hue_350_10|].
  split; [rewrite lerp_hue_350_10; lra|].
  split; [|split].
  - intros s e f. unfold lerp_hue. cbn zeta.
    destruct (Rgt_dec _ _); [destruct (Rgt_dec _ _)|]; apply float_mod_range; lra.
  - intros s e f H. unfold lerp_hue. cbn zeta.
    destruct (Rgt_dec (Rabs (e - s)) 180); [|contradiction].
    destruct (Rgt_dec e s); reflexivity.
  - intros s e f Hs He H. unfold lerp_hue. cbn zeta.
    destruct (Rgt_dec (Rabs (e - s)) 180); [|contradiction].
    destruct (Rgt_dec e s) as [Hgt|Hle].
    + exists (e - s - 360). split; [auto|].
      rewrite Rabs_right in H by lra. split; [rewrite Rabs_left; lra|].
      unfold lerp.
      replace (s + 360 + (e - (s + 360)) * f) with (s + (e - s - 360) * f + 360) by lra.
      apply float_mod_period. lra.
    + exists (e - s + 360). split; [auto|].
      rewrite Rabs_left in H by (unfold Rabs in H; destruct (Rcase_abs _); lra).
      split; [rewrite Rabs_right; lra|].
      unfold lerp. f_equal. lra.
Qed.

Lemma gamma_channel_1 (c : N) : gamma_channel 1 c = Ok (Z.of_N c).
Proof.
  unfold gamma_channel, float_pow.
  destruct (Req_dec_T (IZR (Z.of_N c) / 255) 0) as [H0|Hn].
  - destruct (Req_dec_T 1 0); [lra|]. destruct (Rlt_dec 0 1); [|lra].
    assert (IZR (Z.of_N c) = 0) as Hc by lra.
    replace (255 * 0) with (IZR 0) by lra. rewrite int_of_float_IZR.
    apply eq_IZR in Hc. rewrite Hc. reflexivity.
  - assert (0 < IZR (Z.of_N c) / 255) as Hpos.
    { assert (0 <= IZR (Z.of_N c)) by (apply IZR_le; lia).
      destruct (Req_dec_T (IZR (Z.of_N c)) 0) as [Hz|Hz]; [exfalso; apply Hn; rewrite Hz; lra|].
      apply Rdiv_lt_0_compat; lra. }
    rewrite Rpower_1 by assumption.
    replace (255 * (IZR (Z.of_N c) / 255)) with (IZR (Z.of_N c)) by lra.
    rewrite int_of_float_IZR. reflexivity.
Qed.

(** C5. With [gamma = 1.0] the gamma correction returns each channel
    value of 0..255 unchanged. *)
Theorem gamma_one_is_identity (c : N) :
  (c <= 255)%N ->
  apply_gamma_correction (c, c, c) 1 = Ok (Z.of_N c, Z.of_N c, Z.of_N c).
Proof.
  intros _. unfold apply_gamma_correction. rewrite gamma_channel_1. reflexivity.
Qed.

(** The rounding of binary64 arithmetic does not disturb C5: for each of
    the 256 channel values, [255 * (c / 255)] is [c] exactly. *)
Lemma gamma_one_binary64_exact :
  forallb gamma_one_exact (map Z.of_nat (seq 0 256)) = true.
Proof. vm_compute. reflexivity. Qed.

End Screen.

Section Brightness.
Import ScreenSync.

Lemma target_brightness_bounds avg e h s b :
  get_weighted_avg_color avg e = Ok (h, s, b) ->
  (min_brightness (settings e) <= max_brightness (settings e))%Z ->
  (min_brightness (settings e) <= b <= max_brightness (settings e))%Z.
Proof.
  unfold get_weighted_avg_color.
  destruct (apply_gamma_correction _ _) as [[[cr cg] cb]|x]; [|discriminate].
  destruct (rgb_to_hsv _ _ _) as [[h0 s0] v0].
  intros H Hle. simplify_eq. lia.
Qed.

Lemma lerp_between a b x y f :
  a <= x <= b -> a <= y <= b -> 0 <= f <= 1 -> a <= lerp x y f <= b.
Proof. intros Hx Hy Hf. unfold lerp. nra. Qed.

Lemma update_colors_brightness ss avg e r e' :
  (min_brightness ss <= max_brightness ss)%Z ->
  0 <= smoothing_factor ss <= 1 ->
  brightness_inv ss e ->
  update_colors avg e = (r, e') ->
  brightness_inv ss e' /\
  (forall h s b, r = Ok (h, s, b) ->
     (min_brightness ss <= b <= max_brightness ss)%Z).
Proof.
  intros Hmm Hf [Hset Hcur]. unfold update_colors.
  destruct (get_weighted_avg_color avg e) as [[[th ts] tb]|x] eqn:Hg.
  2:{ intros H; simplify_eq. split; [split; auto|]. intros; discriminate. }
  apply target_brightness_bounds in Hg; [|rewrite Hset; assumption].
  rewrite Hset in Hg. destruct Hg as [Hg1 Hg2].
  apply IZR_le in Hg1, Hg2.
  intros H; simplify_eq. cbn.
  assert (IZR (min_brightness (settings e))
          <= lerp (current_brightness e) (IZR tb) (smoothing_factor (settings e))
          <= IZR (max_brightness (settings e))) as Hl
    by (apply lerp_between; auto).
  split; [split; [reflexivity|exact Hl]|].
  intros h s b Hb. simplify_eq. apply int_of_float_between. exact Hl.
Qed.

Lemma set_user_brightness_inv ss v e :
  brightness_inv ss e -> brightness_inv ss (set_user_brightness v e).
Proof. intros H. exact H. Qed.

Lemma tick_brightness ss inp st r st' :
  (min_brightness ss <= max_brightness ss)%Z ->
  0 <= smoothing_factor ss <= 1 ->
  brightness_inv ss (engine st) ->
  Forall (within_bounds ss) (pushes st) ->
  tick inp st = (r, st') ->
  brightness_inv ss (engine st') /\ Forall (within_bounds ss) (pushes st').
Proof.
  intros Hmm Hf Hinv Hall. unfold tick.
  set (e := match user_set inp with
            | Some value => set_user_brightness value (engine st)
            | None => engine st
            end).
  assert (brightness_inv ss e) as He by (subst e; destruct (user_set inp); exact Hinv).
  destruct (update_colors (avg_color inp) e) as [r1 e1] eqn:Hu.
  destruct (update_colors_brightness _ _ _ _ _ Hmm Hf He Hu) as [Hinv1 Hb].
  destruct r1 as [[[h s] b]|x].
  - specialize (Hb h s b eq_refl).
    destruct (push_ok inp); intros H; simplify_eq; cbn;
      (split; [assumption|]); apply Forall_app; (split; [assumption|]);
      apply Forall_singleton; exact Hb.
  - intros H; simplify_eq. cbn. auto.
Qed.

Lemma run_loop_brightness ss ticks : forall st r st',
  (min_brightness ss <= max_brightness ss)%Z ->
  0 <= smoothing_factor ss <= 1 ->
  brightness_inv ss (engine st) ->
  Forall (within_bounds ss) (pushes st) ->
  run_loop ticks st = (r, st') ->
  Forall (within_bounds ss) (pushes st').
Proof.
  induction ticks as [|inp ticks IH]; intros st r st' Hmm Hf Hinv Hall H.
  { cbv in H. simplify_eq. assumption. }
  cbn [run_loop] in H. unfold mbind, M_bind in H.
  destruct (tick inp st) as [r1 st1] eqn:H1.
  destruct (tick_brightness _ _ _ _ _ Hmm Hf Hinv Hall H1) as [Hinv1 Hall1].
  destruct r1 as [[]|x]; [eapply IH; eauto|simplify_eq; assumption].
Qed.

(** C7, amended. When the bounds contain the initial smoothed brightness
    ([min_brightness <= 60 <= max_brightness]) and the smoothing factor lies
    in [[0, 1]], as with the default settings, every brightness pushed by
    the screen loop lies within [[min_brightness, max_brightness]], whatever
    the frames and the brightness the user sets meanwhile. *)
Theorem screen_brightness_within_bounds
    (ss : ScreenSettings) (initial_brightness : option Z)
    (ticks : list TickInput) :
  (min_brightness ss <= 60 <= max_brightness ss)%Z ->
  0 <= smoothing_factor ss <= 1 ->
  let e := match initial_brightness with
           | Some v => set_user_brightness v (new_Engine ss)
           | None => new_Engine ss
           end in
  Forall (within_bounds ss) (pushes (snd (run ticks e))).
Proof.
  intros Hb Hf e.
  assert (brightness_inv ss e) as Hinv.
  { subst e. destruct initial_brightness; (split; [reflexivity|]); cbn;
      split; apply IZR_le; lia. }
  unfold run. destruct (refresh_rate (settings e) =? 0)%Z; [constructor|].
  destruct (run_loop ticks _) as [r st] eqn:H. cbn.
  refine (run_loop_brightness ss ticks _ r st _ Hf _ _ H);
    [lia|exact Hinv|constructor].
Qed.

Lemma Rpower_base_1 y : Rpower 1 y = 1.
Proof. unfold Rpower. rewrite ln_1, Rmult_0_r. apply exp_0. Qed.

Lemma gamma_channel_white g : gamma_channel g 255 = Ok 255%Z.
Proof.
  unfold gamma_channel, float_pow. cbn [Z.of_N].
  destruct (Req_dec_T (255 / 255) 0) as [H|_]; [exfalso; lra|].
  replace (255 / 255) with 1 by lra. rewrite Rpower_base_1.
  replace (255 * 1) with (IZR 255) by lra. rewrite int_of_float_IZR. reflexivity.
Qed.

Lemma rgb_to_hsv_gray x : rgb_to_hsv x x x = (0, 0, x).
Proof.
  unfold rgb_to_hsv. cbn zeta.
  assert (Rmax (Rmax x x) x = x) as -> by (unfold Rmax; repeat destruct (Rle_dec _ _); lra).
  assert (Rmin (Rmin x x) x = x) as -> by (unfold Rmin; repeat destruct (Rle_dec _ _); lra).
  destruct (Req_dec_T x x); [reflexivity|contradiction].
Qed.

Lemma white_target :
  exists h s, get_weighted_avg_color (255, 255, 255)%N (new_Engine Sample.dim_settings)
              = Ok (h, s, 50%Z).
Proof.
  unfold get_weighted_avg_color, apply_gamma_correction.
  rewrite gamma_channel_white. rewrite rgb_to_hsv_gray.
  do 2 eexists. cbn [new_Engine settings user_brightness Sample.dim_settings
                     min_brightness max_brightness].
  replace (IZR 80 * (255 / 255)) with (IZR 80) by lra.
  rewrite int_of_float_IZR. reflexivity.
Qed.

Lemma gamma_channel_black g : 0 < g -> gamma_channel g 0 = Ok 0%Z.
Proof.
  intros Hg. unfold gamma_channel, float_pow. cbn [Z.of_N].
  destruct (Req_dec_T (0 / 255) 0) as [_|H]; [|exfalso; lra].
  destruct (Req_dec_T g 0); [lra|]. destruct (Rlt_dec 0 g); [|contradiction].
  replace (255 * 0) with (IZR 0) by lra. rewrite int_of_float_IZR. reflexivity.
Qed.

Lemma black_target :
  exists h s, get_weighted_avg_color (0, 0, 0)%N (new_Engine Sample.overshoot_settings)
              = Ok (h, s, 10%Z).
Proof.
  unfold get_weighted_avg_color, apply_gamma_correction.
  rewrite gamma_channel_black by (cbn; lra). rewrite rgb_to_hsv_gray.
  do 2 eexists. cbn [new_Engine settings user_brightness Sample.overshoot_settings
                     min_brightness max_brightness].
  replace (IZR 80 * (0 / 255)) with (IZR 0) by lra.
  rewrite int_of_float_IZR. reflexivity.
Qed.

(** C7, as stated, fails on the first push in two ways: when the bounds do
    not contain the initial smoothed brightness 60 (an all-white frame with
    [max_brightness = 50] is pushed at 56), and when the smoothing factor
    exceeds 1 (an all-black frame with factor 1.5 is pushed at -15). *)
Lemma screen_brightness_counterexample :
  (exists p,
     pushes (snd (run [Sample.white_frame] (new_Engine Sample.dim_settings))) = [p] /\
     push_brightness p = 56%Z /\
     ~ within_bounds Sample.dim_settings p) /\
  (exists p,
     pushes (snd (run [Sample.black_frame] (new_Engine Sample.overshoot_settings))) = [p] /\
     push_brightness p = (-15)%Z /\
     ~ within_bounds Sample.overshoot_settings p).
Proof.
  split.
  - destruct white_target as (h & s & Ht).
    unfold run. cbn [refresh_rate settings new_Engine Sample.dim_settings Z.eqb].
    cbn [run_loop]. unfold mbind, M_bind, tick, update_colors.
    cbn [user_set Sample.white_frame avg_color engine push_ok].
    rewrite Ht. cbn [snd pushes app].
    eexists. split; [reflexivity|].
    assert (int_of_float (lerp (current_brightness (new_Engine Sample.dim_settings)) 50
              (smoothing_factor (settings (new_Engine Sample.dim_settings)))) = 56%Z) as Hp.
    { cbn. unfold lerp. replace (60 + (50 - 60) * 0.4) with (IZR 56) by lra.
      apply int_of_float_IZR. }
    cbn [push_brightness]. split; [exact Hp|].
    unfold within_bounds. cbn [push_brightness]. rewrite Hp. cbn. lia.
  - destruct black_target as (h & s & Ht).
    unfold run. cbn [refresh_rate settings new_Engine Sample.overshoot_settings Z.eqb].
    cbn [run_loop]. unfold mbind, M_bind, tick, update_colors.
    cbn [user_set Sample.black_frame avg_color engine push_ok].
    rewrite Ht. cbn [snd pushes app].
    eexists. split; [reflexivity|].
    assert (int_of_float (lerp (current_brightness (new_Engine Sample.overshoot_settings)) 10
              (smoothing_factor (settings (new_Engine Sample.overshoot_settings)))) = (-15)%Z) as Hp.
    { cbn. unfold lerp. replace (60 + (10 - 60) * 1.5) with (IZR (-15)) by lra.
      apply int_of_float_IZR. }
    cbn [push_brightness]. split; [exact Hp|].
    unfold within_bounds. cbn [push_brightness]. rewrite Hp. cbn. lia.
Qed.
End Brightness.

(** ** Witnesses *)


(** A witness for C3: the first call of a one-band normalizer. *)
Lemma normalizer_range_and_cold_start_witness :
  exists st',
    AudioSync.update_and_normalize [5] Sample.one_band = (Ok [0], st') /\
    ([0] : list R) !! 0%nat = Some 0.
Proof.
  eexists.
  match goal with |- ?A /\ _ => assert A as H end.
  { evaluate. reflexivity. }
  split; [exact H|].
  refine (proj2 (normalizer_range_and_cold_start [] Sample.one_band)
            Sample.one_band [5] [0] _ 0%nat [] H _ _ _).
  - reflexivity.
  - cbn. lia.
  - cbn. lia.
Defined.

(** A witness for C4: the hues 350 and 10. *)
Lemma lerp_hue_shortest_path_witness :
  exists d,
    (d = 10 - 350 - 360 \/ d = 10 - 350 + 360) /\ Rabs d < 180 /\
    ScreenSync.lerp_hue 350 10 0.5 = float_mod (350 + d * 0.5) 360.
Proof.
  destruct lerp_hue_shortest_path as (_ & _ & _ & _ & H).
  apply H; [lra|lra|]. rewrite Rabs_left; lra.
Defined.

(** A witness for C5: the channel value 200. *)
Lemma gamma_one_is_identity_witness :
  (200 <= 255)%N /\
  ScreenSync.apply_gamma_correction (200, 200, 200)%N 1 = Ok (200, 200, 200)%Z.
Proof.
  split; [lia|]. apply (gamma_one_is_identity 200). lia.
Defined.

(** A witness for C6: a push at clock value 1, and an iteration 40 ms
    later. *)
Lemma audio_push_rate_limited_witness :
  exists st,
    AudioSync.run (Some 44100%Z) 0
      [AudioSync.ReadError; AudioSync.Frame 0 [] 1 true] Sample.audio_engine0
    = (Ok tt, st) /\
    length (AudioSync.pushes st) = 1%nat /\
    AudioSync.pushes
      (snd (AudioSync.tick 44100 (AudioSync.Frame 0 [] 1.04 true) st))
    = AudioSync.pushes st.
Proof.
  eexists.
  match goal with |- ?A /\ _ => assert A as H end.
  { evaluate.
    destruct (Rgt_dec _ _) as [_|Hn]; [reflexivity|exfalso; apply Hn; lra]. }
  split; [exact H|]. split; [reflexivity|].
  refine (proj2 (audio_push_rate_limited (Some 44100%Z) 0 _ Sample.audio_engine0)
            _ _ _ _ _ _ H _).
  cbn. lra.
Defined.

(** A witness for C7: the default settings, a white and a black frame. *)
Lemma screen_brightness_within_bounds_witness :
  Forall (ScreenSync.within_bounds ScreenSync.default_settings)
    (ScreenSync.pushes
       (snd (ScreenSync.run [Sample.white_frame; Sample.black_frame]
               (ScreenSync.new_Engine ScreenSync.default_settings)))).
Proof.
  apply (screen_brightness_within_bounds ScreenSync.default_settings None
           [Sample.white_frame; Sample.black_frame]).
  - cbn. lia.
  - cbn. lra.
Defined.

(** A witness for C10: the engine built from the default settings. *)
Lemma audio_hue_range_witness :
  exists e,
    AudioSync.new_Engine true AudioSync.default_settings = Ok e /\
    Forall (fun p => (0 <= push_hue (snd p) <= 231)%Z)
      (AudioSync.pushes
         (snd (AudioSync.run (Some 44100%Z) 0
                 [AudioSync.Frame 0 [] 1 true] e))).
Proof.
  eexists.
  match goal with |- ?A /\ _ => assert A as H end.
  { evaluate. reflexivity. }
  split; [exact H|].
  destruct audio_hue_range as (_ & _ & _ & Hrun).
  exact (Hrun _ _ _ (Some 44100%Z) 0 [AudioSync.Frame 0 [] 1 true] H).
Defined.

(** * Further properties *)

(** ** The coordinator, call by call *)

Section CoordinatorMore.

Lemma start_audio_shape pyaudio env ip a s s' :
  idle s ->
  start_audio pyaudio env ip a s = (Ok tt, s') ->
  exists e,
    AudioSync.new_Engine pyaudio a = Ok e /\
    audio_engine (coord s') =
      Some (AudioSync.set_task (Some (length (loop s)))
              (AudioSync.set_stop_event (Some false) e)) /\
    screen_engine (coord s') = None /\
    active_mode (coord s') = Some AUDIO /\
    loop s' = loop s ++ [Pending].
Proof.
  intros Hidle. unfold start_audio. destruct (truthy ip) as [ip'|]; [|discriminate].
  intros H.
  apply bind_inv in H as [([] & s1 & H1 & H)|(e & H1 & ?)]; [|discriminate].
  destruct (connect_spec _ _ _ _ _ H1) as [Hs1 _].
  apply bind_inv in H as [([] & s2 & H2 & H)|(e & H2 & ?)]; [|discriminate].
  destruct (ensure_on_spec _ _ _ _ H2) as [Hs2 _].
  apply bind_inv in H as [(e & s3 & H3 & H)|(x & H3 & ?)]; [|discriminate].
  unfold lift in H3. simplify_eq.
  pose proof (new_audio_engine_task _ _ _ H0) as Htask.
  destruct Hidle as (Ia & Is & Im & Ip).
  destruct Hs1 as (Hl1 & Ha1 & Hsc1 & Hm1). destruct Hs2 as (Hl2 & Ha2 & Hsc2 & Hm2).
  unfold mbind, M_bind, modify, on_audio, AudioSync.start, AudioSync.running in H.
  rewrite Htask in H. cbn in H. simplify_eq. cbn.
  exists e. rewrite Hl2, Hl1. repeat split; auto. congruence.
Qed.

Lemma start_screen_shape env ip ss sb s s' :
  idle s ->
  start_screen env ip ss sb s = (Ok tt, s') ->
  let e := match sb with
           | Some v => ScreenSync.set_user_brightness v (ScreenSync.new_Engine ss)
           | None => ScreenSync.new_Engine ss
           end in
  screen_engine (coord s') =
    Some (ScreenSync.set_task (Some (length (loop s)))
            (ScreenSync.set_stop_event (Some false) e)) /\
  audio_engine (coord s') = None /\
  active_mode (coord s') = Some SCREEN /\
  loop s' = loop s ++ [Pending].
Proof.
  intros Hidle H e. unfold start_screen in H.
  apply bind_inv in H as [(ip1 & s0 & H0 & H)|(x & H0 & ?)]; [|discriminate].
  assert (same_engines s s0) as Hs0.
  { destruct (truthy ip).
    - cbv in H0. simplify_eq. repeat split.
    - eapply discover_spec; eauto. }
  destruct (truthy ip1) as [ip'|]; [|discriminate].
  apply bind_inv in H as [([] & s1 & H1 & H)|(x & H1 & ?)]; [|discriminate].
  destruct (connect_spec _ _ _ _ _ H1) as [Hs1 _].
  apply bind_inv in H as [([] & s2 & H2 & H)|(x & H2 & ?)]; [|discriminate].
  destruct (ensure_on_spec _ _ _ _ H2) as [Hs2 _].
  destruct Hidle as (Ia & Is & Im & Ip).
  destruct Hs0 as (Hl0 & Ha0 & Hsc0 & Hm0).
  destruct Hs1 as (Hl1 & Ha1 & Hsc1 & Hm1). destruct Hs2 as (Hl2 & Ha2 & Hsc2 & Hm2).
  assert (ScreenSync.task e = None) as Htask by (subst e; destruct sb; reflexivity).
  unfold mbind, M_bind, modify, on_screen, ScreenSync.start, ScreenSync.running in H.
  fold e in H. rewrite Htask in H. cbn in H. simplify_eq. cbn.
  rewrite Hl2, Hl1, Hl0. repeat split; auto. congruence.
Qed.

(** X1. After any history of calls and loop failures, a [start] that returns
    has first brought the coordinator to rest (its [stop] returned and left
    no loop running), then created exactly one new task, the loop of the
    engine of the requested mode; that mode is recorded and the slot of the
    other mode is empty. *)
Theorem start_switches_mode
    (pyaudio : bool) (evs : list Event) (env : Env) (mode : SyncMode)
    (device_ip : option string) (audio_settings : AudioSync.AudioSettings)
    (screen_settings : ScreenSync.ScreenSettings)
    (screen_brightness : option Z) (s' : Sys) :
  start pyaudio env mode device_ip audio_settings screen_settings
    screen_brightness (run_events pyaudio evs initial) = (Ok tt, s') ->
  exists s0,
    stop env (run_events pyaudio evs initial) = (Ok tt, s0) /\
    (forall t, loop s0 !! t <> Some Pending) /\
    loop s' = loop s0 ++ [Pending] /\
    active_mode (coord s') = Some mode /\
    match mode with
    | AUDIO => audio_task s' = Some (length (loop s0)) /\
               screen_engine (coord s') = None
    | SCREEN => screen_task s' = Some (length (loop s0)) /\
                audio_engine (coord s') = None
    end.
Proof.
  intros H.
  pose proof (run_events_attended pyaudio evs _ initial_attended) as Hatt.
  unfold start in H.
  apply bind_inv in H as [([] & s0 & H0 & H)|(e & H0 & ?)]; [|discriminate].
  pose proof (stop_ok_idle _ _ _ Hatt H0) as Hidle.
  exists s0. split; [assumption|]. split; [apply Hidle|].
  destruct mode.
  - destruct (start_audio_shape _ _ _ _ _ _ Hidle H) as (e & _ & Ha & Hs & Hm & Hl).
    repeat split; auto. unfold audio_task. rewrite Ha. reflexivity.
  - destruct (start_screen_shape _ _ _ _ _ _ Hidle H) as (Hsc & Ha & Hm & Hl).
    repeat split; auto. unfold screen_task. rewrite Hsc. reflexivity.
Qed.


(** X2. After a [start] that returns in the audio mode,
    [set_screen_brightness] does nothing. After one in the screen mode, the
    engine held was built from the settings given, with the brightness
    given clamped into 1..100 (80 when none is given) and the smoothed colour
    (0, 50, 60); [set_screen_brightness] then stores its value clamped into
    1..100 in that engine and keeps what [start] promised. *)
Theorem set_screen_brightness_after_start
    (pyaudio : bool) (evs : list Event) (env : Env) (mode : SyncMode)
    (device_ip : option string) (audio_settings : AudioSync.AudioSettings)
    (screen_settings : ScreenSync.ScreenSettings)
    (screen_brightness : option Z) (s' : Sys) :
  start pyaudio env mode device_ip audio_settings screen_settings
    screen_brightness (run_events pyaudio evs initial) = (Ok tt, s') ->
  match mode with
  | AUDIO => forall v, set_screen_brightness v s' = s'
  | SCREEN =>
      exists e,
        screen_engine (coord s') = Some e /\
        ScreenSync.settings e = screen_settings /\
        ScreenSync.user_brightness e =
          match screen_brightness with
          | Some v => Z.max 1 (Z.min 100 v)
          | None => 80%Z
          end /\
        (ScreenSync.current_hue e, ScreenSync.current_sat e,
         ScreenSync.current_brightness e) = (0, 50, 60) /\
        forall v,
          set_screen_brightness v s' =
            set_screen_engine (Some (ScreenSync.set_user_brightness v e)) s' /\
          (1 <= ScreenSync.user_brightness (ScreenSync.set_user_brightness v e)
             <= 100)%Z /\
          consistent (set_screen_brightness v s')
  end.
Proof.
  intros H.
  pose proof (run_events_attended pyaudio evs _ initial_attended) as Hatt.
  assert (consistent s') as Hcons.
  { apply (proj2 (exec_call_spec pyaudio env
                    (CallStart mode device_ip audio_settings screen_settings
                       screen_brightness) _ _ _ Hatt H) eq_refl). }
  unfold start in H.
  apply bind_inv in H as [([] & s0 & H0 & H)|(e & H0 & ?)]; [|discriminate].
  pose proof (stop_ok_idle _ _ _ Hatt H0) as Hidle.
  destruct mode.
  - destruct (start_audio_shape _ _ _ _ _ _ Hidle H) as (e & _ & Ha & Hs & Hm & Hl).
    intros v. unfold set_screen_brightness. rewrite Hs. reflexivity.
  - destruct (start_screen_shape _ _ _ _ _ _ Hidle H) as (Hsc & Ha & Hm & Hl).
    eexists. split; [exact Hsc|].
    split; [destruct screen_brightness; reflexivity|].
    split; [destruct screen_brightness; reflexivity|].
    split; [destruct screen_brightness; reflexivity|].
    intros v. unfold set_screen_brightness. rewrite Hsc.
    split; [reflexivity|]. split; [cbn; lia|].
    destruct Hcons as (C1 & C2 & C3 & C4).
    unfold consistent, running_engines, audio_running, screen_running in *.
    rewrite Hsc in C4. cbn in *. rewrite Ha in *.
    repeat split; try tauto; try (intros; apply C2; assumption);
      try (intros; apply C4; assumption).
Qed.

(** X3. A [start] that raises after its initial [stop] has returned leaves
    the coordinator at rest: no engine is held, no mode is recorded and no
    loop runs; the session that was active before the call is gone too. *)
Theorem failed_start_leaves_idle
    (pyaudio : bool) (evs : list Event) (env : Env) (mode : SyncMode)
    (device_ip : option string) (audio_settings : AudioSync.AudioSettings)
    (screen_settings : ScreenSync.ScreenSettings)
    (screen_brightness : option Z) (x : Exn) (s0 s' : Sys) :
  stop env (run_events pyaudio evs initial) = (Ok tt, s0) ->
  start pyaudio env mode device_ip audio_settings screen_settings
    screen_brightness (run_events pyaudio evs initial) = (Raise x, s') ->
  idle s' /\ running_engines s' = 0%nat /\
  audio_running s' = false /\ screen_running s' = false.
Proof.
  intros H0 H.
  pose proof (run_events_attended pyaudio evs _ initial_attended) as Hatt.
  unfold start in H.
  apply bind_inv in H as [([] & s1 & H1 & H)|(e & H1 & ?)];
    [|rewrite H0 in H1; discriminate].
  rewrite H0 in H1. simplify_eq.
  pose proof (stop_ok_idle _ _ _ Hatt H0) as Hidle.
  assert (idle s') as Hi.
  { destruct mode.
    - apply (start_audio_spec _ _ _ _ _ _ _ Hidle H). discriminate.
    - apply (start_screen_spec _ _ _ _ _ _ _ Hidle H). discriminate. }
  split; [assumption|]. destruct Hi as (Ia & Is & Im & Ip).
  unfold running_engines, audio_running, screen_running.
  rewrite Ia, Is, no_pending_count by assumption. auto.
Qed.


Lemma connect_requests env ip s r s' :
  zoom get_ctl set_ctl (Tapo.connect env ip) s = (r, s') ->
  (requests s' = requests s \/ requests s' = requests s ++ [Connect ip]) /\
  (r = Ok tt -> is_Some (Tapo.device (controller (coord s')))).
Proof.
  unfold zoom, get_ctl, Tapo.connect.
  destruct (bool_decide _) eqn:Hd; [|destruct (connect_ok env)];
    intros H; simplify_eq; cbn; (split; [auto|]); intros; try discriminate.
  - apply bool_decide_eq_true in Hd. apply Hd.
  - eauto.
Qed.

Lemma ensure_on_requests env s r s' :
  zoom get_ctl set_ctl (Tapo.ensure_on env) s = (r, s') ->
  controller (coord s') = controller (coord s) /\
  match Tapo.device (controller (coord s)) with
  | Some _ => requests s' = requests s ++ [PowerOn] /\
              r = (if on_ok env then Ok tt else Raise DeviceError)
  | None => requests s' = requests s /\
            r = Raise (RuntimeError "Device not connected.")
  end.
Proof.
  unfold zoom, get_ctl, Tapo.ensure_on.
  destruct (Tapo.device _); [destruct (on_ok env)|];
    intros H; simplify_eq; cbn; auto.
Qed.

Lemma truthy_idem ip a : truthy ip = Some a -> truthy (Some a) = Some a.
Proof.
  unfold truthy. destruct ip as [x|]; [|discriminate].
  destruct (bool_decide (x = ""%string)) eqn:Hb; [discriminate|].
  intros; simplify_eq. rewrite Hb. reflexivity.
Qed.

Lemma start_screen_requests env ip ss sb s r s' :
  start_screen env ip ss sb s = (r, s') ->
  exists rq,
    requests s' =
      requests s ++ match truthy ip with Some _ => [] | None => [Discover] end ++ rq /\
    Forall (fun q => q = PowerOn \/
                     exists a, q = Connect a /\ resolved_address env ip = Some a)
           rq /\
    (resolved_address env ip = None ->
     rq = [] /\
     r = Raise (RuntimeError "Device not found. Enter its IP and try again.")).
Proof.
  unfold start_screen, resolved_address. intros H.
  apply bind_inv in H as [(ip1 & s0 & H0 & H)|(x & H0 & ?)].
  2:{ destruct (truthy ip); [discriminate|].
      unfold discover_device_ip in H0. discriminate. }
  assert (requests s0 = requests s ++ match truthy ip with Some _ => [] | None => [Discover] end /\
          truthy ip1 = match truthy ip with
                       | Some a => Some a
                       | None => truthy (discovered env)
                       end) as [Hr0 Hip1].
  { destruct (truthy ip) as [a|] eqn:Hip.
    - cbv in H0. simplify_eq. rewrite app_nil_r. split; [reflexivity|].
      eapply truthy_idem; eauto.
    - unfold discover_device_ip in H0. simplify_eq. cbn. auto. }
  rewrite <- Hip1. clear Hip1.
  destruct (truthy ip1) as [ip'|].
  2:{ unfold raise in H. simplify_eq. exists []. rewrite app_nil_r.
      split; [assumption|]. split; [constructor|]. auto. }
  assert (forall s1 (r : Result unit) s',
            requests s1 = requests s0 \/ requests s1 = requests s0 ++ [Connect ip'] ->
            requests s' = requests s1 \/ requests s' = requests s1 ++ [PowerOn] ->
            exists rq,
              requests s' = requests s ++ match truthy ip with Some _ => [] | None => [Discover] end ++ rq /\
              Forall (fun q => q = PowerOn \/
                        exists a, q = Connect a /\ Some ip' = Some a) rq /\
              (Some ip' = None -> rq = [] /\
               r = Raise (RuntimeError "Device not found. Enter its IP and try again."))) as Hfin.
  { intros s1 r1 s1' [Hc|Hc] [Hp|Hp]; rewrite Hp, Hc, Hr0, <- ?app_assoc.
    - exists []. rewrite !app_nil_r. split; [reflexivity|].
      split; [constructor|discriminate].
    - exists [PowerOn]. split; [reflexivity|]. split; [|discriminate].
      apply Forall_singleton. left; reflexivity.
    - exists [Connect ip']. split; [reflexivity|]. split; [|discriminate].
      apply Forall_singleton. right; eauto.
    - exists [Connect ip'; PowerOn]. split; [reflexivity|]. split; [|discriminate].
      apply Forall_cons. split; [right; eauto|].
      apply Forall_singleton. left; reflexivity. }
  apply bind_inv in H as [([] & s1 & H1 & H)|(x & H1 & ->)].
  2:{ destruct (connect_requests _ _ _ _ _ H1) as [Hc _].
      apply (Hfin s' _ s' Hc). auto. }
  destruct (connect_requests _ _ _ _ _ H1) as [Hc Hdev].
  apply bind_inv in H as [([] & s2 & H2 & H)|(x & H2 & ->)].
  2:{ destruct (ensure_on_requests _ _ _ _ H2) as [_ Hp].
      apply (Hfin s1 _ s' Hc). destruct (Tapo.device _); destruct Hp; auto. }
  destruct (ensure_on_requests _ _ _ _ H2) as [_ Hp].
  assert (requests s' = requests s2) as Hs'.
  { unfold mbind, M_bind, modify, on_screen, ScreenSync.start in H.
    cbn in H. destruct (ScreenSync.running _ _); cbn in H; simplify_eq; reflexivity. }
  apply (Hfin s1 _ s' Hc). rewrite Hs'. destruct (Tapo.device _); destruct Hp; auto.
Qed.


(** X4. In the screen mode, once the initial [stop] has returned, the
    address scan is requested exactly when no address is given (none, or the
    empty string), and then exactly once, before anything else; every
    connection request that follows goes to the given or discovered address.
    When the scan finds nothing, nothing else is sent and [start] raises
    [RuntimeError("Device not found. Enter its IP and try again.")]. *)
Theorem screen_start_discovery
    (pyaudio : bool) (env : Env) (device_ip : option string)
    (audio_settings : AudioSync.AudioSettings)
    (screen_settings : ScreenSync.ScreenSettings)
    (screen_brightness : option Z) (s s0 : Sys) (r : Result unit) (s' : Sys) :
  stop env s = (Ok tt, s0) ->
  start pyaudio env SCREEN device_ip audio_settings screen_settings
    screen_brightness s = (r, s') ->
  exists rq,
    requests s' =
      requests s0 ++
      match truthy device_ip with Some _ => [] | None => [Discover] end ++ rq /\
    Forall (fun q => q = PowerOn \/
                     exists a, q = Connect a /\
                               resolved_address env device_ip = Some a) rq /\
    (resolved_address env device_ip = None ->
     rq = [] /\
     r = Raise (RuntimeError "Device not found. Enter its IP and try again.")).
Proof.
  intros H0 H. unfold start in H.
  apply bind_inv in H as [([] & s1 & H1 & H)|(e & H1 & ?)];
    rewrite H0 in H1; [|discriminate].
  simplify_eq. eapply start_screen_requests; eassumption.
Qed.

Lemma new_audio_engine_fails pyaudio a :
  pyaudio = false \/ AudioSync.num_bands a <> 10%Z \/
  (AudioSync.history_len a < 0)%Z ->
  exists x, AudioSync.new_Engine pyaudio a = Raise x.
Proof.
  unfold AudioSync.new_Engine, AudioSync.new_AdaptiveEnergy. intros H.
  destruct ((0 <? _)%Z && _)%bool eqn:Hm; [eauto|].
  destruct pyaudio; cbn; [|eauto].
  destruct (AudioSync.num_bands a =? _)%Z eqn:Hn; cbn; [|eauto].
  apply Z.eqb_eq in Hn.
  change (Z.of_nat _) with 10%Z in Hn.
  destruct H as [H|[H|H]]; [discriminate|congruence|].
  rewrite Hn in Hm. cbn in Hm. apply Z.ltb_ge in Hm. lia.
Qed.

(** X5. In the audio mode, the engine is built only after the lamp has been
    connected and switched on. When the constructor raises (no audio
    backend, a number of bands other than 10, or a negative history length)
    although connection and power-on succeed, [start] raises the
    constructor's exception, the power-on request is the last one sent (the
    lamp is not switched off again), and the coordinator holds no engine and
    records no mode. *)
Theorem audio_constructor_failure
    (env : Env) (pyaudio : bool) (device_ip : option string) (ip : string)
    (audio_settings : AudioSync.AudioSettings)
    (screen_settings : ScreenSync.ScreenSettings)
    (screen_brightness : option Z) (s s0 : Sys) (r : Result unit) (s' : Sys) :
  truthy device_ip = Some ip ->
  connect_ok env = true -> on_ok env = true ->
  pyaudio = false \/ AudioSync.num_bands audio_settings <> 10%Z \/
    (AudioSync.history_len audio_settings < 0)%Z ->
  stop env s = (Ok tt, s0) ->
  start pyaudio env AUDIO device_ip audio_settings screen_settings
    screen_brightness s = (r, s') ->
  (exists x, AudioSync.new_Engine pyaudio audio_settings = Raise x /\
             r = Raise x) /\
  (requests s' = requests s0 ++ [PowerOn] \/
   requests s' = requests s0 ++ [Connect ip; PowerOn]) /\
  is_Some (Tapo.device (controller (coord s'))) /\
  audio_engine (coord s') = None /\ screen_engine (coord s') = None /\
  active_mode (coord s') = None /\ loop s' = loop s0.
Proof.
  intros Hip Hc Hon Hbad H0 H. unfold start in H.
  apply bind_inv in H as [([] & s1 & H1 & H)|(e & H1 & ?)];
    rewrite H0 in H1; [|discriminate].
  simplify_eq.
  destruct (stop_spec _ _ _ _ H0) as (_ & _ & _ & Hok).
  destruct (Hok eq_refl) as (Ia & Is & Im & _ & _).
  unfold start_audio in H. rewrite Hip in H.
  apply bind_inv in H as [([] & s2 & H2 & H)|(x & H2 & ->)].
  2:{ unfold zoom, get_ctl, Tapo.connect in H2. rewrite Hc in H2.
      destruct (bool_decide _); discriminate. }
  destruct (connect_spec _ _ _ _ _ H2) as [(Hl2 & Ha2 & Hs2 & Hm2) _].
  destruct (connect_requests _ _ _ _ _ H2) as [Hr2 Hdev].
  specialize (Hdev eq_refl).
  apply bind_inv in H as [([] & s3 & H3 & H)|(x & H3 & ->)].
  2:{ destruct (ensure_on_requests _ _ _ _ H3) as [_ Hp].
      destruct Hdev as [d Hd]. rewrite Hd, Hon in Hp. destruct Hp; discriminate. }
  destruct (ensure_on_spec _ _ _ _ H3) as [(Hl3 & Ha3 & Hs3 & Hm3) _].
  destruct (ensure_on_requests _ _ _ _ H3) as [Hctl Hp].
  destruct (new_audio_engine_fails _ _ Hbad) as [x Hx].
  unfold mbind, M_bind, lift in H. rewrite Hx in H. simplify_eq.
  split; [eauto|].
  destruct Hdev as [d Hd]. rewrite Hd in Hp. destruct Hp as [Hp _].
  split.
  { rewrite Hp. destruct Hr2 as [->| ->]; [left; reflexivity|].
    right. rewrite <- app_assoc. reflexivity. }
  split; [rewrite Hctl, Hd; eauto|].
  repeat split; congruence.
Qed.

Lemma audio_stop_fails ok e l x e' l' :
  AudioSync.stop ok (e, l) = (Raise x, (e', l')) ->
  x = LoopError /\
  forall ok2, AudioSync.stop ok2 (e', l') = (Raise LoopError, (e', l')).
Proof.
  unfold AudioSync.stop, await_task.
  destruct (AudioSync.task e) as [t|] eqn:Ht; [|discriminate].
  destruct (AudioSync.stop_event e) eqn:Hs;
    (destruct (l !! t) as [[]|] eqn:Hl; [destruct (ok t)| | |]; intros H;
     simplify_eq; (split; [reflexivity|]); intros ok2;
     cbn; rewrite ?Ht, ?Hs; cbn;
     rewrite ?list_lookup_insert_eq by (eapply lookup_lt_Some; eauto);
     rewrite ?Hl; reflexivity).
Qed.

Lemma screen_stop_fails ok e l x e' l' :
  ScreenSync.stop ok (e, l) = (Raise x, (e', l')) ->
  x = LoopError /\
  forall ok2, ScreenSync.stop ok2 (e', l') = (Raise LoopError, (e', l')).
Proof.
  unfold ScreenSync.stop, await_task.
  destruct (ScreenSync.task e) as [t|] eqn:Ht; [|discriminate].
  destruct (ScreenSync.stop_event e) eqn:Hs;
    (destruct (l !! t) as [[]|] eqn:Hl; [destruct (ok t)| | |]; intros H;
     simplify_eq; (split; [reflexivity|]); intros ok2;
     cbn; rewrite ?Ht, ?Hs; cbn;
     rewrite ?list_lookup_insert_eq by (eapply lookup_lt_Some; eauto);
     rewrite ?Hl; reflexivity).
Qed.

Lemma stop_fails env s x s' :
  stop env s = (Raise x, s') ->
  x = LoopError /\ forall env2, stop env2 s' = (Raise LoopError, s').
Proof.
  unfold stop. intros H.
  apply bind_inv in H as [([] & s1 & H1 & H)|(x1 & H1 & ?)].
  - apply bind_inv in H as [([] & s2 & H2 & H)|(x2 & H2 & ?)].
    + cbv [mbind M_bind try_pass modify] in H. discriminate.
    + simplify_eq.
      destruct (stop_audio_spec _ _ _ _ H1) as (_ & _ & _ & _ & _ & Hok).
      destruct (Hok eq_refl) as [Ha1 _].
      destruct (stop_screen_spec _ _ _ _ H2) as (_ & _ & _ & Ha2 & _ & _).
      unfold stop_screen in H2. cbv [mbind M_bind gets] in H2.
      destruct (screen_engine (coord s1)) as [e|] eqn:He; [|discriminate].
      unfold on_screen at 1 in H2.
      destruct (ScreenSync.stop (exit_ok env) (e, loop s1)) as [r [e' l']] eqn:Hst.
      destruct r as [[]|y]; [discriminate|]. simplify_eq.
      destruct (screen_stop_fails _ _ _ _ _ _ Hst) as [-> Hagain].
      split; [reflexivity|]. intros env2.
      unfold stop_audio, stop_screen, on_screen. cbv [mbind M_bind gets].
      cbn -[ScreenSync.stop]. rewrite Ha1. cbn -[ScreenSync.stop].
      rewrite Hagain. cbn. rewrite ?Ha1. reflexivity.
  - simplify_eq.
    unfold stop_audio in H1. cbv [mbind M_bind gets] in H1.
    destruct (audio_engine (coord s)) as [e|] eqn:He; [|discriminate].
    unfold on_audio at 1 in H1.
    destruct (AudioSync.stop (exit_ok env) (e, loop s)) as [r [e' l']] eqn:Hst.
    destruct r as [[]|y]; [discriminate|]. simplify_eq.
    destruct (audio_stop_fails _ _ _ _ _ _ Hst) as [-> Hagain].
    split; [reflexivity|]. intros env2.
    unfold stop_audio, on_audio. cbv [mbind M_bind gets].
    cbn -[AudioSync.stop]. rewrite Hagain. reflexivity.
Qed.

Lemma new_audio_engine_error pyaudio a x :
  AudioSync.new_Engine pyaudio a = Raise x -> x <> LoopError.
Proof.
  unfold AudioSync.new_Engine, AudioSync.new_AdaptiveEnergy.
  destruct (_ && _)%bool; [intros H; simplify_eq; discriminate|].
  destruct pyaudio; cbn; [|intros H; simplify_eq; discriminate].
  destruct (negb _); intros H; simplify_eq; discriminate.
Qed.

Lemma connect_error env ip s x s' :
  zoom get_ctl set_ctl (Tapo.connect env ip) s = (Raise x, s') -> x = DeviceError.
Proof.
  unfold zoom, get_ctl, Tapo.connect.
  destruct (bool_decide _); [|destruct (connect_ok env)]; intros; simplify_eq.
  reflexivity.
Qed.

Lemma ensure_on_error env s x s' :
  zoom get_ctl set_ctl (Tapo.ensure_on env) s = (Raise x, s') ->
  x = DeviceError \/ x = RuntimeError "Device not connected.".
Proof.
  unfold zoom, get_ctl, Tapo.ensure_on.
  destruct (Tapo.device _); [destruct (on_ok env)|]; intros; simplify_eq; auto.
Qed.

Lemma start_audio_error pyaudio env ip a s x s' :
  start_audio pyaudio env ip a s = (Raise x, s') -> x <> LoopError.
Proof.
  unfold start_audio.
  destruct (truthy ip) as [ip'|];
    [|intros H; unfold raise in H; simplify_eq; discriminate].
  intros H.
  apply bind_inv in H as [([] & s1 & H1 & H)|(x1 & H1 & ?)];
    [|simplify_eq; rewrite (connect_error _ _ _ _ _ H1); discriminate].
  apply bind_inv in H as [([] & s2 & H2 & H)|(x2 & H2 & ?)];
    [|simplify_eq; destruct (ensure_on_error _ _ _ _ H2) as [-> | ->]; discriminate].
  apply bind_inv in H as [(e & s3 & H3 & H)|(x3 & H3 & ?)].
  - unfold mbind, M_bind, modify, on_audio, AudioSync.start in H. cbn in H.
    destruct (AudioSync.running _ _); discriminate.
  - unfold lift in H3. simplify_eq. eapply new_audio_engine_error; eauto.
Qed.

Lemma start_screen_error env ip ss sb s x s' :
  start_screen env ip ss sb s = (Raise x, s') -> x <> LoopError.
Proof.
  unfold start_screen. intros H.
  apply bind_inv in H as [(ip1 & s0 & H0 & H)|(x0 & H0 & ?)].
  2:{ destruct (truthy ip); discriminate. }
  destruct (truthy ip1) as [ip'|];
    [|unfold raise in H; simplify_eq; discriminate].
  apply bind_inv in H as [([] & s1 & H1 & H)|(x1 & H1 & ?)];
    [|simplify_eq; rewrite (connect_error _ _ _ _ _ H1); discriminate].
  apply bind_inv in H as [([] & s2 & H2 & H)|(x2 & H2 & ?)];
    [|simplify_eq; destruct (ensure_on_error _ _ _ _ H2) as [-> | ->]; discriminate].
  unfold mbind, M_bind, modify, on_screen, ScreenSync.start in H. cbn in H.
  destruct (ScreenSync.running _ _); discriminate.
Qed.

(** X6. Once a call of [start] or [stop] has raised the exception of an
    engine loop, every later call of [start] or [stop], in any environment,
    raises it again and changes nothing: the failed engine stays in its slot
    and is awaited first by every call. *)
Theorem loop_failure_is_permanent
    (pyaudio : bool) (env : Env) (c : Call) (s s' : Sys) :
  exec_call pyaudio env c s = (Raise LoopError, s') ->
  forall (env2 : Env) (c2 : Call),
    exec_call pyaudio env2 c2 s' = (Raise LoopError, s').
Proof.
  intros H.
  assert (forall env2, stop env2 s' = (Raise LoopError, s')) as Hstop.
  { destruct c as [mode ip a ss sb|]; cbn in H.
    - unfold start in H.
      apply bind_inv in H as [([] & s1 & H1 & H)|(x1 & H1 & ?)].
      + exfalso. destruct mode.
        * eapply start_audio_error; eauto.
        * eapply start_screen_error; eauto.
      + simplify_eq. apply (stop_fails _ _ _ _ H1).
    - apply (stop_fails _ _ _ _ H). }
  intros env2 [mode ip a ss sb|]; cbn; [|apply Hstop].
  unfold start. cbv [mbind M_bind]. rewrite Hstop. reflexivity.
Qed.

(** X7. The power-off of [stop] is best effort: whether the power-off
    request succeeds changes neither the result of [stop] nor the state it
    leaves; and the only exception [stop] ever raises is that of an engine
    loop. *)
Theorem stop_power_off_best_effort (env : Env) (b : bool) (s : Sys) :
  let env' := {| discovered := discovered env; connect_ok := connect_ok env;
                 on_ok := on_ok env; off_ok := b; exit_ok := exit_ok env |} in
  stop env' s = stop env s /\
  (fst (stop env s) = Ok tt \/ fst (stop env s) = Raise LoopError).
Proof.
  intros env'. split.
  - unfold stop, stop_audio, stop_screen, try_pass, zoom, get_ctl, Tapo.ensure_off.
    cbv [mbind M_bind gets modify mret M_ret]. cbn.
    destruct (audio_engine (coord s)) as [ea|]; cbn.
    + destruct (on_audio ea _ s) as [[[]|x] s1]; [|reflexivity]. cbn.
      destruct (screen_engine (coord s1)) as [es|]; cbn.
      * destruct (on_screen es _ _) as [[[]|x] s2]; [|reflexivity]. cbn.
        destruct (Tapo.device _); [destruct b, (off_ok env)|]; reflexivity.
      * destruct (Tapo.device _); [destruct b, (off_ok env)|]; reflexivity.
    + destruct (screen_engine (coord s)) as [es|]; cbn.
      * destruct (on_screen es _ _) as [[[]|x] s2]; [|reflexivity]. cbn.
        destruct (Tapo.device _); [destruct b, (off_ok env)|]; reflexivity.
      * destruct (Tapo.device _); [destruct b, (off_ok env)|]; reflexivity.
  - destruct (stop env s) as [[[]|x] s1] eqn:H; [left; reflexivity|].
    right. destruct (stop_fails _ _ _ _ H) as [-> _]. reflexivity.
Qed.


Lemma connect_ok_result env ip s s' :
  zoom get_ctl set_ctl (Tapo.connect env ip) s = (Ok tt, s') ->
  Tapo.device_ip (controller (coord s')) = Some ip /\
  is_Some (Tapo.device (controller (coord s'))).
Proof.
  unfold zoom, get_ctl, Tapo.connect.
  destruct (bool_decide _) eqn:Hd; [|destruct (connect_ok env)];
    intros H; simplify_eq; cbn.
  - apply bool_decide_eq_true in Hd. destruct Hd. auto.
  - eauto.
Qed.

Lemma power_on_result env s s' :
  zoom get_ctl set_ctl (Tapo.ensure_on env) s = (Ok tt, s') ->
  controller (coord s') = controller (coord s) /\
  last (requests s') = Some PowerOn.
Proof.
  intros H. destruct (ensure_on_requests _ _ _ _ H) as [Hc Hp].
  split; [assumption|].
  destruct (Tapo.device _); destruct Hp as [-> ?]; [|discriminate].
  apply last_snoc.
Qed.

Lemma power_on_ok env s s' :
  zoom get_ctl set_ctl (Tapo.ensure_on env) s = (Ok tt, s') -> on_ok env = true.
Proof.
  unfold zoom, get_ctl, Tapo.ensure_on.
  destruct (Tapo.device _); [destruct (on_ok env)|]; intros; simplify_eq.
  reflexivity.
Qed.

(** X8. After a [start] that returns, the controller holds a device handle
    for the requested address (in the audio mode the one given, in the screen
    mode the one given or else the one discovered), the power-on request
    succeeded, and it is the last request that was sent. *)
Theorem start_connects_and_powers_on
    (pyaudio : bool) (env : Env) (mode : SyncMode)
    (device_ip : option string) (audio_settings : AudioSync.AudioSettings)
    (screen_settings : ScreenSync.ScreenSettings)
    (screen_brightness : option Z) (s s' : Sys) :
  start pyaudio env mode device_ip audio_settings screen_settings
    screen_brightness s = (Ok tt, s') ->
  exists ip,
    match mode with
    | AUDIO => truthy device_ip
    | SCREEN => resolved_address env device_ip
    end = Some ip /\
    Tapo.device_ip (controller (coord s')) = Some ip /\
    is_Some (Tapo.device (controller (coord s'))) /\
    last (requests s') = Some PowerOn /\
    on_ok env = true.
Proof.
  intros H. unfold start in H.
  apply bind_inv in H as [([] & s0 & H0 & H)|(e & H0 & ?)]; [|discriminate].
  destruct mode.
  - unfold start_audio in H.
    destruct (truthy device_ip) as [ip|]; [|discriminate]. exists ip.
    apply bind_inv in H as [([] & s1 & H1 & H)|(e & H1 & ?)]; [|discriminate].
    apply bind_inv in H as [([] & s2 & H2 & H)|(e & H2 & ?)]; [|discriminate].
    apply bind_inv in H as [(e & s3 & H3 & H)|(x & H3 & ?)]; [|discriminate].
    unfold lift in H3. simplify_eq.
    destruct (connect_ok_result _ _ _ _ H1) as [Hip Hdev].
    destruct (power_on_result _ _ _ H2) as [Hc Hl].
    assert (controller (coord s') = controller (coord s3) /\
            requests s' = requests s3) as [Hc' Hr'].
    { unfold mbind, M_bind, modify, on_audio, AudioSync.start in H. cbn in H.
      destruct (AudioSync.running _ _); cbn in H; simplify_eq; auto. }
    rewrite Hc', Hr', Hc. split; [reflexivity|].
    repeat split; auto. eapply power_on_ok; eauto.
  - unfold start_screen, resolved_address in *.
    apply bind_inv in H as [(ip1 & s1 & H1 & H)|(x & H1 & ?)]; [|discriminate].
    assert (truthy ip1 = match truthy device_ip with
                         | Some a => Some a
                         | None => truthy (discovered env)
                         end) as Hip1.
    { destruct (truthy device_ip) as [a|] eqn:Hip.
      - cbv in H1. simplify_eq. eapply truthy_idem; eauto.
      - unfold discover_device_ip in H1. simplify_eq. reflexivity. }
    rewrite <- Hip1. clear Hip1.
    destruct (truthy ip1) as [ip|]; [|discriminate]. exists ip.
    apply bind_inv in H as [([] & s2 & H2 & H)|(e & H2 & ?)]; [|discriminate].
    apply bind_inv in H as [([] & s3 & H3 & H)|(e & H3 & ?)]; [|discriminate].
    destruct (connect_ok_result _ _ _ _ H2) as [Hip Hdev].
    destruct (power_on_result _ _ _ H3) as [Hc Hl].
    assert (controller (coord s') = controller (coord s3) /\
            requests s' = requests s3) as [Hc' Hr'].
    { unfold mbind, M_bind, modify, on_screen, ScreenSync.start in H. cbn in H.
      destruct (ScreenSync.running _ _); cbn in H; simplify_eq; auto. }
    rewrite Hc', Hr', Hc. split; [reflexivity|].
    repeat split; auto. eapply power_on_ok; eauto.
Qed.

End CoordinatorMore.

(** ** The controller and the engines *)

Section Controller.

(** X9. [connect] caches the session: after a [connect] that returns, the
    controller holds a handle for that address and a further [connect] to
    the same address returns without sending anything. A [connect] that
    raises has sent its request and leaves handle and address as they were;
    on a controller that had no handle, [ensure_on] then raises
    [RuntimeError("Device not connected.")] and [ensure_off] returns, both
    without sending anything. *)
Theorem connect_caches_session
    (env : Env) (ip : string) (self : Tapo.TapoController)
    (reqs : list Request) (r : Result unit) (self' : Tapo.TapoController)
    (reqs' : list Request) :
  Tapo.connect env ip (self, reqs) = (r, (self', reqs')) ->
  match r with
  | Ok _ =>
      is_Some (Tapo.device self') /\ Tapo.device_ip self' = Some ip /\
      forall env2,
        Tapo.connect env2 ip (self', reqs') = (Ok tt, (self', reqs'))
  | Raise x =>
      x = DeviceError /\ connect_ok env = false /\
      reqs' = reqs ++ [Connect ip] /\
      Tapo.device self' = Tapo.device self /\
      Tapo.device_ip self' = Tapo.device_ip self /\
      (Tapo.device self = None ->
       forall env2,
         Tapo.ensure_on env2 (self', reqs')
           = (Raise (RuntimeError "Device not connected."), (self', reqs')) /\
         Tapo.ensure_off env2 (self', reqs') = (Ok tt, (self', reqs')))
  end.
Proof.
  unfold Tapo.connect.
  destruct (bool_decide _) eqn:Hd.
  - intros H. simplify_eq. apply bool_decide_eq_true in Hd as [Hdev Hip].
    split; [assumption|]. split; [assumption|].
    intros env2. unfold Tapo.connect. rewrite bool_decide_eq_true_2; auto.
  - destruct (connect_ok env) eqn:Hc; intros H; simplify_eq; cbn.
    + split; [eauto|]. split; [reflexivity|]. intros env2.
      unfold Tapo.connect. cbn. rewrite bool_decide_eq_true_2; eauto.
    + repeat split; auto;
        unfold Tapo.ensure_on, Tapo.ensure_off; cbn; rewrite H; reflexivity.
Qed.

End Controller.

Section EngineLifeCycle.

(** X10. For both engines: [start] on an engine whose loop is not running
    (never started, or ended) creates one new task, the last of the event
    loop, with a fresh stop event, and the engine is then running; [stop]
    then sets the event and awaits that task: if the loop exits cleanly the
    task is finished and forgotten, and otherwise [stop] raises the loop's
    exception and the engine keeps the failed task. *)
Theorem engine_restart_round_trip
    (ea : AudioSync.Engine) (es : ScreenSync.Engine) (loop : EventLoop)
    (exit_ok : nat -> bool) :
  let t := length loop in
  let ea1 := AudioSync.set_task (Some t)
               (AudioSync.set_stop_event (Some false) ea) in
  let es1 := ScreenSync.set_task (Some t)
               (ScreenSync.set_stop_event (Some false) es) in
  (AudioSync.running ea loop = false ->
   AudioSync.start (ea, loop) = (Ok tt, (ea1, loop ++ [Pending])) /\
   AudioSync.running ea1 (loop ++ [Pending]) = true /\
   AudioSync.stop exit_ok (ea1, loop ++ [Pending]) =
     if exit_ok t
     then (Ok tt, (AudioSync.set_task None
                     (AudioSync.set_stop_event (Some true) ea1),
                   loop ++ [Finished]))
     else (Raise LoopError, (AudioSync.set_stop_event (Some true) ea1,
                             loop ++ [Failed]))) /\
  (ScreenSync.running es loop = false ->
   ScreenSync.start (es, loop) = (Ok tt, (es1, loop ++ [Pending])) /\
   ScreenSync.running es1 (loop ++ [Pending]) = true /\
   ScreenSync.stop exit_ok (es1, loop ++ [Pending]) =
     if exit_ok t
     then (Ok tt, (ScreenSync.set_task None
                     (ScreenSync.set_stop_event (Some true) es1),
                   loop ++ [Finished]))
     else (Raise LoopError, (ScreenSync.set_stop_event (Some true) es1,
                             loop ++ [Failed]))).
Proof.
  intros t ea1 es1.
  assert ((loop ++ [Pending]) !! t = Some Pending) as Hl.
  { subst t. rewrite lookup_app_r, Nat.sub_diag by lia. reflexivity. }
  assert (forall x, <[t := x]> (loop ++ [Pending]) = loop ++ [x]) as Hi.
  { intros x. subst t. rewrite insert_app_r_alt, Nat.sub_diag by lia.
    reflexivity. }
  split; intros Hrun.
  - split; [unfold AudioSync.start; rewrite Hrun; reflexivity|].
    split; [unfold AudioSync.running, done; cbn; rewrite Hl; reflexivity|].
    unfold AudioSync.stop, await_task. cbn. fold t. rewrite Hl.
    destruct (exit_ok t); rewrite Hi; reflexivity.
  - split; [unfold ScreenSync.start; rewrite Hrun; reflexivity|].
    split; [unfold ScreenSync.running, done; cbn; rewrite Hl; reflexivity|].
    unfold ScreenSync.stop, await_task. cbn. fold t. rewrite Hl.
    destruct (exit_ok t); rewrite Hi; reflexivity.
Qed.

End EngineLifeCycle.

(** ** The normalizer as a sliding window *)

Section NormalizerMore.
Import AudioSync.

Lemma deque_append_window m h x :
  (length h <= m)%nat ->
  deque_append m h x = drop (length h + 1 - m) (h ++ [x]) /\
  (length (deque_append m h x) <= m)%nat.
Proof.
  intros Hle. unfold deque_append.
  destruct (length h <? m)%nat eqn:Hlt.
  - apply Nat.ltb_lt in Hlt.
    replace (length h + 1 - m)%nat with 0%nat by lia.
    split; [reflexivity|]. rewrite length_app. cbn. lia.
  - apply Nat.ltb_ge in Hlt.
    replace (length h + 1 - m)%nat with 1%nat by lia.
    split; [destruct (h ++ [x]); reflexivity|].
    destruct h as [|y h]; cbn in *; [lia|].
    rewrite length_app. cbn. lia.
Qed.

(** The loop on inputs of any length. *)
Lemma update_loop_any es : forall pre hs acc m,
  exists out,
    update_loop (length pre) es acc {| band_hist := pre ++ hs; maxlen := m |} =
    ((if (length es <=? length hs)%nat then Ok out else Raise IndexError),
     {| band_hist := pre ++ zip_with (deque_append m) hs es
                         ++ drop (length es) hs;
        maxlen := m |}) /\
    length out = (length acc + length es)%nat.
Proof.
  induction es as [|e es IH]; intros pre hs acc m.
  - exists acc. cbn. rewrite drop_0.
    destruct hs; cbn; (split; [reflexivity|lia]).
  - cbn [update_loop band_hist AudioSync.maxlen].
    destruct hs as [|h hs].
    + rewrite app_nil_r, lookup_ge_None_2 by lia.
      exists (acc ++ replicate (length (e :: es)) 0). cbn [length zip_with drop].
      rewrite app_nil_r. split; [reflexivity|].
      rewrite length_app, length_replicate. reflexivity.
    + rewrite lookup_app_r, Nat.sub_diag by lia. cbn [lookup list_lookup].
      rewrite insert_app_r_alt, Nat.sub_diag by lia. cbn [insert list_insert].
      set (h' := deque_append m h e).
      assert (forall acc',
        exists out,
          update_loop (S (length pre)) es acc'
            {| band_hist := pre ++ h' :: hs; maxlen := m |} =
          ((if (length (e :: es) <=? length (h :: hs))%nat
            then Ok out else Raise IndexError),
           {| band_hist := pre ++ zip_with (deque_append m) (h :: hs) (e :: es)
                               ++ drop (length (e :: es)) (h :: hs);
              maxlen := m |}) /\
          length out = (length acc' + length es)%nat) as Hstep.
      { intros acc'.
        destruct (IH (pre ++ [h']) hs acc' m) as (out & Hout & Hlen).
        rewrite length_app in Hout. cbn [length] in Hout.
        rewrite Nat.add_1_r, <- !app_assoc in Hout. cbn [app] in Hout.
        exists out. split; [|assumption]. exact Hout. }
      destruct (length h' <? 20)%nat.
      * destruct (Hstep (acc ++ [0])) as (out & Hout & Hlen).
        exists out. split; [exact Hout|].
        rewrite Hlen, length_app. cbn. lia.
      * destruct (Hstep (acc ++ [normalize_band h' e])) as (out & Hout & Hlen).
        exists out. split; [exact Hout|].
        rewrite Hlen, length_app. cbn. lia.
Qed.

Lemma update_and_normalize_shape (raw : list R) (st : AdaptiveEnergy) :
  exists st',
    snd (update_and_normalize raw st) = st' /\
    maxlen st' = maxlen st /\
    band_hist st' =
      zip_with (deque_append (maxlen st)) (band_hist st) raw
      ++ drop (length raw) (band_hist st) /\
    ((length raw <= length (band_hist st))%nat ->
     exists out, update_and_normalize raw st = (Ok out, st') /\
                 length out = length raw) /\
    ((length (band_hist st) < length raw)%nat ->
     update_and_normalize raw st = (Raise IndexError, st') /\
     length (band_hist st') = length (band_hist st)).
Proof.
  destruct st as [hs m]. unfold update_and_normalize.
  destruct (update_loop_any raw [] hs [] m) as (out & Hout & Hlen).
  cbn [length app] in Hout. rewrite Hout. cbn [snd band_hist AudioSync.maxlen].
  eexists. split; [reflexivity|]. split; [reflexivity|].
  split; [reflexivity|]. split.
  - intros Hle. exists out. apply Nat.leb_le in Hle. rewrite Hle.
    split; [reflexivity|]. cbn in Hlen. exact Hlen.
  - intros Hlt. split.
    + apply Nat.leb_gt in Hlt. rewrite Hlt. reflexivity.
    + cbn [band_hist]. rewrite length_app, length_zip_with, length_drop. lia.
Qed.

(** X11. [update_and_normalize] on a list of any length appends the i-th
    energy to the i-th history for as many bands as both have, and leaves
    the other histories alone. With at most as many energies as bands it
    returns one value per energy; with more energies than bands it raises
    [IndexError], after every history has been updated. *)
Theorem update_and_normalize_length_mismatch
    (raw : list R) (st : AdaptiveEnergy) :
  exists st',
    snd (update_and_normalize raw st) = st' /\
    maxlen st' = maxlen st /\
    band_hist st' =
      zip_with (deque_append (maxlen st)) (band_hist st) raw
      ++ drop (length raw) (band_hist st) /\
    ((length raw <= length (band_hist st))%nat ->
     exists out, update_and_normalize raw st = (Ok out, st') /\
                 length out = length raw) /\
    ((length (band_hist st) < length raw)%nat ->
     update_and_normalize raw st = (Raise IndexError, st') /\
     length (band_hist st') = length (band_hist st)).
Proof.
  destruct st as [hs m]. unfold update_and_normalize.
  destruct (update_loop_any raw [] hs [] m) as (out & Hout & Hlen).
  cbn [length app] in Hout. rewrite Hout. cbn [snd band_hist AudioSync.maxlen].
  eexists. split; [reflexivity|]. split; [reflexivity|].
  split; [reflexivity|]. split.
  - intros Hle. exists out. apply Nat.leb_le in Hle. rewrite Hle.
    split; [reflexivity|]. cbn in Hlen. exact Hlen.
  - intros Hlt. split.
    + apply Nat.leb_gt in Hlt. rewrite Hlt. reflexivity.
    + cbn [band_hist]. rewrite length_app, length_zip_with, length_drop. lia.
Qed.


Lemma feed_cons raw rest st :
  feed (raw :: rest) st =
    (fst (update_and_normalize raw st)
       :: fst (feed rest (snd (update_and_normalize raw st))),
     snd (feed rest (snd (update_and_normalize raw st)))).
Proof.
  cbn [feed]. destruct (update_and_normalize raw st) as [r st1].
  cbn [fst snd]. destruct (feed rest st1). reflexivity.
Qed.

(** X12. Each history is a sliding window: after any number of calls with
    one energy per band, every call returns, the capacity is unchanged, and
    the history of band [i] holds its previous content followed by the
    energies fed to band [i], oldest first, cut down to the last [maxlen]
    entries. *)
Theorem history_is_sliding_window (calls : list (list R)) :
  forall (st : AdaptiveEnergy) (i : nat) (h : list R),
    Forall (fun raw => length raw = length (band_hist st)) calls ->
    band_hist st !! i = Some h -> (length h <= maxlen st)%nat ->
    Forall (fun r => exists out, r = Ok out /\
                                 length out = length (band_hist st))
           (fst (feed calls st)) /\
    maxlen (snd (feed calls st)) = maxlen st /\
    band_hist (snd (feed calls st)) !! i =
      Some (drop (length h + length calls - maxlen st)
                 (h ++ omap (fun raw => raw !! i) calls)).
Proof.
  induction calls as [|raw rest IH]; intros st i h Hlen Hi Hh.
  - cbn. split; [constructor|]. split; [reflexivity|].
    rewrite app_nil_r.
    replace (length h + 0 - maxlen st)%nat with 0%nat by lia.
    rewrite drop_0. assumption.
  - apply Forall_cons in Hlen as [Hraw Hrest].
    destruct (update_and_normalize_shape raw st)
      as (st1 & Hst1 & Hm & Hb & Hok & _).
    destruct (Hok ltac:(lia)) as (out & Hout & Hlo).
    assert (length (band_hist st1) = length (band_hist st)) as Hl1.
    { rewrite Hb, length_app, length_zip_with, length_drop. lia. }
    assert (exists x, raw !! i = Some x) as [x Hx].
    { apply lookup_lt_is_Some. rewrite Hraw. eapply lookup_lt_Some; eauto. }
    assert (band_hist st1 !! i = Some (deque_append (maxlen st) h x)) as Hi1.
    { rewrite Hb, lookup_app_l.
      - rewrite lookup_zip_with, Hi, Hx. reflexivity.
      - rewrite length_zip_with, Hraw, Nat.min_id.
        eapply lookup_lt_Some; eauto. }
    destruct (deque_append_window (maxlen st) h x Hh) as [Hw Hwl].
    assert (length (deque_append (maxlen st) h x) <= maxlen st1)%nat as Hwl1
      by (rewrite Hm; assumption).
    assert (Forall (fun raw => length raw = length (band_hist st1)) rest) as Hrest1.
    { rewrite Hl1. assumption. }
    destruct (IH st1 i _ Hrest1 Hi1 Hwl1) as (IH1 & IH2 & IH3).
    rewrite feed_cons, Hout. cbn [fst snd].
    clear Hst1 Hok.
    split; [|split].
    + constructor; [exists out; split; [reflexivity|lia]|].
      rewrite <- Hl1. assumption.
    + congruence.
    + rewrite IH3, Hm. f_equal.
      cbn [omap list_omap length]. rewrite Hx.
      rewrite Hw.
      assert (length h + 1 - maxlen st <= length (h ++ [x]))%nat as Hd
        by (rewrite length_app; cbn; lia).
      rewrite length_drop, length_app. cbn [length].
      rewrite <- (drop_app_le (h ++ [x])) by assumption.
      rewrite drop_drop, <- app_assoc. cbn [app]. f_equal. lia.
Qed.



End NormalizerMore.

(** ** The colours of the audio loop *)

Section AudioLoopMore.
Import AudioSync.

Lemma tick_pushes (I : nat -> Engine -> Prop) (P : Push -> Prop) rate k inp
    st r st' :
  (forall e, I (S k) e -> I k e) ->
  (forall n mag e r e',
     I (S k) e -> analyze_frame n mag rate e = (r, e') ->
     I k e' /\ forall bn, r = Ok bn -> P (push_of_bands bn)) ->
  I (S k) (engine st) ->
  Forall (fun p => P (snd p)) (pushes st) ->
  tick rate inp st = (r, st') ->
  I k (engine st') /\ Forall (fun p => P (snd p)) (pushes st').
Proof.
  intros Hmono Hstep Hinv Hall. destruct inp as [|n mag now ok]; cbn [tick].
  { intros H. cbv in H. simplify_eq. auto. }
  intros H.
  unfold mbind, M_bind, zoom in H.
  destruct (analyze_frame n mag rate (engine st)) as [r1 e1] eqn:Ha.
  destruct (Hstep _ _ _ _ _ Hinv Ha) as [Hinv1 Hbn].
  destruct r1 as [bn|x]; [|simplify_eq; auto].
  specialize (Hbn bn eq_refl). unfold push_of_bands in Hbn.
  destruct (color_of_bands bn) as [[hue sat] bri].
  unfold gets in H. cbn in H.
  destruct (Rgt_dec _ _).
  - unfold modify in H. cbn in H.
    destruct ok; cbn in H; simplify_eq; cbn; (split; [assumption|]);
      apply Forall_app; (split; [assumption|]); apply Forall_singleton;
      exact Hbn.
  - cbv in H. simplify_eq. cbn. auto.
Qed.

Lemma run_loop_pushes (I : nat -> Engine -> Prop) (P : Push -> Prop) rate :
  (forall k e, I (S k) e -> I k e) ->
  (forall k n mag e r e',
     I (S k) e -> analyze_frame n mag rate e = (r, e') ->
     I k e' /\ forall bn, r = Ok bn -> P (push_of_bands bn)) ->
  forall ticks st r st',
    I (length ticks) (engine st) ->
    Forall (fun p => P (snd p)) (pushes st) ->
    run_loop rate ticks st = (r, st') ->
    Forall (fun p => P (snd p)) (pushes st').
Proof.
  intros Hmono Hstep.
  induction ticks as [|inp ticks IH]; intros st r st' Hinv Hall H.
  { cbv in H. simplify_eq. assumption. }
  cbn [run_loop] in H. unfold mbind, M_bind in H.
  destruct (tick rate inp st) as [r1 st1] eqn:H1.
  destruct (tick_pushes I P rate (length ticks) inp st r1 st1
              (Hmono _) (Hstep _) Hinv Hall H1) as [Hinv1 Hall1].
  destruct r1 as [[]|x]; [eapply IH; eauto|simplify_eq; assumption].
Qed.

Lemma saturation_brightness_of_bands (bn : list R) :
  length bn = 10%nat ->
  Forall (fun v => 0 <= v <= tanh 2) bn ->
  (50 <= push_saturation (push_of_bands bn) <= 98)%Z /\
  (20 <= push_brightness (push_of_bands bn) <= 97)%Z.
Proof.
  intros Hlen Hall.
  assert (0 <= mean (slice 3 6 bn) <= tanh 2) as [Hm0 Hm2].
  { apply mean_bounds.
    - do 10 (destruct bn as [|? bn]; [discriminate|]). discriminate.
    - unfold slice. apply Forall_take, Forall_drop. assumption. }
  assert (0 <= mean bn <= tanh 2) as [Ho0 Ho2].
  { apply mean_bounds; [|assumption]. destruct bn; discriminate. }
  pose proof tanh_2_bound as Hb.
  unfold push_of_bands, color_of_bands. cbn [push_saturation push_brightness].
  set (s := int_of_float (50 + mean (slice 3 6 bn) * 50)).
  set (b := int_of_float (20 + mean bn * 80)).
  assert (50 <= s <= 98)%Z.
  { destruct (int_of_float_nonneg (50 + mean (slice 3 6 bn) * 50)) as [H1 H2];
      [lra|]. fold s in H1, H2. split.
    - assert (IZR 49 < IZR s) as H by lra. apply lt_IZR in H. lia.
    - assert (IZR s < IZR 99) as H by lra. apply lt_IZR in H. lia. }
  assert (20 <= b <= 97)%Z.
  { destruct (int_of_float_nonneg (20 + mean bn * 80)) as [H1 H2];
      [lra|]. fold b in H1, H2. split.
    - assert (IZR 19 < IZR b) as H' by lra. apply lt_IZR in H'. lia.
    - assert (IZR b < IZR 98) as H' by lra. apply lt_IZR in H'. lia. }
  lia.
Qed.

(** X14. Every push of the audio loop of a constructed engine carries a
    saturation from 50 to 98 and a brightness from 20 to 97, whatever the
    frames: the clamps to 30..100 and 10..100 of the loop never act. *)
Theorem audio_saturation_brightness_range
    (pyaudio : bool) (a : AudioSettings) (e : Engine) (opened : option Z)
    (t0 : R) (ticks : list TickInput) :
  new_Engine pyaudio a = Ok e ->
  Forall (fun p => (50 <= push_saturation (snd p) <= 98)%Z /\
                   (20 <= push_brightness (snd p) <= 97)%Z)
         (pushes (snd (run opened t0 ticks e))).
Proof.
  intros He. apply new_Engine_ten_bands in He.
  unfold run. destruct opened as [rate|]; [|constructor].
  destruct (run_loop rate ticks _) as [r st] eqn:H. cbn [snd].
  refine (run_loop_pushes (fun _ => ten_bands)
            (fun p => (50 <= push_saturation p <= 98)%Z /\
                      (20 <= push_brightness p <= 97)%Z)
            rate _ _ ticks
            {| engine := e; last_send := t0; pushes := [] |} r st He _ H).
  - auto.
  - intros _ n mag e0 r0 e' Hten Ha.
    destruct (analyze_frame_spec _ _ _ _ _ _ Hten Ha) as [Hten' Hbn].
    split; [assumption|]. intros bn ->.
    destruct (Hbn bn eq_refl). apply saturation_brightness_of_bands; assumption.
  - constructor.
Qed.


Lemma quiet_push :
  push_of_bands (replicate 10 0) =
    {| push_hue := 0; push_saturation := 50; push_brightness := 20 |}.
Proof.
  unfold push_of_bands, color_of_bands.
  assert (forall l, Forall (fun v => v = 0) l -> l <> [] -> mean l = 0) as Hmean.
  { intros l Hl Hne.
    assert (0 <= mean l <= 0) by
      (apply mean_bounds; [assumption|];
       eapply Forall_impl; [exact Hl|]; cbn; intros; lra).
    lra. }
  rewrite (Hmean (replicate 10 0)), (Hmean (slice 0 3 (replicate 10 0))),
    (Hmean (slice 3 6 (replicate 10 0))), (Hmean (slice 6 10 (replicate 10 0)));
    try (repeat constructor); try discriminate.
  replace (0 * 0 + 0 * 240) with 0 by lra.
  rewrite float_mod_small by lra.
  replace (50 + 0 * 50) with (IZR 50) by lra.
  replace (20 + 0 * 80) with (IZR 20) by lra.
  change 0 with (IZR 0) at 1.
  rewrite !int_of_float_IZR. reflexivity.
Qed.

Lemma deque_append_length m h x :
  (length (deque_append m h x) <= length h + 1)%nat /\
  ((length h <= m)%nat -> (length (deque_append m h x) <= m)%nat).
Proof.
  unfold deque_append. destruct (length h <? m)%nat eqn:Hlt.
  - apply Nat.ltb_lt in Hlt. rewrite length_app. cbn. lia.
  - destruct h as [|y h]; cbn; [lia|]. rewrite length_app. cbn. lia.
Qed.

Lemma Forall_zip_deque (P Q : list R -> Prop) m hs : forall es,
  Forall P hs -> (forall h x, P h -> Q (deque_append m h x)) ->
  Forall Q (zip_with (deque_append m) hs es).
Proof.
  induction hs as [|h hs IH]; intros es Hall Hstep; [constructor|].
  apply Forall_cons in Hall as [Hh Hall].
  destruct es as [|x es]; [constructor|]. cbn.
  constructor; [apply Hstep; assumption|apply IH; assumption].
Qed.

Lemma update_quiet es st out st' :
  update_and_normalize es st = (Ok out, st') ->
  (forall h x, h ∈ band_hist st ->
     (length (deque_append (maxlen st) h x) < 20)%nat) ->
  out = replicate (length es) 0.
Proof.
  intros Hu Hq. unfold update_and_normalize in Hu.
  pose proof (update_loop_length _ _ _ _ _ _ Hu) as Hlen. cbn in Hlen.
  symmetry. apply replicate_as_Forall. split; [assumption|].
  apply Forall_lookup. intros j v Hv. symmetry.
  assert (j < length es)%nat as Hj
    by (rewrite <- Hlen; eapply lookup_lt_Some; eauto).
  apply lookup_lt_is_Some in Hj as [e He].
  destruct (update_loop_lookup _ _ _ _ _ _ _ e Hu He) as (h & Hh & Ho).
  cbn in Hh, Ho. rewrite Hv in Ho. simplify_eq.
  unfold spec_emit. rewrite <- deque_append_spec.
  assert (length (deque_append (maxlen st) h e) < 20)%nat as Hl
    by (apply Hq; eapply list_elem_of_lookup_2; eauto).
  apply Nat.ltb_lt in Hl. rewrite Hl. reflexivity.
Qed.

Lemma warming_up_mono k e : warming_up (S k) e -> warming_up k e.
Proof.
  intros [Hten [H|H]]; (split; [assumption|]); [left|right; assumption].
  eapply Forall_impl; [exact H|]. cbn. intros; lia.
Qed.

Lemma analyze_frame_warming_up rate k n mag e r e' :
  warming_up (S k) e ->
  analyze_frame n mag rate e = (r, e') ->
  warming_up k e' /\
  forall bn, r = Ok bn ->
    push_of_bands bn =
      {| push_hue := 0; push_saturation := 50; push_brightness := 20 |}.
Proof.
  intros Hw. pose proof Hw as [[Hnb Hlen] Hq].
  unfold analyze_frame. destruct (n =? 0)%Z.
  { unfold gets. intros H; simplify_eq.
    split; [apply warming_up_mono; assumption|].
    intros bn Hbn. simplify_eq. rewrite Hnb. apply quiet_push. }
  destruct (rate =? 0)%Z.
  { unfold raise. intros H; simplify_eq.
    split; [apply warming_up_mono; assumption|]. intros bn Hbn. discriminate. }
  unfold zoom.
  remember (band_energies_from 0 DEFAULT_BANDS n rate mag) as es eqn:Ees.
  assert (length es = 10%nat) as Hes
    by (subst es; rewrite band_energies_from_length; reflexivity).
  clear Ees.
  destruct (update_and_normalize_shape es (energy_norm e))
    as (st1 & Hst1 & Hm & Hb & Hok & _).
  destruct (Hok ltac:(lia)) as (out & Hout & Hlo).
  rewrite Hout. intros H; simplify_eq. cbn [fst snd].
  split.
  - split; [split; cbn; [assumption|]|cbn].
    + rewrite Hb, length_app, length_zip_with, length_drop. lia.
    + rewrite Hm, Hb, drop_ge, app_nil_r by lia.
      destruct Hq as [Hq|[Hmax Hq]]; [left|right; split; [assumption|]].
      * eapply Forall_zip_deque; [exact Hq|]. cbn. intros h x Hl.
        destruct (deque_append_length (maxlen (energy_norm e)) h x). lia.
      * eapply Forall_zip_deque; [exact Hq|]. cbn. intros h x Hl.
        destruct (deque_append_length (maxlen (energy_norm e)) h x). auto.
  - intros bn Hbn. simplify_eq.
    rewrite (update_quiet _ _ _ _ Hout), Hes; [apply quiet_push|].
    intros h x Hh.
    destruct (deque_append_length (maxlen (energy_norm e)) h x) as [H1 H2].
    destruct Hq as [Hq|[Hmax Hq]].
    + rewrite Forall_forall in Hq. specialize (Hq _ Hh). cbn in Hq. lia.
    + rewrite Forall_forall in Hq. specialize (Hq _ Hh). cbn in Hq.
      specialize (H2 Hq). lia.
Qed.

(** X15. While the normalizer warms up, the audio loop pushes one fixed
    colour: with a history length below 20, or during the first 19
    iterations of the loop, every push of a constructed engine is hue 0,
    saturation 50, brightness 20, whatever the frames. *)
Theorem audio_warm_up_colour
    (pyaudio : bool) (a : AudioSettings) (e : Engine) (opened : option Z)
    (t0 : R) (ticks : list TickInput) :
  new_Engine pyaudio a = Ok e ->
  (history_len a < 20)%Z \/ (length ticks < 20)%nat ->
  Forall (fun p => snd p = {| push_hue := 0; push_saturation := 50;
                              push_brightness := 20 |})
         (pushes (snd (run opened t0 ticks e))).
Proof.
  intros He Hshort.
  assert (warming_up (length ticks) e) as Hw.
  { split; [eapply new_Engine_ten_bands; eauto|].
    unfold new_Engine, new_AdaptiveEnergy in He.
    destruct ((0 <? num_bands a)%Z && _)%bool; [discriminate|].
    destruct (negb pyaudio); [discriminate|].
    destruct (negb _); [discriminate|]. simplify_eq. cbn.
    destruct Hshort as [Hs|Hs].
    - right. split; [lia|]. apply Forall_replicate. cbn. lia.
    - left. apply Forall_replicate. cbn. lia. }
  unfold run. destruct opened as [rate|]; [|constructor].
  destruct (run_loop rate ticks _) as [r st] eqn:H. cbn [snd].
  refine (run_loop_pushes warming_up
            (fun p => p = {| push_hue := 0; push_saturation := 50;
                             push_brightness := 20 |})
            rate warming_up_mono (analyze_frame_warming_up rate) ticks
            {| engine := e; last_send := t0; pushes := [] |} r st Hw _ H).
  constructor.
Qed.

End AudioLoopMore.

Section Silence.
Import AudioSync.

Lemma insert_sorted_Forall (P : R -> Prop) x l :
  P x -> Forall P l -> Forall P (insert_sorted x l).
Proof.
  intros Hx. induction 1 as [|y l Hy Hl IH]; cbn.
  - repeat constructor. assumption.
  - destruct (Rle_dec x y); repeat constructor; assumption.
Qed.

Lemma np_sort_Forall (P : R -> Prop) l : Forall P l -> Forall P (np_sort l).
Proof.
  induction 1 as [|x l Hx Hl IH]; cbn; [constructor|].
  apply insert_sorted_Forall; assumption.
Qed.

Lemma nth_nonneg (l : list R) k :
  Forall (fun v => 0 <= v) l -> 0 <= nth k l 0.
Proof.
  intros Hl. revert k. induction Hl as [|x l Hx Hl IH]; intros [|k]; cbn;
    auto; lra.
Qed.

Lemma np_median_nonneg h : Forall (fun v => 0 <= v) h -> 0 <= np_median h.
Proof.
  intros Hh. apply (np_sort_Forall (fun v => 0 <= v)) in Hh.
  unfold np_median. destruct (Nat.even _).
  - pose proof (nth_nonneg _ (length (np_sort h) / 2 - 1) Hh).
    pose proof (nth_nonneg _ (length (np_sort h) / 2) Hh). lra.
  - apply nth_nonneg. assumption.
Qed.

Lemma normalize_band_below_median h e :
  e <= np_median h -> normalize_band h e = 0.
Proof.
  intros He. unfold normalize_band.
  destruct (Rle_dec (np_percentile90 h) (np_median h)) as [Hp|Hp];
    [apply tanh_0|].
  rewrite <- tanh_0 at 2. f_equal.
  assert (0 < np_percentile90 h - np_median h + 1e-9) as Hd by lra.
  pose proof (Rinv_0_lt_compat _ Hd).
  assert ((e - np_median h) / (np_percentile90 h - np_median h + 1e-9) <= 0)
    by (unfold Rdiv; nra).
  unfold clip, Rmin, Rmax. repeat destruct (Rle_dec _ _); lra.
Qed.

Lemma sum_nonneg (l : list R) :
  Forall (fun v => 0 <= v) l -> 0 <= fold_right Rplus 0 l.
Proof. induction 1; cbn; lra. Qed.

Lemma mean_nonneg (l : list R) : Forall (fun v => 0 <= v) l -> 0 <= mean l.
Proof.
  intros Hl. unfold mean. destruct l as [|x l].
  - cbn. unfold Rdiv. rewrite Rmult_0_l. lra.
  - pose proof (sum_nonneg _ Hl).
    assert (0 < INR (length (x :: l))) by (apply lt_0_INR; cbn; lia).
    apply Rmult_le_pos; [assumption|]. left. apply Rinv_0_lt_compat.
    assumption.
Qed.

Lemma mean_zero (l : list R) : Forall (fun v => v = 0) l -> mean l = 0.
Proof.
  intros Hl. unfold mean.
  assert (fold_right Rplus 0 l = 0) as ->
    by (induction Hl; cbn; [reflexivity|lra]).
  unfold Rdiv. apply Rmult_0_l.
Qed.

Lemma band_energy_nonneg fmin fmax n rate mag :
  Forall (fun v => 0 <= v) mag -> 0 <= band_energy fmin fmax n rate mag.
Proof.
  intros Hm. unfold band_energy. destruct (_ >? _)%Z; [|lra].
  apply mean_nonneg. unfold slice. apply Forall_take, Forall_drop. assumption.
Qed.

Lemma band_energy_silent fmin fmax n rate mag :
  Forall (fun v => v = 0) mag -> band_energy fmin fmax n rate mag = 0.
Proof.
  intros Hm. unfold band_energy. destruct (_ >? _)%Z; [|reflexivity].
  apply mean_zero. unfold slice. apply Forall_take, Forall_drop. assumption.
Qed.

Lemma band_energies_from_Forall (P : R -> Prop) n rate mag :
  (forall fmin fmax, P (band_energy fmin fmax n rate mag)) ->
  forall bands fmin, Forall P (band_energies_from fmin bands n rate mag).
Proof.
  intros HP. induction bands as [|b bands IH]; intros fmin; cbn;
    constructor; auto.
Qed.

Lemma Forall_zip_deque2 (P Q : list R -> Prop) (E : R -> Prop) m hs :
  forall es,
    Forall P hs -> Forall E es ->
    (forall h x, P h -> E x -> Q (deque_append m h x)) ->
    Forall Q (zip_with (deque_append m) hs es).
Proof.
  induction hs as [|h hs IH]; intros es Hall Hes Hstep; [constructor|].
  apply Forall_cons in Hall as [Hh Hall].
  destruct es as [|x es]; [constructor|]. cbn.
  apply Forall_cons in Hes as [Hx Hes].
  constructor; [apply Hstep; assumption|apply IH; assumption].
Qed.

Lemma deque_append_Forall (P : R -> Prop) m h x :
  Forall P h -> P x -> Forall P (deque_append m h x).
Proof.
  intros Hh Hx. unfold deque_append.
  assert (Forall P (h ++ [x])) as H
    by (apply Forall_app; split; [assumption|repeat constructor; assumption]).
  destruct (_ <? _)%nat; [assumption|].
  destruct (h ++ [x]); [constructor|]. cbn. apply Forall_cons in H. apply H.
Qed.

Lemma zoom_result {S T A} (get : S -> T) (set : T -> S -> S) (m : M T A)
    s r s' :
  zoom get set m s = (r, s') ->
  r = fst (m (get s)) /\ s' = set (snd (m (get s))) s.
Proof.
  unfold zoom. destruct (m (get s)). intros H. simplify_eq. auto.
Qed.

Lemma analyze_frame_nonneg n mag rate e r e' :
  ten_bands e -> nonneg_history e -> Forall (fun v => 0 <= v) mag ->
  analyze_frame n mag rate e = (r, e') ->
  ten_bands e' /\ nonneg_history e'.
Proof.
  intros Hten Hh Hm Ha.
  split; [exact (proj1 (analyze_frame_spec _ _ _ _ _ _ Hten Ha))|].
  unfold analyze_frame in Ha. destruct (n =? 0)%Z.
  { unfold gets in Ha. simplify_eq. assumption. }
  destruct (rate =? 0)%Z.
  { unfold raise in Ha. simplify_eq. assumption. }
  apply zoom_result in Ha as [_ ->].
  pose proof (band_energies_from_Forall (fun v => 0 <= v) n rate mag
                (fun fmin fmax => band_energy_nonneg fmin fmax n rate mag Hm)
                DEFAULT_BANDS 0%Z) as Hes.
  set (es := band_energies_from 0 DEFAULT_BANDS n rate mag) in *.
  clearbody es.
  destruct (update_and_normalize_shape es (energy_norm e))
    as (st1 & Hst1 & Hmx & Hb & _).
  rewrite Hst1.
  unfold nonneg_history. cbn [energy_norm set_energy_norm]. rewrite Hb.
  apply Forall_app. split; [|apply Forall_drop; assumption].
  eapply Forall_zip_deque2; [exact Hh|exact Hes|].
  intros h x Hhh Hx. apply deque_append_Forall; assumption.
Qed.

Lemma tick_nonneg rate inp st r st' :
  ten_bands (engine st) -> nonneg_history (engine st) -> nonneg_frame inp ->
  tick rate inp st = (r, st') ->
  ten_bands (engine st') /\ nonneg_history (engine st').
Proof.
  intros Hten Hh Hf. destruct inp as [|n mag now ok]; cbn [tick].
  { intros H. cbv in H. simplify_eq. auto. }
  intros H. unfold mbind, M_bind, zoom in H.
  destruct (analyze_frame n mag rate (engine st)) as [r1 e1] eqn:Ha.
  destruct (analyze_frame_nonneg _ _ _ _ _ _ Hten Hh Hf Ha) as [Hten1 Hh1].
  destruct r1 as [bn|x]; [|simplify_eq; auto].
  destruct (color_of_bands bn) as [[hue sat] bri].
  unfold gets in H. cbn in H.
  destruct (Rgt_dec _ _).
  - unfold modify in H. cbn in H.
    destruct ok; cbn in H; simplify_eq; cbn; auto.
  - cbv in H. simplify_eq. cbn. auto.
Qed.

Lemma run_loop_nonneg rate ticks : forall st r st',
  ten_bands (engine st) -> nonneg_history (engine st) ->
  Forall nonneg_frame ticks ->
  run_loop rate ticks st = (r, st') ->
  ten_bands (engine st') /\ nonneg_history (engine st').
Proof.
  induction ticks as [|inp ticks IH]; intros st r st' Hten Hh Hf H.
  { cbv in H. simplify_eq. auto. }
  apply Forall_cons in Hf as [Hf1 Hf].
  cbn [run_loop] in H. unfold mbind, M_bind in H.
  destruct (tick rate inp st) as [r1 st1] eqn:H1.
  destruct (tick_nonneg _ _ _ _ _ Hten Hh Hf1 H1) as [Hten1 Hh1].
  destruct r1 as [[]|x]; [eapply IH; eauto|simplify_eq; auto].
Qed.

Lemma update_silent es st out st' :
  update_and_normalize es st = (Ok out, st') ->
  Forall (Forall (fun v => 0 <= v)) (band_hist st) ->
  Forall (fun v => v = 0) es ->
  out = replicate (length es) 0.
Proof.
  intros Hu Hh Hz. unfold update_and_normalize in Hu.
  pose proof (update_loop_length _ _ _ _ _ _ Hu) as Hlen. cbn in Hlen.
  symmetry. apply replicate_as_Forall. split; [assumption|].
  apply Forall_lookup. intros j v Hv. symmetry.
  assert (j < length es)%nat as Hj
    by (rewrite <- Hlen; eapply lookup_lt_Some; eauto).
  apply lookup_lt_is_Some in Hj as [x Hx].
  destruct (update_loop_lookup _ _ _ _ _ _ _ x Hu Hx) as (h & Hhj & Ho).
  cbn in Hhj, Ho. rewrite Hv in Ho. simplify_eq.
  assert (x = 0) as -> by (eapply (Forall_lookup_1 _ _ _ _ Hz); eauto).
  rewrite <- deque_append_spec, <- emit_spec.
  destruct (_ <? 20)%nat; [reflexivity|].
  apply normalize_band_below_median, np_median_nonneg.
  apply deque_append_Forall; [|lra].
  eapply (Forall_lookup_1 _ _ _ _ Hh); eauto.
Qed.

Lemma analyze_frame_silent n mag rate e bn e' :
  ten_bands e -> nonneg_history e -> Forall (fun v => v = 0) mag ->
  analyze_frame n mag rate e = (Ok bn, e') ->
  bn = replicate 10 0.
Proof.
  intros [Hnb Hlen] Hh Hm. unfold analyze_frame. destruct (n =? 0)%Z.
  { unfold gets. intros H. simplify_eq. rewrite Hnb. reflexivity. }
  destruct (rate =? 0)%Z; [discriminate|].
  intros Ha. apply zoom_result in Ha as [Hr _]. symmetry in Hr.
  pose proof (band_energies_from_length DEFAULT_BANDS 0%Z n rate mag) as Hes.
  pose proof (band_energies_from_Forall (fun v => v = 0) n rate mag
                (fun fmin fmax => band_energy_silent fmin fmax n rate mag Hm)
                DEFAULT_BANDS 0%Z) as Hz.
  set (es := band_energies_from 0 DEFAULT_BANDS n rate mag) in *.
  clearbody es. change (length DEFAULT_BANDS) with 10%nat in Hes.
  destruct (update_and_normalize_shape es (energy_norm e))
    as (st1 & Hst1 & _ & _ & Hok & _).
  destruct (Hok ltac:(lia)) as (out & Hu & _).
  rewrite Hu in Hr. cbn [fst] in Hr. injection Hr as ->.
  rewrite <- Hes. eapply update_silent; eauto.
Qed.


Lemma new_Engine_nonneg pyaudio a e :
  new_Engine pyaudio a = Ok e -> nonneg_history e.
Proof.
  unfold new_Engine, new_AdaptiveEnergy.
  destruct ((0 <? num_bands a)%Z && _)%bool; [discriminate|].
  destruct (negb pyaudio); [discriminate|].
  destruct (negb _); [discriminate|]. intros H. simplify_eq.
  apply Forall_replicate. constructor.
Qed.

(** X16. Silence gives the resting colour: for a constructed engine whose
    loop has run on any frames (a spectrum holds magnitudes, never negative),
    an iteration on a frame whose spectrum is all zero pushes hue 0,
    saturation 50, brightness 20, or pushes nothing (the rate limiter, or a
    zero sample rate), whatever the histories hold. *)
Theorem silent_frame_rest_colour
    (pyaudio : bool) (a : AudioSettings) (e : Engine) (rate : Z) (t0 : R)
    (ticks : list TickInput) (st : RunState)
    (n : Z) (mag : list R) (now : R) (ok : bool) :
  new_Engine pyaudio a = Ok e ->
  Forall nonneg_frame ticks ->
  run (Some rate) t0 ticks e = (Ok tt, st) ->
  Forall (fun v => v = 0) mag ->
  let st' := snd (tick rate (Frame n mag now ok) st) in
  pushes st' = pushes st \/
  pushes st' =
    pushes st ++ [(now, {| push_hue := 0; push_saturation := 50;
                           push_brightness := 20 |})].
Proof.
  intros He Hf Hrun Hm st'. subst st'.
  destruct (run_loop_nonneg rate ticks
              {| engine := e; last_send := t0; pushes := [] |} (Ok tt) st
              (new_Engine_ten_bands _ _ _ He) (new_Engine_nonneg _ _ _ He)
              Hf Hrun) as [Hten Hh].
  cbn [tick]. unfold mbind, M_bind, zoom.
  destruct (analyze_frame n mag rate (engine st)) as [r1 e1] eqn:Ha.
  destruct r1 as [bn|x]; [|left; reflexivity].
  rewrite (analyze_frame_silent _ _ _ _ _ _ Hten Hh Hm Ha).
  pose proof quiet_push as Hq. unfold push_of_bands in Hq.
  destruct (color_of_bands (replicate 10 0)) as [[hue sat] bri].
  injection Hq as -> -> ->.
  unfold gets. cbn [fst snd]. cbv beta iota.
  destruct (Rgt_dec _ _).
  - right. unfold modify. cbn. destruct ok; reflexivity.
  - left. reflexivity.
Qed.

End Silence.

(** ** The colours of the screen loop *)

Section ScreenMore.
Import ScreenSync.

Lemma int_of_float_at_most (b : Z) x :
  (0 <= b)%Z -> x <= IZR b -> (int_of_float x <= b)%Z.
Proof.
  intros Hb Hx. unfold int_of_float. destruct (Rle_dec 0 x) as [H0|H0].
  - apply Int_part_ge. assumption.
  - assert (0 <= Int_part (- x))%Z by (apply Int_part_le; lra). lia.
Qed.

Lemma target_saturation_bounds avg e h s b :
  get_weighted_avg_color avg e = Ok (h, s, b) -> (10 <= s <= 100)%Z.
Proof.
  unfold get_weighted_avg_color.
  destruct (apply_gamma_correction _ _) as [[[cr cg] cb]|x]; [|discriminate].
  destruct (rgb_to_hsv _ _ _) as [[h0 s0] v0].
  intros H. simplify_eq.
  assert (int_of_float
            (Rmin (s0 * saturation_boost (settings e)) 1 * 100) <= 100)%Z.
  { apply int_of_float_at_most; [lia|].
    pose proof (Rmin_r (s0 * saturation_boost (settings e)) 1). lra. }
  lia.
Qed.

Lemma update_colors_saturation ss avg e r e' :
  0 <= smoothing_factor ss <= 1 ->
  saturation_inv ss e ->
  update_colors avg e = (r, e') ->
  saturation_inv ss e' /\
  (forall h s b, r = Ok (h, s, b) ->
     (0 <= h <= 359)%Z /\ (10 <= s <= 100)%Z).
Proof.
  intros Hf [Hset Hcur]. unfold update_colors.
  destruct (get_weighted_avg_color avg e) as [[[th ts] tb]|x] eqn:Hg.
  2:{ intros H; simplify_eq. split; [split; auto|]. intros; discriminate. }
  apply target_saturation_bounds in Hg. destruct Hg as [Hg1 Hg2].
  apply IZR_le in Hg1, Hg2.
  intros H; simplify_eq. cbn [settings current_sat set_current].
  assert (10 <= lerp (current_sat e) (IZR ts) (smoothing_factor (settings e))
          <= 100) as Hl by (apply lerp_between; auto).
  split; [split; [reflexivity|exact Hl]|].
  intros h s b Hb. simplify_eq. split.
  - assert (0 <= int_of_float
                   (lerp_hue (current_hue e) (IZR th)
                      (smoothing_factor (settings e))) < 360)%Z.
    { apply int_of_float_below. unfold lerp_hue.
      destruct (Rgt_dec _ _); [destruct (Rgt_dec _ _)|];
        apply float_mod_range; lra. }
    lia.
  - apply (int_of_float_between 10 100). exact Hl.
Qed.

Lemma tick_saturation ss inp st r st' :
  0 <= smoothing_factor ss <= 1 ->
  saturation_inv ss (engine st) ->
  Forall hue_saturation_ok (pushes st) ->
  tick inp st = (r, st') ->
  saturation_inv ss (engine st') /\ Forall hue_saturation_ok (pushes st').
Proof.
  intros Hf Hinv Hall. unfold tick.
  set (e := match user_set inp with
            | Some value => set_user_brightness value (engine st)
            | None => engine st
            end).
  assert (saturation_inv ss e) as He
    by (subst e; destruct (user_set inp); exact Hinv).
  destruct (update_colors (avg_color inp) e) as [r1 e1] eqn:Hu.
  destruct (update_colors_saturation _ _ _ _ _ Hf He Hu) as [Hinv1 Hb].
  destruct r1 as [[[h s] b]|x].
  - specialize (Hb h s b eq_refl).
    destruct (push_ok inp); intros H; simplify_eq; cbn;
      (split; [assumption|]); apply Forall_app; (split; [assumption|]);
      apply Forall_singleton; exact Hb.
  - intros H; simplify_eq. cbn. auto.
Qed.

Lemma run_loop_saturation ss ticks : forall st r st',
  0 <= smoothing_factor ss <= 1 ->
  saturation_inv ss (engine st) ->
  Forall hue_saturation_ok (pushes st) ->
  run_loop ticks st = (r, st') ->
  Forall hue_saturation_ok (pushes st').
Proof.
  induction ticks as [|inp ticks IH]; intros st r st' Hf Hinv Hall H.
  { cbv in H. simplify_eq. assumption. }
  cbn [run_loop] in H. unfold mbind, M_bind in H.
  destruct (tick inp st) as [r1 st1] eqn:H1.
  destruct (tick_saturation _ _ _ _ _ Hf Hinv Hall H1) as [Hinv1 Hall1].
  destruct r1 as [[]|x]; [eapply IH; eauto|simplify_eq; assumption].
Qed.

(** X17. With a smoothing factor in [[0, 1]], every push of the screen loop
    carries a hue from 0 to 359 and a saturation from 10 to 100, whatever
    the frames, the settings and the brightness the user sets meanwhile. *)
Theorem screen_hue_saturation_range
    (ss : ScreenSettings) (initial_brightness : option Z)
    (ticks : list TickInput) :
  0 <= smoothing_factor ss <= 1 ->
  let e := match initial_brightness with
           | Some v => set_user_brightness v (new_Engine ss)
           | None => new_Engine ss
           end in
  Forall hue_saturation_ok (pushes (snd (run ticks e))).
Proof.
  intros Hf e. unfold run.
  destruct (refresh_rate (settings e) =? 0)%Z; [constructor|].
  destruct (run_loop ticks _) as [r st] eqn:H. cbn [snd].
  refine (run_loop_saturation ss ticks {| engine := e; pushes := [] |} r st
            Hf _ _ H); [|constructor].
  subst e. destruct initial_brightness; (split; [reflexivity|cbn; lra]).
Qed.


(** X18. On a frame that does not change (and a brightness setting left
    alone), the screen loop pushes at every iteration and, in exact
    arithmetic, the distance of the smoothed saturation and of the smoothed
    brightness to their targets is multiplied by [1 - smoothing_factor] at
    each iteration. *)
Theorem still_frame_converges (avg : N * N * N) (th ts tb : Z) (k : nat) :
  forall (e : Engine) (ps : list Push),
    get_weighted_avg_color avg e = Ok (th, ts, tb) ->
    let f := smoothing_factor (settings e) in
    exists st',
      run_loop (replicate k (still_frame avg)) {| engine := e; pushes := ps |}
        = (Ok tt, st') /\
      length (pushes st') = (length ps + k)%nat /\
      current_sat (engine st') - IZR ts
        = (1 - f) ^ k * (current_sat e - IZR ts) /\
      current_brightness (engine st') - IZR tb
        = (1 - f) ^ k * (current_brightness e - IZR tb).
Proof.
  induction k as [|k IH]; intros e ps Hg f.
  - eexists. split; [reflexivity|]. cbn. split; [lia|]. split; lra.
  - cbn [replicate run_loop]. unfold mbind, M_bind.
    unfold tick at 1. cbn [user_set still_frame avg_color push_ok engine pushes].
    unfold update_colors. rewrite Hg.
    set (e1 := set_current _ _ _ e).
    assert (get_weighted_avg_color avg e1 = Ok (th, ts, tb)) as Hg1
      by (rewrite <- Hg; reflexivity).
    destruct (IH e1 (ps ++ [{| push_hue := int_of_float (current_hue e1);
                               push_saturation := int_of_float (current_sat e1);
                               push_brightness :=
                                 int_of_float (current_brightness e1) |}]) Hg1)
      as (st' & Hrun & Hlen & Hs & Hb).
    exists st'. split; [exact Hrun|].
    split; [rewrite Hlen, length_app; cbn; lia|].
    change (smoothing_factor (settings e1)) with f in Hs, Hb.
    rewrite Hs, Hb. subst e1. cbn [current_sat current_brightness set_current].
    unfold lerp. fold f. cbn [pow]. split; ring.
Qed.

Lemma Rpower_unit_interval x y :
  0 < x <= 1 -> 0 < y ->
  0 < Rpower x y <= 1 /\ (1 <= y -> Rpower x y <= x).
Proof.
  intros [Hx0 Hx1] Hy. unfold Rpower.
  assert (ln x <= 0) as Hln.
  { rewrite <- ln_1. destruct Hx1 as [Hlt| ->]; [|lra].
    left. apply ln_increasing; assumption. }
  assert (forall a b, a <= b -> exp a <= exp b) as Hexp.
  { intros a b [Hab| ->]; [left; apply exp_increasing; assumption|lra]. }
  split; [split|].
  - apply exp_pos.
  - rewrite <- exp_0. apply Hexp. nra.
  - intros Hy1. rewrite <- (exp_ln x) at 2 by assumption. apply Hexp. nra.
Qed.

Lemma gamma_channel_bounds gamma (c : N) :
  (c <= 255)%N -> 0 < gamma ->
  exists v, gamma_channel gamma c = Ok v /\ (0 <= v <= 255)%Z /\
            (1 <= gamma -> (v <= Z.of_N c)%Z).
Proof.
  intros Hc Hg. unfold gamma_channel, float_pow.
  assert (0 <= IZR (Z.of_N c) <= 255) as [Hc0 Hc255].
  { split; [apply IZR_le; lia|]. apply (IZR_le _ 255). lia. }
  destruct (Req_dec_T (IZR (Z.of_N c) / 255) 0) as [Hz|Hz].
  - destruct (Req_dec_T gamma 0); [lra|].
    destruct (Rlt_dec 0 gamma); [|lra].
    exists 0%Z. replace (255 * 0) with (IZR 0) by lra.
    rewrite int_of_float_IZR. split; [reflexivity|]. split; lia.
  - assert (0 < IZR (Z.of_N c) / 255 <= 1) as Hx by lra.
    destruct (Rpower_unit_interval _ gamma Hx Hg) as [[Hp0 Hp1] Hpx].
    eexists. split; [reflexivity|]. split.
    + apply (int_of_float_between 0 255). lra.
    + intros Hg1. specialize (Hpx Hg1).
      assert (0 <= int_of_float (255 * Rpower (IZR (Z.of_N c) / 255) gamma)
              <= Z.of_N c)%Z; [|lia].
      apply int_of_float_between. lra.
Qed.

(** X19. For channels in 0..255: with a positive gamma the corrected
    channels are again in 0..255, and with a gamma of at least 1 none
    exceeds the channel it comes from; with gamma 0 every colour becomes
    (255, 255, 255); with a negative gamma a colour with a zero channel
    raises (the division by zero of [0.0 ** gamma]). *)
Theorem gamma_correction_range (r g b : N) (gamma : R) :
  (r <= 255)%N -> (g <= 255)%N -> (b <= 255)%N ->
  (0 < gamma ->
   exists r' g' b',
     apply_gamma_correction (r, g, b) gamma = Ok (r', g', b') /\
     (0 <= r' <= 255)%Z /\ (0 <= g' <= 255)%Z /\ (0 <= b' <= 255)%Z /\
     (1 <= gamma ->
      (r' <= Z.of_N r)%Z /\ (g' <= Z.of_N g)%Z /\ (b' <= Z.of_N b)%Z)) /\
  (gamma = 0 ->
   apply_gamma_correction (r, g, b) gamma = Ok (255, 255, 255)%Z) /\
  (gamma < 0 -> r = 0%N \/ g = 0%N \/ b = 0%N ->
   apply_gamma_correction (r, g, b) gamma = Raise ArithmeticError).
Proof.
  intros Hr Hg Hb. split; [|split].
  - intros Hgam.
    destruct (gamma_channel_bounds gamma r Hr Hgam) as (r' & Er & Rr & Lr).
    destruct (gamma_channel_bounds gamma g Hg Hgam) as (g' & Eg & Rg & Lg).
    destruct (gamma_channel_bounds gamma b Hb Hgam) as (b' & Eb & Rb & Lb).
    exists r', g', b'. unfold apply_gamma_correction. rewrite Er, Eg, Eb.
    repeat split; auto; lia.
  - intros ->.
    assert (forall c : N, gamma_channel 0 c = Ok 255%Z) as H0.
    { intros c. unfold gamma_channel, float_pow.
      destruct (Req_dec_T _ 0).
      - destruct (Req_dec_T 0 0); [|lra].
        replace (255 * 1) with (IZR 255) by lra.
        rewrite int_of_float_IZR. reflexivity.
      - unfold Rpower. rewrite Rmult_0_l, exp_0.
        replace (255 * 1) with (IZR 255) by lra.
        rewrite int_of_float_IZR. reflexivity. }
    unfold apply_gamma_correction. rewrite !H0. reflexivity.
  - intros Hneg Hzero.
    assert (gamma_channel gamma 0 = Raise ArithmeticError) as H0.
    { unfold gamma_channel, float_pow. cbn [Z.of_N].
      destruct (Req_dec_T (0 / 255) 0); [|lra].
      destruct (Req_dec_T gamma 0); [lra|].
      destruct (Rlt_dec 0 gamma); [lra|]. reflexivity. }
    assert (forall c, exists x, gamma_channel gamma c = Raise ArithmeticError \/
                                gamma_channel gamma c = Ok x) as Hany.
    { intros c. unfold gamma_channel, float_pow.
      destruct (Req_dec_T _ 0).
      - destruct (Req_dec_T gamma 0); [lra|].
        destruct (Rlt_dec 0 gamma); [lra|]. exists 0%Z. left. reflexivity.
      - eexists. right. reflexivity. }
    unfold apply_gamma_correction.
    destruct (Hany r) as [xr [Er|Er]]; rewrite Er; [reflexivity|].
    destruct (Hany g) as [xg [Eg|Eg]]; rewrite Eg; [reflexivity|].
    destruct (Hany b) as [xb [Eb|Eb]]; rewrite Eb; [reflexivity|].
    exfalso. destruct Hzero as [->|[->| ->]]; congruence.
Qed.

Lemma gray_target_ok (c : N) (e : Engine) :
  (c <= 255)%N -> 0 < gamma_correction (settings e) ->
  exists t, get_weighted_avg_color (c, c, c) e = Ok t.
Proof.
  intros Hc Hg.
  destruct (gamma_channel_bounds _ c Hc Hg) as (v & Ev & _).
  unfold get_weighted_avg_color, apply_gamma_correction. rewrite Ev.
  rewrite rgb_to_hsv_gray. eexists. reflexivity.
Qed.

(** X20. A gray frame (three equal channels), under a positive gamma,
    always has the target hue 0 and the target saturation 10, whatever the
    saturation boost; its target brightness is the user brightness scaled by
    the corrected channel, clamped to the bounds of the settings. *)
Theorem gray_frame_target (c : N) (e : Engine) :
  (c <= 255)%N -> 0 < gamma_correction (settings e) ->
  exists v,
    gamma_channel (gamma_correction (settings e)) c = Ok v /\
    (0 <= v <= 255)%Z /\
    get_weighted_avg_color (c, c, c) e =
      Ok (0%Z, 10%Z,
          Z.max (min_brightness (settings e))
            (Z.min (int_of_float (IZR (user_brightness e) * (IZR v / 255)))
                   (max_brightness (settings e)))).
Proof.
  intros Hc Hg.
  destruct (gamma_channel_bounds _ c Hc Hg) as (v & Ev & Hv & _).
  exists v. split; [assumption|]. split; [assumption|].
  unfold get_weighted_avg_color, apply_gamma_correction. rewrite Ev.
  rewrite rgb_to_hsv_gray.
  replace (0 * 360) with (IZR 0) by lra.
  replace (Rmin (0 * saturation_boost (settings e)) 1 * 100) with (IZR 0).
  2:{ rewrite Rmult_0_l, Rmin_left by lra. lra. }
  rewrite !int_of_float_IZR. reflexivity.
Qed.

End ScreenMore.

Section ScreenCount.
Import ScreenSync.

Lemma update_colors_error avg e x e' :
  update_colors avg e = (Raise x, e') -> x = ArithmeticError.
Proof.
  assert (forall g c y, gamma_channel g c = Raise y -> y = ArithmeticError)
    as Hc.
  { intros g c y. unfold gamma_channel, float_pow.
    destruct (Req_dec_T _ 0); [|discriminate].
    destruct (Req_dec_T _ 0); [discriminate|].
    destruct (Rlt_dec 0 _); [discriminate|]. intros H. simplify_eq.
    reflexivity. }
  unfold update_colors.
  destruct (get_weighted_avg_color avg e) as [[[th ts] tb]|y] eqn:Hg;
    [discriminate|].
  intros H. simplify_eq. unfold get_weighted_avg_color in Hg.
  destruct (apply_gamma_correction avg _) as [[[cr' cg'] cb']|y] eqn:Hag.
  { destruct (rgb_to_hsv _ _ _) as [[h0 s0] v0]. discriminate. }
  simplify_eq. unfold apply_gamma_correction in Hag.
  destruct avg as [[cr cg] cb].
  destruct (gamma_channel _ cr) as [r'|y1] eqn:E1;
    [|simplify_eq; eapply Hc; eassumption].
  destruct (gamma_channel _ cg) as [g'|y2] eqn:E2;
    [|simplify_eq; eapply Hc; eassumption].
  destruct (gamma_channel _ cb) as [b'|y3] eqn:E3;
    [discriminate|simplify_eq; eapply Hc; eassumption].
Qed.

Lemma run_loop_count ticks : forall st r st',
  run_loop ticks st = (r, st') ->
  exists k,
    length (pushes st') = (length (pushes st) + k)%nat /\
    (k <= length ticks)%nat /\
    Forall (fun inp => push_ok inp = true) (take (k - 1) ticks) /\
    (r = Ok tt ->
     k = length ticks /\ Forall (fun inp => push_ok inp = true) ticks) /\
    (r = Raise DeviceError ->
     exists inp, ticks !! (k - 1)%nat = Some inp /\ push_ok inp = false /\
                 (0 < k)%nat) /\
    (r <> Ok tt -> r <> Raise DeviceError ->
     r = Raise ArithmeticError /\ (k < length ticks)%nat).
Proof.
  induction ticks as [|inp ticks IH]; intros st r st' H.
  { cbv in H. simplify_eq. exists 0%nat. cbn.
    repeat split; try constructor; try lia; try discriminate;
      intros; congruence. }
  cbn [run_loop] in H. unfold mbind, M_bind in H.
  destruct (tick inp st) as [r1 st1] eqn:H1.
  unfold tick in H1.
  destruct (update_colors _ _) as [[[[h s] b]|x] e1] eqn:Hu.
  - destruct (push_ok inp) eqn:Hp; simplify_eq.
    + destruct (IH _ _ _ H) as (k & Hlen & Hk & Hpre & Hok & Hdev & Hother).
      cbn [pushes] in Hlen. rewrite length_app in Hlen. cbn [length] in Hlen.
      exists (S k). split; [lia|]. split; [cbn; lia|].
      split.
      { destruct k as [|k]; [constructor|].
        replace (S (S k) - 1)%nat with (S (S k - 1))%nat by lia.
        rewrite firstn_cons. constructor; assumption. }
      split; [|split].
      * intros Hr. destruct (Hok Hr) as [-> Hall].
        split; [reflexivity|constructor; assumption].
      * intros Hr. destruct (Hdev Hr) as (inp' & Hl & Hf & Hpos).
        exists inp'. split; [|split; [assumption|lia]].
        destruct k as [|k]; [lia|].
        replace (S (S k) - 1)%nat with (S (S k - 1))%nat by lia. exact Hl.
      * intros Hn1 Hn2. destruct (Hother Hn1 Hn2) as [-> Hlt].
        split; [reflexivity|cbn; lia].
    + exists 1%nat. cbn [pushes]. rewrite length_app. cbn.
      split; [lia|]. split; [lia|]. split; [constructor|].
      split; [discriminate|]. split; [|congruence].
      intros _. exists inp. auto.
  - simplify_eq. exists 0%nat. cbn.
    split; [lia|]. split; [lia|]. split; [constructor|].
    apply update_colors_error in Hu as ->.
    split; [discriminate|]. split; [discriminate|].
    intros _ _. split; [reflexivity|lia].
Qed.

(** X21. The screen loop pushes at every iteration: it never pushes more
    often than it iterates; a run that ends normally has pushed once per
    iteration, every push succeeding; a run ended by a failed push has that
    push as its last one, every earlier push having succeeded; and with a
    refresh rate of 0 the loop raises before it pushes anything. *)
Theorem screen_pushes_every_iteration
    (ticks : list TickInput) (e : Engine) (r : Result unit) (st : RunState) :
  run ticks e = (r, st) ->
  (length (pushes st) <= length ticks)%nat /\
  (r = Ok tt ->
   length (pushes st) = length ticks /\
   Forall (fun inp => push_ok inp = true) ticks) /\
  (r = Raise DeviceError ->
   exists inp,
     ticks !! (length (pushes st) - 1)%nat = Some inp /\
     push_ok inp = false /\
     Forall (fun inp => push_ok inp = true)
            (take (length (pushes st) - 1) ticks)) /\
  (refresh_rate (settings e) = 0%Z ->
   r = Raise ArithmeticError /\ pushes st = []).
Proof.
  unfold run. destruct (refresh_rate (settings e) =? 0)%Z eqn:Hz.
  - intros H. simplify_eq. cbn.
    split; [lia|]. split; [discriminate|]. split; [discriminate|]. auto.
  - intros H. apply Z.eqb_neq in Hz.
    destruct (run_loop_count _ _ _ _ H)
      as (k & Hlen & Hk & Hpre & Hok & Hdev & _).
    cbn [pushes length Nat.add] in Hlen. rewrite Hlen.
    split; [assumption|]. split; [|split].
    + intros Hr. destruct (Hok Hr) as [-> Hall]. auto.
    + intros Hr. destruct (Hdev Hr) as (inp & Hl & Hf & _). eauto.
    + intros H0. contradiction.
Qed.

End ScreenCount.

Section Frozen.
Import ScreenSync.

Lemma lerp_hue_frozen (target : R) : lerp_hue 0 target 0 = 0.
Proof.
  unfold lerp_hue, lerp.
  destruct (Rgt_dec _ 180); [destruct (Rgt_dec target 0)|].
  - replace (0 + 360 + (target - (0 + 360)) * 0) with (0 + 360) by lra.
    rewrite float_mod_period by lra. apply float_mod_small. lra.
  - replace (0 + (target + 360 - 0) * 0) with 0 by lra.
    apply float_mod_small. lra.
  - replace (0 + (target - 0) * 0) with 0 by lra.
    apply float_mod_small. lra.
Qed.

Lemma tick_frozen ss inp st r st' :
  smoothing_factor ss = 0 ->
  frozen ss (engine st) ->
  Forall (fun p => p = initial_colour) (pushes st) ->
  tick inp st = (r, st') ->
  frozen ss (engine st') /\ Forall (fun p => p = initial_colour) (pushes st').
Proof.
  intros Hf Hinv Hall. unfold tick.
  set (e := match user_set inp with
            | Some value => set_user_brightness value (engine st)
            | None => engine st
            end).
  assert (frozen ss e) as (Hset & Hh & Hs & Hb)
    by (subst e; destruct (user_set inp); exact Hinv).
  unfold update_colors.
  destruct (get_weighted_avg_color (avg_color inp) e) as [[[th ts] tb]|x].
  2:{ intros H. simplify_eq. cbn. repeat split; assumption. }
  rewrite Hset, Hf, Hh, Hs, Hb, lerp_hue_frozen. unfold lerp.
  replace (50 + (IZR ts - 50) * 0) with (IZR 50) by lra.
  replace (60 + (IZR tb - 60) * 0) with (IZR 60) by lra.
  change 0 with (IZR 0) at 1. rewrite !int_of_float_IZR.
  destruct (push_ok inp); intros H; simplify_eq; cbn;
    (split; [repeat split; auto|]);
    apply Forall_app; (split; [assumption|]); apply Forall_singleton;
    reflexivity.
Qed.

Lemma run_loop_frozen ss ticks : forall st r st',
  smoothing_factor ss = 0 ->
  frozen ss (engine st) ->
  Forall (fun p => p = initial_colour) (pushes st) ->
  run_loop ticks st = (r, st') ->
  Forall (fun p => p = initial_colour) (pushes st').
Proof.
  induction ticks as [|inp ticks IH]; intros st r st' Hf Hinv Hall H.
  { cbv in H. simplify_eq. assumption. }
  cbn [run_loop] in H. unfold mbind, M_bind in H.
  destruct (tick inp st) as [r1 st1] eqn:H1.
  destruct (tick_frozen _ _ _ _ _ Hf Hinv Hall H1) as [Hinv1 Hall1].
  destruct r1 as [[]|x]; [eapply IH; eauto|simplify_eq; assumption].
Qed.

(** X22. A smoothing factor of 0 freezes the lamp: every push of the
    screen loop is then the initial colour, hue 0, saturation 50, brightness
    60, whatever the frames and the brightness the user sets. *)
Theorem zero_smoothing_freezes_colour
    (ss : ScreenSettings) (initial_brightness : option Z)
    (ticks : list TickInput) :
  smoothing_factor ss = 0 ->
  let e := match initial_brightness with
           | Some v => set_user_brightness v (new_Engine ss)
           | None => new_Engine ss
           end in
  Forall (fun p => p = initial_colour) (pushes (snd (run ticks e))).
Proof.
  intros Hf e. unfold run.
  destruct (refresh_rate (settings e) =? 0)%Z; [constructor|].
  destruct (run_loop ticks _) as [r st] eqn:H. cbn [snd].
  refine (run_loop_frozen ss ticks {| engine := e; pushes := [] |} r st
            Hf _ _ H); [|constructor].
  subst e. destruct initial_brightness; repeat split.
Qed.

End Frozen.

(** ** The address scan *)

Section DiscoveryScan.
Import Discovery.

Lemma scan_spec probe base (l : list Z) :
  match scan probe base l with
  | (Some ip, probed) =>
      exists pre i post,
        l = pre ++ i :: post /\ ip = address base i /\ probe ip = true /\
        Forall (fun j => probe (address base j) = false) pre /\
        probed = map (address base) (pre ++ [i])
  | (None, probed) =>
      Forall (fun j => probe (address base j) = false) l /\
      probed = map (address base) l
  end.
Proof.
  induction l as [|i l IH]; cbn [scan]; [split; [constructor|reflexivity]|].
  destruct (probe (address base i)) eqn:Hp.
  - exists [], i, l. repeat split; auto.
  - destruct (scan probe base l) as [[ip|] probed].
    + destruct IH as (pre & k & post & -> & -> & Hk & Hpre & ->).
      exists (i :: pre), k, post. repeat split; auto.
    + destruct IH as [Hl ->]. split; [constructor; assumption|reflexivity].
Qed.

Lemma seqZ_split (pre : list Z) : forall m n i post,
  seqZ m n = pre ++ i :: post ->
  i = (m + Z.of_nat (length pre))%Z /\ (m <= i < m + n)%Z /\
  pre = seqZ m (i - m).
Proof.
  induction pre as [|x pre IH]; intros m n i post H.
  - destruct (Z_lt_le_dec 0 n) as [Hn|Hn].
    + rewrite seqZ_cons in H by assumption. cbn in H. simplify_eq.
      cbn. split; [lia|]. split; [lia|].
      rewrite seqZ_nil by lia. reflexivity.
    + rewrite seqZ_nil in H by assumption. discriminate.
  - destruct (Z_lt_le_dec 0 n) as [Hn|Hn].
    + rewrite seqZ_cons in H by assumption. cbn in H.
      injection H as <- H.
      destruct (IH _ _ _ _ H) as (Hi & Hr & Hpre).
      cbn [length]. split; [lia|]. split; [lia|].
      rewrite (seqZ_cons m (i - m)) by lia. f_equal.
      rewrite Hpre at 1. f_equal. lia.
    + rewrite seqZ_nil in H by assumption. discriminate.
Qed.

(** X23. The address scan returns the address [scan_base.i] of the least
    [i] from [start] to [end] whose probe succeeds, having probed exactly
    the addresses from [start] to that [i], in increasing order; it returns
    [None] exactly when no address of the range answers, having probed them
    all (none when the range is empty). *)
Theorem discover_first_responder
    (probe : string -> bool) (scan_base : string) (start end_ : Z) :
  match discover_device_ip probe scan_base start end_ with
  | (Some ip, probed) =>
      exists i,
        (start <= i <= end_)%Z /\ ip = address scan_base i /\
        probe ip = true /\
        (forall j, (start <= j < i)%Z ->
                   probe (address scan_base j) = false) /\
        probed = map (address scan_base) (seqZ start (i + 1 - start))
  | (None, probed) =>
      (forall j, (start <= j <= end_)%Z ->
                 probe (address scan_base j) = false) /\
      probed = map (address scan_base) (seqZ start (end_ + 1 - start))
  end.
Proof.
  unfold discover_device_ip.
  pose proof (scan_spec probe scan_base (seqZ start (end_ + 1 - start))) as H.
  destruct (scan probe scan_base _) as [[ip|] probed].
  - destruct H as (pre & i & post & Hl & -> & Hp & Hpre & ->).
    destruct (seqZ_split _ _ _ _ _ Hl) as (Hi & Hr & Epre).
    exists i. split; [lia|]. split; [reflexivity|]. split; [assumption|].
    split.
    + intros j Hj. rewrite Epre, Forall_seqZ in Hpre. apply Hpre. lia.
    + f_equal. rewrite Epre.
      replace (i + 1 - start)%Z with ((i - start) + 1)%Z by lia.
      rewrite seqZ_app by lia. f_equal.
      rewrite seqZ_cons, seqZ_nil by lia. f_equal. lia.
  - destruct H as [Hall ->]. split; [|reflexivity].
    intros j Hj. rewrite Forall_seqZ in Hall. apply Hall. lia.
Qed.

End DiscoveryScan.


(** ** Witnesses of the further properties *)

(** A witness for X1: the screen mode is started while the audio mode
    runs. *)
Lemma start_switches_mode_witness :
  exists s',
    start true Sample.env_ok SCREEN None AudioSync.default_settings
      ScreenSync.default_settings (Some 70%Z)
      (run_events true
         [Invoke Sample.env_ok (Sample.start_audio_call (Some Sample.lamp_ip))]
         initial)
    = (Ok tt, s') /\
    active_mode (coord s') = Some SCREEN /\ audio_engine (coord s') = None.
Proof.
  eexists.
  match goal with |- ?A /\ _ => assert A as H end.
  { evaluate. reflexivity. }
  split; [exact H|].
  destruct (start_switches_mode true _ Sample.env_ok SCREEN None _ _ _ _ H)
    as (s0 & _ & _ & _ & Hm & _ & Ha).
  split; [exact Hm|exact Ha].
Defined.

(** A witness for X2: the brightness is set while the audio mode runs. *)
Lemma set_screen_brightness_after_start_witness :
  exists s',
    start true Sample.env_ok AUDIO (Some Sample.lamp_ip)
      AudioSync.default_settings ScreenSync.default_settings None
      (run_events true [] initial) = (Ok tt, s') /\
    forall v, set_screen_brightness v s' = s'.
Proof.
  eexists.
  match goal with |- ?A /\ _ => assert A as H end.
  { evaluate. reflexivity. }
  split; [exact H|].
  exact (set_screen_brightness_after_start true [] Sample.env_ok AUDIO _ _ _
           _ _ H).
Defined.

(** A witness for X3: the lamp cannot be reached. *)
Lemma failed_start_leaves_idle_witness :
  exists s',
    start true Sample.env_unreachable AUDIO (Some Sample.lamp_ip)
      AudioSync.default_settings ScreenSync.default_settings None
      (run_events true [] initial)
    = (Raise DeviceError, s') /\ idle s'.
Proof.
  eexists.
  match goal with |- ?A /\ _ => assert A as H end.
  { evaluate. reflexivity. }
  split; [exact H|].
  refine (proj1 (failed_start_leaves_idle true [] Sample.env_unreachable AUDIO
                   _ _ _ _ _ _ _ _ H)).
  evaluate. reflexivity.
Defined.

(** A witness for X4: no address is given and none is found. *)
Lemma screen_start_discovery_witness :
  exists s',
    start true Sample.env_unreachable SCREEN None AudioSync.default_settings
      ScreenSync.default_settings None initial
    = (Raise (RuntimeError "Device not found. Enter its IP and try again."),
       s') /\
    requests s' = [Discover].
Proof.
  eexists.
  match goal with |- ?A /\ _ => assert A as H end.
  { evaluate. reflexivity. }
  split; [exact H|].
  destruct (screen_start_discovery true Sample.env_unreachable None _ _ _
              initial _ _ _ ltac:(evaluate; reflexivity) H)
    as (rq & Hreq & _ & Hnone).
  destruct (Hnone eq_refl) as [-> _]. exact Hreq.
Defined.

(** A witness for X5: the audio backend is missing. *)
Lemma audio_constructor_failure_witness :
  exists s',
    start false Sample.env_ok AUDIO (Some Sample.lamp_ip)
      AudioSync.default_settings ScreenSync.default_settings None initial
    = (Raise (RuntimeError
         "PyAudio is required for audio sync. Install pyaudio or pyaudiowpatch."),
       s') /\
    is_Some (Tapo.device (controller (coord s'))) /\
    audio_engine (coord s') = None /\ active_mode (coord s') = None.
Proof.
  eexists.
  match goal with |- ?A /\ _ => assert A as H end.
  { evaluate. reflexivity. }
  split; [exact H|].
  destruct (audio_constructor_failure Sample.env_ok false
              (Some Sample.lamp_ip) Sample.lamp_ip _ _ _ initial _ _ _
              eq_refl eq_refl eq_refl (or_introl eq_refl)
              ltac:(evaluate; reflexivity) H)
    as (_ & _ & Hdev & Ha & _ & Hm & _).
  split; [exact Hdev|]. split; [exact Ha|exact Hm].
Defined.

(** A witness for X6: the audio loop ends with an exception when told to
    stop. *)
Lemma loop_failure_is_permanent_witness :
  let s := run_events true
             [Invoke Sample.env_ok
                (Sample.start_audio_call (Some Sample.lamp_ip))] initial in
  exists s1,
    exec_call true Sample.env_loop_fails CallStop s = (Raise LoopError, s1) /\
    exec_call true Sample.env_ok (Sample.start_screen_call None) s1
    = (Raise LoopError, s1).
Proof.
  intros s. subst s. eexists.
  match goal with |- ?A /\ _ => assert A as H end.
  { evaluate. reflexivity. }
  split; [exact H|].
  exact (loop_failure_is_permanent true _ CallStop _ _ H Sample.env_ok
           (Sample.start_screen_call None)).
Defined.

(** A witness for X8: the screen mode with a discovered address. *)
Lemma start_connects_and_powers_on_witness :
  exists s',
    start true Sample.env_ok SCREEN None AudioSync.default_settings
      ScreenSync.default_settings None initial = (Ok tt, s') /\
    is_Some (Tapo.device (controller (coord s'))) /\
    last (requests s') = Some PowerOn.
Proof.
  eexists.
  match goal with |- ?A /\ _ => assert A as H end.
  { evaluate. reflexivity. }
  split; [exact H|].
  destruct (start_connects_and_powers_on true Sample.env_ok SCREEN None _ _ _
              _ _ H) as (ip & _ & _ & Hdev & Hlast & _).
  split; [exact Hdev|exact Hlast].
Defined.

(** A witness for X9: a first connection, and the same address again
    while the lamp cannot be reached. *)
Lemma connect_caches_session_witness :
  Tapo.connect Sample.env_unreachable Sample.lamp_ip
    (Sample.connected, [Connect Sample.lamp_ip])
  = (Ok tt, (Sample.connected, [Connect Sample.lamp_ip])).
Proof.
  assert (Tapo.connect Sample.env_ok Sample.lamp_ip
            (Tapo.new_TapoController, [])
          = (Ok tt, (Sample.connected, [Connect Sample.lamp_ip]))) as H
    by (evaluate; reflexivity).
  exact (proj2 (proj2 (connect_caches_session _ _ _ _ _ _ _ H))
           Sample.env_unreachable).
Defined.

(** A witness for X10: a fresh engine of each kind in an empty event
    loop. *)
Lemma engine_restart_round_trip_witness :
  let ea := AudioSync.set_task None Sample.audio_engine0 in
  let es := ScreenSync.new_Engine ScreenSync.default_settings in
  AudioSync.start (ea, []) =
    (Ok tt, (AudioSync.set_task (Some 0%nat)
               (AudioSync.set_stop_event (Some false) ea), [Pending])) /\
  ScreenSync.stop (fun _ => true)
    (ScreenSync.set_task (Some 0%nat)
       (ScreenSync.set_stop_event (Some false) es), [Pending]) =
    (Ok tt, (ScreenSync.set_task None
               (ScreenSync.set_stop_event (Some true)
                  (ScreenSync.set_task (Some 0%nat)
                     (ScreenSync.set_stop_event (Some false) es))),
             [Finished])).
Proof.
  intros ea es.
  pose proof (engine_restart_round_trip ea es [] (fun _ => true)) as H.
  cbv zeta in H. destruct H as [Ha Hs].
  destruct (Ha eq_refl) as (H1 & _). destruct (Hs eq_refl) as (_ & _ & H2).
  split; [exact H1|exact H2].
Defined.

(** A witness for X11: two energies for a one-band normalizer. *)
Lemma update_and_normalize_length_mismatch_witness :
  fst (AudioSync.update_and_normalize [1; 2] Sample.one_band)
  = Raise IndexError.
Proof.
  destruct (update_and_normalize_length_mismatch [1; 2] Sample.one_band)
    as (st' & _ & _ & _ & _ & Hbad).
  destruct (Hbad ltac:(cbn; lia)) as [Hr _]. rewrite Hr. reflexivity.
Defined.

(** A witness for X12: three samples through a window of two. *)
Lemma history_is_sliding_window_witness :
  AudioSync.band_hist
    (snd (AudioSync.feed [[1]; [2]; [3]] Sample.short_band)) !! 0%nat
  = Some [2; 3].
Proof.
  assert (Forall (fun raw : list R =>
                    length raw = length (AudioSync.band_hist Sample.short_band))
                 [[1]; [2]; [3]]) as HF by (repeat constructor).
  assert (length ([] : list R) <= AudioSync.maxlen Sample.short_band)%nat
    as Hle by (cbn; lia).
  destruct (history_is_sliding_window [[1]; [2]; [3]] Sample.short_band
              0%nat [] HF eq_refl Hle) as (_ & _ & H).
  exact H.
Defined.


(** A witness for X14: the engine built from the default settings. *)
Lemma audio_saturation_brightness_range_witness :
  exists e,
    AudioSync.new_Engine true AudioSync.default_settings = Ok e /\
    Forall (fun p => (50 <= push_saturation (snd p) <= 98)%Z /\
                     (20 <= push_brightness (snd p) <= 97)%Z)
      (AudioSync.pushes
         (snd (AudioSync.run (Some 44100%Z) 0
                 [AudioSync.Frame 0 [] 1 true] e))).
Proof.
  eexists.
  match goal with |- ?A /\ _ => assert A as H end.
  { evaluate. reflexivity. }
  split; [exact H|].
  exact (audio_saturation_brightness_range true _ _ (Some 44100%Z) 0
           [AudioSync.Frame 0 [] 1 true] H).
Defined.

(** A witness for X15: the first two iterations of the default engine. *)
Lemma audio_warm_up_colour_witness :
  exists e,
    AudioSync.new_Engine true AudioSync.default_settings = Ok e /\
    Forall (fun p => snd p = {| push_hue := 0; push_saturation := 50;
                                push_brightness := 20 |})
      (AudioSync.pushes
         (snd (AudioSync.run (Some 44100%Z) 0
                 [AudioSync.Frame 2 [1] 1 true; AudioSync.Frame 2 [3] 2 true]
                 e))).
Proof.
  eexists.
  match goal with |- ?A /\ _ => assert A as H end.
  { evaluate. reflexivity. }
  split; [exact H|].
  refine (audio_warm_up_colour true _ _ (Some 44100%Z) 0
            [AudioSync.Frame 2 [1] 1 true; AudioSync.Frame 2 [3] 2 true] H _).
  right. cbn. lia.
Defined.

(** A witness for X17: the default settings, a white and a black frame. *)
Lemma screen_hue_saturation_range_witness :
  Forall ScreenSync.hue_saturation_ok
    (ScreenSync.pushes
       (snd (ScreenSync.run [Sample.white_frame; Sample.black_frame]
               (ScreenSync.new_Engine ScreenSync.default_settings)))).
Proof.
  apply (screen_hue_saturation_range ScreenSync.default_settings None
           [Sample.white_frame; Sample.black_frame]).
  cbn. lra.
Defined.

(** A witness for X18: three iterations on a white screen. *)
Lemma still_frame_converges_witness :
  exists st',
    ScreenSync.run_loop
      (replicate 3 (ScreenSync.still_frame (255, 255, 255)%N))
      {| ScreenSync.engine := ScreenSync.new_Engine ScreenSync.default_settings;
         ScreenSync.pushes := [] |} = (Ok tt, st') /\
    length (ScreenSync.pushes st') = 3%nat.
Proof.
  destruct (gray_target_ok 255 (ScreenSync.new_Engine ScreenSync.default_settings)
              ltac:(lia) ltac:(cbn; lra)) as ([[th ts] tb] & Hg).
  destruct (still_frame_converges (255, 255, 255)%N th ts tb 3 _ [] Hg)
    as (st' & Hrun & Hlen & _).
  exists st'. split; [exact Hrun|exact Hlen].
Defined.

(** A witness for X19: an orange pixel under the default gamma. *)
Lemma gamma_correction_range_witness :
  exists r' g' b',
    ScreenSync.apply_gamma_correction (200, 100, 0)%N 1.2 = Ok (r', g', b') /\
    (r' <= 200)%Z /\ (b' <= 255)%Z.
Proof.
  destruct (gamma_correction_range 200 100 0 1.2
              ltac:(lia) ltac:(lia) ltac:(lia)) as [H _].
  destruct (H ltac:(lra)) as (r' & g' & b' & E & _ & _ & Hb & Hle).
  exists r', g', b'. split; [exact E|].
  destruct (Hle ltac:(lra)) as [Hr _]. split; [exact Hr|apply Hb].
Defined.

(** A witness for X20: a mid-gray screen under the default settings. *)
Lemma gray_frame_target_witness :
  exists b,
    ScreenSync.get_weighted_avg_color (128, 128, 128)%N
      (ScreenSync.new_Engine ScreenSync.default_settings)
    = Ok (0%Z, 10%Z, b).
Proof.
  destruct (gray_frame_target 128
              (ScreenSync.new_Engine ScreenSync.default_settings)
              ltac:(lia) ltac:(cbn; lra)) as (v & _ & _ & Hg).
  eexists. exact Hg.
Defined.

(** A witness for X16: a first iteration on an empty
    frame, then a silent frame. *)
Lemma silent_frame_rest_colour_witness :
  exists e st,
    AudioSync.new_Engine true AudioSync.default_settings = Ok e /\
    AudioSync.run (Some 44100%Z) 0 [AudioSync.Frame 0 [] 1 true] e
    = (Ok tt, st) /\
    (AudioSync.pushes
       (snd (AudioSync.tick 44100 (AudioSync.Frame 4 [0; 0] 2 true) st))
     = AudioSync.pushes st \/
     AudioSync.pushes
       (snd (AudioSync.tick 44100 (AudioSync.Frame 4 [0; 0] 2 true) st))
     = AudioSync.pushes st ++
       [(2, {| push_hue := 0; push_saturation := 50;
               push_brightness := 20 |})]).
Proof.
  do 2 eexists.
  match goal with |- ?A /\ _ => assert A as He end.
  { evaluate. reflexivity. }
  split; [exact He|].
  match goal with |- ?A /\ _ => assert A as Hrun end.
  { evaluate.
    destruct (Rgt_dec _ _) as [_|Hn]; [reflexivity|exfalso; apply Hn; lra]. }
  split; [exact Hrun|].
  refine (silent_frame_rest_colour true _ _ 44100 0
            [AudioSync.Frame 0 [] 1 true] _ 4 [0; 0] 2 true He _ Hrun _).
  - repeat constructor.
  - repeat constructor.
Defined.

(** A witness for X21: the default settings, a
    white and a black frame. *)
Lemma screen_pushes_every_iteration_witness :
  (length
     (ScreenSync.pushes
        (snd (ScreenSync.run [Sample.white_frame; Sample.black_frame]
                (ScreenSync.new_Engine ScreenSync.default_settings))))
   <= 2)%nat.
Proof.
  destruct (ScreenSync.run [Sample.white_frame; Sample.black_frame]
              (ScreenSync.new_Engine ScreenSync.default_settings))
    as [r st] eqn:H.
  exact (proj1 (screen_pushes_every_iteration _ _ _ _ H)).
Defined.

(** A witness for X22: a white and a black
    frame without smoothing. *)
Lemma zero_smoothing_freezes_colour_witness :
  Forall (fun p => p = ScreenSync.initial_colour)
    (ScreenSync.pushes
       (snd (ScreenSync.run [Sample.white_frame; Sample.black_frame]
               (ScreenSync.new_Engine Sample.unsmoothed_settings)))).
Proof.
  apply (zero_smoothing_freezes_colour Sample.unsmoothed_settings None
           [Sample.white_frame; Sample.black_frame]).
  reflexivity.
Defined.
